(** * Trading log: position ledger, mutation routes and exchange reconciliation

    A shallow embedding of
      - [computeTradeAggregates] and the trade routes (routes/trades.ts),
      - the [Trade] model (models/Trade.ts),
      - [AsterDexSyncService] (services/asterDexSync.ts),
      - the request window and the nonce of [AsterDexClient]
        (clients/asterDex.ts),
    followed by the properties of the ledger that are checked against them.

    Conventions of the embedding.
      - Numbers.  The arithmetic of the ledger is embedded twice.  In the
        main development a JavaScript [number] is an exact rational ([Q]):
        every value is finite and arithmetic does not round; equality of
        numbers is [==]; a division by zero yields 0, and the routes and
        the service divide only by numbers they have tested to be
        positive.  This reading carries what does not depend on how a
        result rounds: the control flow of the routes, which documents are
        written, counts, and bounds that rounding keeps.  In module [F64]
        the aggregation and the routes that do arithmetic on the legs of a
        position are embedded again over IEEE-754 doubles, and whatever
        depends on rounding (the closes against the entries, the status a
        sell leaves, the order of a sum) is stated there.
      - Strings are sequences of characters below 256.  [trim] and
        [toUpperCase] are those of JavaScript on the characters below 128;
        what is said of a stored symbol is said for symbols of such
        characters ([isAscii]).
      - One request or one loop iteration runs at a time; overlapping calls
        are modelled for [runSync] only, where the guard is.
      - A [Date] is a number of milliseconds ([Z]); each [new Date()] of a
        request or of a reconciliation pass reads the clock value handed to
        the operation.  The feed gives [openedAt] as the ISO string the
        client wrote with [toISOString]; it is read as the date it denotes.
      - The Mongo collection is a list of documents in insertion order.  In
        the main development its calls ([findOne], [save], [create],
        [deleteOne]) are total operations on that list, and the only
        persistence failure is the schema's [required] check on [coin].
        Module [Unreliable] is the reconciliation pass over a store whose
        calls can be rejected, which is what the [catch] of [runSync]
        handles. *)

From Stdlib Require Import QArith Qminmax Qabs Lqa List String Ascii Bool.
From Stdlib Require Import Permutation Sorted ZArith Lia Arith Floats.
Import ListNotations.

Open Scope string_scope.
Open Scope Q_scope.

Set Warnings "-inexact-float".

(* ------------------------------------------------------------------ *)
(** ** Numbers *)

Definition Qlt_bool (x y : Q) : bool := negb (Qle_bool y x).

Infix "<?" := Qlt_bool : Q_scope.
Infix "<=?" := Qle_bool : Q_scope.
Notation "x >? y" := (Qlt_bool y x) (at level 70, only parsing) : Q_scope.
Notation "x >=? y" := (Qle_bool y x) (at level 70, only parsing) : Q_scope.

(** JavaScript truthiness of a nullable number: [null] and [0] are falsy. *)
Definition truthy (o : option Q) : bool :=
  match o with
  | Some q => negb (Qeq_bool q 0)
  | None => false
  end.

(** [a ?? b] *)
Definition nullish {A : Type} (o : option A) (d : A) : A :=
  match o with Some a => a | None => d end.

Infix "??" := nullish (at level 45, left associativity).

(** [a ?? b] where [b] is itself nullable *)
Definition nullish_opt {A : Type} (o d : option A) : option A :=
  match o with Some a => Some a | None => d end.

Definition isSome {A : Type} (o : option A) : bool :=
  match o with Some _ => true | None => false end.

(** The tolerance the sell route compares the remaining coin with. *)
Definition eps : Q := 1e-8.

(* ------------------------------------------------------------------ *)
(** ** The Trade model (models/Trade.ts) *)

Definition Date := Z.

Inductive TradeSide := long | short.
Inductive TradeStatus := active | closed.
Inductive TradeSource := manual | asterdex.
Inductive TradeExchangeProductType := spot | perpetual.

Definition TradeSide_eqb (a b : TradeSide) : bool :=
  match a, b with long, long | short, short => true | _, _ => false end.

Definition TradeStatus_eqb (a b : TradeStatus) : bool :=
  match a, b with active, active | closed, closed => true | _, _ => false end.

Record ITradeEntry := mkEntry {
  entryPrice : Q;
  amountInvestedUsd : Q;
  leverage : option Q;
  entryDate : Date
}.

Record ITradeClose := mkClose {
  closePrice : Q;
  closeCoinAmount : Q;
  closeUsdAmount : Q;
  closeDate : Date;
  pnlUsd : Q;
  pnlPercent : Q
}.

Record ITrade := mkTrade {
  _id : nat;
  userId : string;
  side : TradeSide;
  status : TradeStatus;
  coin : string;
  comment : option string;
  stopLossPrice : option Q;
  takeProfitPrice : option Q;
  entries : list ITradeEntry;
  closes : list ITradeClose;
  source : option TradeSource;
  exchange : option string;
  exchangeAccountId : option string;
  exchangePositionId : option string;
  exchangeProductType : option TradeExchangeProductType;
  lastSyncedAt : option Date;
  createdAt : Date;
  updatedAt : Date
}.

(* ------------------------------------------------------------------ *)
(** ** computeTradeAggregates *)

(** The three accumulators of the loop over the entries. *)
Record EntryTotals := mkTotals {
  accMarginUsd : Q;
  accEntryCoin : Q;
  accNotionalUsd : Q
}.

Definition entryNotional (e : ITradeEntry) : Q :=
  amountInvestedUsd e * (leverage e ?? 1).

Definition entryCoin (e : ITradeEntry) : Q :=
  entryNotional e / entryPrice e.

(** One iteration of [for (const e of entries)]. *)
Definition entryStep (acc : EntryTotals) (e : ITradeEntry) : EntryTotals :=
  let leverage := leverage e ?? 1 in
  let margin := amountInvestedUsd e in
  let notional := margin * leverage in
  let coin := notional / entryPrice e in
  {| accMarginUsd := accMarginUsd acc + margin;
     accEntryCoin := accEntryCoin acc + coin;
     accNotionalUsd := accNotionalUsd acc + notional |}.

Definition entryLoop (es : list ITradeEntry) : EntryTotals :=
  fold_left entryStep es (mkTotals 0 0 0).

(** One iteration of [for (const c of closes)]: closed coin and realised P&L. *)
Definition closeStep (acc : Q * Q) (c : ITradeClose) : Q * Q :=
  (fst acc + closeCoinAmount c, snd acc + pnlUsd c).

Definition closeLoop (cs : list ITradeClose) : Q * Q :=
  fold_left closeStep cs (0, 0).

Record Aggregates := mkAggregates {
  totalInitialMarginUsd : Q;
  totalEntryCoin : Q;
  openCoin : Q;
  avgEntryPrice : option Q;
  effectiveLeverage : option Q;
  openNotionalUsd : option Q;
  openMarginUsd : option Q;
  debtUsd : option Q;
  realizedPnlUsd : Q;
  realizedPnlPercent : option Q;
  liquidationPrice : option Q
}.

Definition computeTradeAggregates (trade : ITrade) : Aggregates :=
  let t := entryLoop (entries trade) in
  let totalInitialMarginUsd := accMarginUsd t in
  let totalEntryCoin := accEntryCoin t in
  let totalEntryNotionalUsd := accNotionalUsd t in
  let totalClosedCoin := fst (closeLoop (closes trade)) in
  let realizedPnlUsd := snd (closeLoop (closes trade)) in
  let openCoin := Qmax (totalEntryCoin - totalClosedCoin) 0 in
  let avgEntryPrice :=
    if totalEntryCoin >? 0 then Some (totalEntryNotionalUsd / totalEntryCoin)
    else None in
  let effectiveLeverage :=
    if totalInitialMarginUsd >? 0
    then Some (totalEntryNotionalUsd / totalInitialMarginUsd)
    else None in
  let openNotionalUsd :=
    match avgEntryPrice with
    | Some avg => if openCoin >? 0 then Some (openCoin * avg) else None
    | None => None
    end in
  let openMarginUsd :=
    match openNotionalUsd, effectiveLeverage with
    | Some n, Some l =>
        if truthy (Some l) && (l >? 0) then Some (n / l) else None
    | _, _ => None
    end in
  let debtUsd :=
    match openNotionalUsd, openMarginUsd with
    | Some n, Some m => Some (n - m)
    | _, _ => None
    end in
  let realizedPnlPercent :=
    if totalInitialMarginUsd >? 0
    then Some (realizedPnlUsd / totalInitialMarginUsd * 100)
    else None in
  let liquidationPrice :=
    match effectiveLeverage, avgEntryPrice with
    | Some l, Some avg =>
        if truthy (Some l) && (l >? 1) then
          match side trade with
          | long => Some (avg * (1 - 1 / l))
          | short => Some (avg * (1 + 1 / l))
          end
        else None
    | _, _ => None
    end in
  {| totalInitialMarginUsd := totalInitialMarginUsd;
     totalEntryCoin := totalEntryCoin;
     openCoin := openCoin;
     avgEntryPrice := avgEntryPrice;
     effectiveLeverage := effectiveLeverage;
     openNotionalUsd := openNotionalUsd;
     openMarginUsd := openMarginUsd;
     debtUsd := debtUsd;
     realizedPnlUsd := realizedPnlUsd;
     realizedPnlPercent := realizedPnlPercent;
     liquidationPrice := liquidationPrice |}.

(** Sum of the stored close amounts of a trade, as the close loop adds them. *)
Definition totalClosedCoin (trade : ITrade) : Q :=
  fst (closeLoop (closes trade)).

(* ------------------------------------------------------------------ *)
(** ** Strings: the schema setters of [coin] and the symbol split *)

Definition upper_ascii (c : ascii) : ascii :=
  let n := nat_of_ascii c in
  if ((97 <=? n) && (n <=? 122))%nat then ascii_of_nat (n - 32) else c.

Fixpoint toUpperCase (s : string) : string :=
  match s with
  | EmptyString => EmptyString
  | String c r => String (upper_ascii c) (toUpperCase r)
  end.

Definition isSpace (c : ascii) : bool :=
  let n := nat_of_ascii c in
  (n =? 32)%nat || ((9 <=? n) && (n <=? 13))%nat.

Fixpoint trimStart (s : string) : string :=
  match s with
  | EmptyString => EmptyString
  | String c r => if isSpace c then trimStart r else s
  end.

Fixpoint revString (s acc : string) : string :=
  match s with
  | EmptyString => acc
  | String c r => revString r (String c acc)
  end.

Definition trim (s : string) : string :=
  revString (trimStart (revString (trimStart s) "")) "".

(** Setters of the schema path [coin]: [trim: true, uppercase: true]. *)
Definition castCoin (s : string) : string := toUpperCase (trim s).

Definition isEmpty (s : string) : bool :=
  match s with EmptyString => true | _ => false end.

(* ------------------------------------------------------------------ *)
(** ** The collection *)

Record Store := mkStore {
  docs : list ITrade;
  nextId : nat
}.

Definition emptyStore : Store := {| docs := []; nextId := 0 |}.

Definition findOne (p : ITrade -> bool) (db : Store) : option ITrade :=
  find p (docs db).

(** Schema validation run by [save] and [create]: [coin] is required, and
    a required string must not be empty. *)
Definition validate (t : ITrade) : bool := negb (isEmpty (coin t)).

Fixpoint replaceDoc (t : ITrade) (ds : list ITrade) : list ITrade :=
  match ds with
  | [] => []
  | d :: r => if (_id d =? _id t)%nat then t :: r else d :: replaceDoc t r
  end.

Definition touch (now : Date) (t : ITrade) : ITrade :=
  {| _id := _id t; userId := userId t; side := side t; status := status t;
     coin := coin t; comment := comment t;
     stopLossPrice := stopLossPrice t; takeProfitPrice := takeProfitPrice t;
     entries := entries t; closes := closes t; source := source t;
     exchange := exchange t; exchangeAccountId := exchangeAccountId t;
     exchangePositionId := exchangePositionId t;
     exchangeProductType := exchangeProductType t;
     lastSyncedAt := lastSyncedAt t;
     createdAt := createdAt t; updatedAt := now |}.

(** [doc.save()]: validates, stamps [updatedAt], writes the document back
    under its [_id]; [None] is a rejected promise. *)
Definition save (t : ITrade) (now : Date) (db : Store) : option (ITrade * Store) :=
  if validate t then
    let t' := touch now t in
    Some (t', {| docs := replaceDoc t' (docs db); nextId := nextId db |})
  else None.

(** [Trade.create(fields)]: a fresh [_id], both timestamps, appended. *)
Definition create (mk : nat -> Date -> ITrade) (now : Date) (db : Store)
  : option (ITrade * Store) :=
  let t := mk (nextId db) now in
  if validate t then
    Some (t, {| docs := docs db ++ [t]; nextId := S (nextId db) |})
  else None.

Fixpoint removeFirst (p : ITrade -> bool) (ds : list ITrade) : list ITrade * nat :=
  match ds with
  | [] => ([], 0%nat)
  | d :: r =>
      if p d then (r, 1%nat)
      else let '(r', n) := removeFirst p r in (d :: r', n)
  end.

(** [Trade.deleteOne(filter)] with its [deletedCount]. *)
Definition deleteOne (p : ITrade -> bool) (db : Store) : Store * nat :=
  let '(ds, n) := removeFirst p (docs db) in
  ({| docs := ds; nextId := nextId db |}, n).

(** Filter [{ _id: id, userId: req.userId }]. *)
Definition byIdAndUser (id : nat) (uid : string) (d : ITrade) : bool :=
  (_id d =? id)%nat && String.eqb (userId d) uid.

(* ------------------------------------------------------------------ *)
(** ** Replies and the route monad *)

Inductive Reply :=
| Sent (code : nat) (dto : ITrade) (metrics : Aggregates)
| SentOk
| Error (code : nat) (msg : string).

Definition isError (r : Reply) : bool :=
  match r with Error _ _ => true | _ => false end.

(** [toTradeDto] then [reply.code(c).send]. *)
Definition sendTrade (code : nat) (t : ITrade) : Reply :=
  Sent code t (computeTradeAggregates t).

(** A route body works on the document it loaded: it may change the
    in-memory document, or return early with a reply.  Nothing reaches the
    collection until the body has run to its end and [save] is called. *)
Inductive Outcome (A : Type) :=
| Continue (a : A) (doc : ITrade)
| Return (r : Reply).

Arguments Continue {A} a doc.
Arguments Return {A} r.

Definition Route (A : Type) := ITrade -> Outcome A.

Definition ret {A : Type} (a : A) : Route A := fun doc => Continue a doc.

Definition bind {A B : Type} (m : Route A) (k : A -> Route B) : Route B :=
  fun doc =>
    match m doc with
    | Continue a doc' => k a doc'
    | Return r => Return r
    end.

Definition get : Route ITrade := fun doc => Continue doc doc.
Definition assign (f : ITrade -> ITrade) : Route unit := fun doc => Continue tt (f doc).
Definition reject {A : Type} (code : nat) (msg : string) : Route A :=
  fun _ => Return (Error code msg).
Definition when (b : bool) (m : Route unit) : Route unit :=
  if b then m else ret tt.

Notation "x <- m ;; k" := (bind m (fun x => k))
  (at level 61, m at next level, right associativity).
Notation "m ;;; k" := (bind m (fun _ => k))
  (at level 61, right associativity).

(** The frame shared by the routes on [/trades/:id]: authentication, lookup
    by id and owner, the body, then [trade.save()] and the reply. *)
Definition onTrade (uid : option string) (id : nat) (now : Date)
    (body : Route unit) (db : Store) : Reply * Store :=
  match uid with
  | None => (Error 401 "Not authenticated", db)
  | Some u =>
      match findOne (byIdAndUser id u) db with
      | None => (Error 404 "Trade not found", db)
      | Some trade =>
          match body trade with
          | Return r => (r, db)
          | Continue _ trade' =>
              match save trade' now db with
              | None => (Error 500 "Trade validation failed", db)
              | Some (saved, db') => (sendTrade 200 saved, db')
              end
          end
      end
  end.

(* ------------------------------------------------------------------ *)
(** ** Request bodies and their zod schemas *)

Definition positive (q : Q) : bool := (q >? 0)%Q.

Definition optional {A : Type} (check : A -> bool) (o : option A) : bool :=
  match o with Some a => check a | None => true end.

Definition min1 (s : string) : bool := (1 <=? String.length s)%nat.
Definition max1000 (s : string) : bool := (String.length s <=? 1000)%nat.

Module ActiveBody.
Record t := mk {
  coin : string;
  side : TradeSide;
  entryPrice : Q;
  amountInvestedUsd : Q;
  leverage : option Q;
  stopLossPrice : option Q;
  takeProfitPrice : option Q;
  entryDate : option Date;
  comment : option string
}.
End ActiveBody.

Module ClosedBody.
Record t := mk {
  base : ActiveBody.t;
  exitPrice : Q;
  exitDate : option Date
}.
End ClosedBody.

(** In [EditBody] an absent key is [None]; the nullable keys carry
    [Some None] for an explicit [null]. *)
Module EditBody.
Record t := mk {
  comment : option string;
  stopLossPrice : option (option Q);
  takeProfitPrice : option (option Q);
  coin : option string;
  side : option TradeSide;
  entryPrice : option Q;
  amountInvestedUsd : option Q;
  leverage : option (option Q);
  entryDate : option Date;
  exitPrice : option Q;
  exitDate : option Date
}.
End EditBody.

Module AddSizeBody.
Record t := mk {
  entryPrice : Q;
  amountInvestedUsd : Q;
  leverage : option Q;
  entryDate : option Date
}.
End AddSizeBody.

Module SellBody.
Record t := mk {
  closePrice : Q;
  closeDate : option Date;
  amountCoin : option Q;
  amountUsd : option Q;
  percentage : option Q
}.
End SellBody.

Definition createActiveTradeSchema (b : ActiveBody.t) : bool :=
  min1 (ActiveBody.coin b)
  && positive (ActiveBody.entryPrice b)
  && positive (ActiveBody.amountInvestedUsd b)
  && optional positive (ActiveBody.leverage b)
  && optional positive (ActiveBody.stopLossPrice b)
  && optional positive (ActiveBody.takeProfitPrice b)
  && optional max1000 (ActiveBody.comment b).

Definition createClosedTradeSchema (b : ClosedBody.t) : bool :=
  createActiveTradeSchema (ClosedBody.base b)
  && positive (ClosedBody.exitPrice b).

Definition editTradeSchema (b : EditBody.t) : bool :=
  optional max1000 (EditBody.comment b)
  && optional (optional positive) (EditBody.stopLossPrice b)
  && optional (optional positive) (EditBody.takeProfitPrice b)
  && optional min1 (EditBody.coin b)
  && optional positive (EditBody.entryPrice b)
  && optional positive (EditBody.amountInvestedUsd b)
  && optional (optional positive) (EditBody.leverage b)
  && optional positive (EditBody.exitPrice b).

(** [closedTradeEditableKeys.some(key => parsed.data[key] !== undefined)] *)
Definition closedFieldsProvided (b : EditBody.t) : bool :=
  isSome (EditBody.coin b)
  || isSome (EditBody.side b)
  || isSome (EditBody.entryPrice b)
  || isSome (EditBody.amountInvestedUsd b)
  || isSome (EditBody.leverage b)
  || isSome (EditBody.entryDate b)
  || isSome (EditBody.exitPrice b)
  || isSome (EditBody.exitDate b).

Definition addSizeSchema (b : AddSizeBody.t) : bool :=
  positive (AddSizeBody.entryPrice b)
  && positive (AddSizeBody.amountInvestedUsd b)
  && optional positive (AddSizeBody.leverage b).

Definition sellSchemaBase (b : SellBody.t) : bool :=
  positive (SellBody.closePrice b)
  && optional positive (SellBody.amountCoin b)
  && optional positive (SellBody.amountUsd b)
  && optional (fun p => positive p && (p <=? 100)%Q) (SellBody.percentage b).

(** The refinement: exactly one of the three amount keys is present. *)
Definition presentAmounts (b : SellBody.t) : nat :=
  List.length (filter (fun k : option Q => isSome k)
    [SellBody.amountCoin b; SellBody.amountUsd b; SellBody.percentage b]).

Definition sellSchema (b : SellBody.t) : bool :=
  sellSchemaBase b && (presentAmounts b =? 1)%nat.

Definition invalidBody : Reply := Error 400 "Invalid request body".

(* ------------------------------------------------------------------ *)
(** ** Record updates used by the routes *)

Definition setTrade (t : ITrade)
    (side' : TradeSide) (status' : TradeStatus) (coin' : string)
    (comment' : option string) (sl' tp' : option Q)
    (entries' : list ITradeEntry) (closes' : list ITradeClose) : ITrade :=
  {| _id := _id t; userId := userId t; side := side'; status := status';
     coin := coin'; comment := comment';
     stopLossPrice := sl'; takeProfitPrice := tp';
     entries := entries'; closes := closes'; source := source t;
     exchange := exchange t; exchangeAccountId := exchangeAccountId t;
     exchangePositionId := exchangePositionId t;
     exchangeProductType := exchangeProductType t;
     lastSyncedAt := lastSyncedAt t;
     createdAt := createdAt t; updatedAt := updatedAt t |}.

Definition setSide (s : TradeSide) (t : ITrade) : ITrade :=
  setTrade t s (status t) (coin t) (comment t) (stopLossPrice t)
    (takeProfitPrice t) (entries t) (closes t).
Definition setStatus (s : TradeStatus) (t : ITrade) : ITrade :=
  setTrade t (side t) s (coin t) (comment t) (stopLossPrice t)
    (takeProfitPrice t) (entries t) (closes t).
Definition setCoin (c : string) (t : ITrade) : ITrade :=
  setTrade t (side t) (status t) (castCoin c) (comment t) (stopLossPrice t)
    (takeProfitPrice t) (entries t) (closes t).
Definition setComment (c : option string) (t : ITrade) : ITrade :=
  setTrade t (side t) (status t) (coin t) c (stopLossPrice t)
    (takeProfitPrice t) (entries t) (closes t).
Definition setStopLossPrice (p : option Q) (t : ITrade) : ITrade :=
  setTrade t (side t) (status t) (coin t) (comment t) p
    (takeProfitPrice t) (entries t) (closes t).
Definition setTakeProfitPrice (p : option Q) (t : ITrade) : ITrade :=
  setTrade t (side t) (status t) (coin t) (comment t) (stopLossPrice t)
    p (entries t) (closes t).
Definition setEntries (es : list ITradeEntry) (t : ITrade) : ITrade :=
  setTrade t (side t) (status t) (coin t) (comment t) (stopLossPrice t)
    (takeProfitPrice t) es (closes t).
Definition setCloses (cs : list ITradeClose) (t : ITrade) : ITrade :=
  setTrade t (side t) (status t) (coin t) (comment t) (stopLossPrice t)
    (takeProfitPrice t) (entries t) cs.

(** [xs[0] = x] on an array that has a first element. *)
Definition setFirst {A : Type} (x : A) (xs : list A) : list A :=
  match xs with [] => [] | _ :: r => x :: r end.

(* ------------------------------------------------------------------ *)
(** ** The trade routes *)

Definition notAuthenticated : Reply := Error 401 "Not authenticated".
Definition rejectedWrite : Reply := Error 500 "Trade validation failed".

(** The fields a manual [Trade.create] passes; [source] takes the schema
    default and the exchange linkage stays unset. *)
Definition newTrade (uid : string) (side' : TradeSide) (status' : TradeStatus)
    (coin' : string) (comment' : option string) (sl' tp' : option Q)
    (entries' : list ITradeEntry) (closes' : list ITradeClose)
    (id : nat) (now : Date) : ITrade :=
  {| _id := id; userId := uid; side := side'; status := status';
     coin := castCoin coin'; comment := comment';
     stopLossPrice := sl'; takeProfitPrice := tp';
     entries := entries'; closes := closes'; source := Some manual;
     exchange := None; exchangeAccountId := None;
     exchangePositionId := None; exchangeProductType := None;
     lastSyncedAt := None; createdAt := now; updatedAt := now |}.

(** POST /trades/active *)
Definition createActive (uid : option string) (b : ActiveBody.t)
    (now : Date) (db : Store) : Reply * Store :=
  match uid with
  | None => (notAuthenticated, db)
  | Some u =>
      if negb (createActiveTradeSchema b) then (invalidBody, db) else
      let entry :=
        {| entryPrice := ActiveBody.entryPrice b;
           amountInvestedUsd := ActiveBody.amountInvestedUsd b;
           leverage := ActiveBody.leverage b;
           entryDate := ActiveBody.entryDate b ?? now |} in
      match create (newTrade u (ActiveBody.side b) active (ActiveBody.coin b)
                      (ActiveBody.comment b) (ActiveBody.stopLossPrice b)
                      (ActiveBody.takeProfitPrice b) [entry] []) now db with
      | None => (rejectedWrite, db)
      | Some (trade, db') => (sendTrade 201 trade, db')
      end
  end.

(** Signed P&L of closing [coinAmount] at [exit] against [avgEntry]. *)
Definition pnlOf (s : TradeSide) (exit avgEntry coinAmount : Q) : Q :=
  match s with
  | long => (exit - avgEntry) * coinAmount
  | short => (avgEntry - exit) * coinAmount
  end.

(** POST /trades/closed *)
Definition createClosed (uid : option string) (b : ClosedBody.t)
    (now : Date) (db : Store) : Reply * Store :=
  match uid with
  | None => (notAuthenticated, db)
  | Some u =>
      if negb (createClosedTradeSchema b) then (invalidBody, db) else
      let a := ClosedBody.base b in
      let exitPrice := ClosedBody.exitPrice b in
      let exitDate := ClosedBody.exitDate b in
      let side := ActiveBody.side a in
      let entry :=
        {| entryPrice := ActiveBody.entryPrice a;
           amountInvestedUsd := ActiveBody.amountInvestedUsd a;
           leverage := ActiveBody.leverage a;
           entryDate := nullish_opt (ActiveBody.entryDate a) exitDate ?? now |} in
      let tmpTrade :=
        newTrade u side closed (ActiveBody.coin a) (ActiveBody.comment a)
          (ActiveBody.stopLossPrice a) (ActiveBody.takeProfitPrice a)
          [entry] [] (nextId db) (exitDate ?? now) in
      let aggregates := computeTradeAggregates tmpTrade in
      let fullCoin := totalEntryCoin aggregates in
      let closeUsdAmount := fullCoin * exitPrice in
      let marginForTrade := totalInitialMarginUsd aggregates in
      let pnlUsd :=
        pnlOf side exitPrice
          (avgEntryPrice aggregates ?? ActiveBody.entryPrice a) fullCoin in
      let pnlPercent :=
        if marginForTrade >? 0 then pnlUsd / marginForTrade * 100 else 0 in
      let close :=
        {| closePrice := exitPrice;
           closeCoinAmount := fullCoin;
           closeUsdAmount := closeUsdAmount;
           closeDate := exitDate ?? now;
           pnlUsd := pnlUsd;
           pnlPercent := pnlPercent |} in
      match create (newTrade u side closed (ActiveBody.coin a)
                      (ActiveBody.comment a) (ActiveBody.stopLossPrice a)
                      (ActiveBody.takeProfitPrice a) [entry] [close]) now db with
      | None => (rejectedWrite, db)
      | Some (trade, db') => (sendTrade 201 trade, db')
      end
  end.

(** The entry/exit part of PATCH /trades/:id, on a closed trade. *)
Definition editClosedLegs (b : EditBody.t) : Route unit :=
  trade <- get ;;
  if negb ((List.length (entries trade) =? 1)%nat
           && (List.length (closes trade) =? 1)%nat)
  then reject 400 "Editing entry/exit details is only supported for single-entry closed trades"
  else
  match nth_error (entries trade) 0, nth_error (closes trade) 0 with
  | Some entry, Some closeRecord =>
      when (isSome (EditBody.coin b))
        (assign (setCoin (toUpperCase (EditBody.coin b ?? "")))) ;;;
      when (isSome (EditBody.side b))
        (assign (fun t => setSide (EditBody.side b ?? side t) t)) ;;;
      let entry' :=
        {| entryPrice := EditBody.entryPrice b ?? entryPrice entry;
           amountInvestedUsd :=
             EditBody.amountInvestedUsd b ?? amountInvestedUsd entry;
           leverage :=
             match EditBody.leverage b with
             | Some l => l
             | None => leverage entry
             end;
           entryDate := EditBody.entryDate b ?? entryDate entry |} in
      assign (fun t => setEntries (setFirst entry' (entries t)) t) ;;;
      let exitPrice := EditBody.exitPrice b ?? closePrice closeRecord in
      if negb (exitPrice >? 0)
      then reject 400 "Exit price is required for closed trades"
      else
      let exitDate := EditBody.exitDate b ?? closeDate closeRecord in
      tradeSnapshot <- get ;;
      let aggregates := computeTradeAggregates tradeSnapshot in
      let totalEntryCoin := totalEntryCoin aggregates in
      if negb (totalEntryCoin >? 0)
      then reject 400 "Trade must have entry size greater than zero"
      else
      let marginForTrade := totalInitialMarginUsd aggregates in
      let avgEntry := avgEntryPrice aggregates ?? entryPrice entry' in
      let closeUsdAmount := totalEntryCoin * exitPrice in
      let pnlUsd := pnlOf (side tradeSnapshot) exitPrice avgEntry totalEntryCoin in
      let pnlPercent :=
        if marginForTrade >? 0 then pnlUsd / marginForTrade * 100 else 0 in
      let closeRecord' :=
        {| closePrice := exitPrice;
           closeCoinAmount := totalEntryCoin;
           closeUsdAmount := closeUsdAmount;
           closeDate := exitDate;
           pnlUsd := pnlUsd;
           pnlPercent := pnlPercent |} in
      assign (fun t => setCloses (setFirst closeRecord' (closes t)) t)
  | _, _ => reject 400 "Closed trade is missing entry or close information"
  end.

Definition editBody (b : EditBody.t) : Route unit :=
  trade <- get ;;
  if closedFieldsProvided b && negb (TradeStatus_eqb (status trade) closed)
  then reject 400 "Only closed trades can edit entry/exit details"
  else
  when (isSome (EditBody.comment b))
    (assign (setComment (EditBody.comment b))) ;;;
  match EditBody.stopLossPrice b with
  | Some v => assign (setStopLossPrice v)
  | None => ret tt
  end ;;;
  match EditBody.takeProfitPrice b with
  | Some v => assign (setTakeProfitPrice v)
  | None => ret tt
  end ;;;
  trade <- get ;;
  when (TradeStatus_eqb (status trade) closed && closedFieldsProvided b)
    (editClosedLegs b).

(** PATCH /trades/:id *)
Definition editTrade (uid : option string) (id : nat) (b : EditBody.t)
    (now : Date) (db : Store) : Reply * Store :=
  match uid with
  | None => (notAuthenticated, db)
  | Some _ =>
      if negb (editTradeSchema b) then (invalidBody, db)
      else onTrade uid id now (editBody b) db
  end.

Definition addSizeBody (b : AddSizeBody.t) (now : Date) : Route unit :=
  trade <- get ;;
  if negb (TradeStatus_eqb (status trade) active)
  then reject 400 "Cannot add size to closed trade"
  else
  assign (fun t => setEntries
    (entries t ++
      [ {| entryPrice := AddSizeBody.entryPrice b;
           amountInvestedUsd := AddSizeBody.amountInvestedUsd b;
           leverage := AddSizeBody.leverage b;
           entryDate := AddSizeBody.entryDate b ?? now |} ]) t).

(** POST /trades/:id/add-size *)
Definition addSize (uid : option string) (id : nat) (b : AddSizeBody.t)
    (now : Date) (db : Store) : Reply * Store :=
  match uid with
  | None => (notAuthenticated, db)
  | Some _ =>
      if negb (addSizeSchema b) then (invalidBody, db)
      else onTrade uid id now (addSizeBody b now) db
  end.

(** The coin amount a sell body asks for, before clamping. *)
Definition requestedCoin (b : SellBody.t) (openCoin : Q) : Q :=
  match SellBody.amountCoin b, SellBody.amountUsd b, SellBody.percentage b with
  | Some amountCoin, _, _ => amountCoin
  | None, Some amountUsd, _ => amountUsd / SellBody.closePrice b
  | None, None, Some percentage => percentage / 100 * openCoin
  | None, None, None => 0
  end.

Definition sellBody (b : SellBody.t) (now : Date) : Route unit :=
  trade <- get ;;
  if negb (TradeStatus_eqb (status trade) active)
  then reject 400 "Trade already closed"
  else
  let aggregatesBefore := computeTradeAggregates trade in
  if negb (truthy (avgEntryPrice aggregatesBefore))
     || (totalEntryCoin aggregatesBefore <=? 0)
     || (openCoin aggregatesBefore <=? 0)
  then reject 400 "No open position to sell"
  else
  let closePrice := SellBody.closePrice b in
  let openCoin := openCoin aggregatesBefore in
  let closeCoin := requestedCoin b openCoin in
  if negb (closeCoin >? 0)
  then reject 400 "Sell amount must be greater than zero"
  else
  let closeCoin := if closeCoin >? openCoin then openCoin else closeCoin in
  let closeUsdAmount := closeCoin * closePrice in
  let marginForPortion :=
    if (totalInitialMarginUsd aggregatesBefore >? 0)
       && (totalEntryCoin aggregatesBefore >? 0)
    then totalInitialMarginUsd aggregatesBefore
         * (closeCoin / totalEntryCoin aggregatesBefore)
    else 0 in
  let avgEntry := avgEntryPrice aggregatesBefore ?? 0 in
  let pnlUsd := pnlOf (side trade) closePrice avgEntry closeCoin in
  let pnlPercent :=
    if marginForPortion >? 0 then pnlUsd / marginForPortion * 100 else 0 in
  assign (fun t => setCloses
    (closes t ++
      [ {| closePrice := closePrice;
           closeCoinAmount := closeCoin;
           closeUsdAmount := closeUsdAmount;
           closeDate := SellBody.closeDate b ?? now;
           pnlUsd := pnlUsd;
           pnlPercent := pnlPercent |} ]) t) ;;;
  let remainingOpenCoin := openCoin - closeCoin in
  when (remainingOpenCoin <=? eps) (assign (setStatus closed)).

(** POST /trades/:id/sell *)
Definition sell (uid : option string) (id : nat) (b : SellBody.t)
    (now : Date) (db : Store) : Reply * Store :=
  match uid with
  | None => (notAuthenticated, db)
  | Some _ =>
      if negb (sellSchema b) then (invalidBody, db)
      else onTrade uid id now (sellBody b now) db
  end.

(** DELETE /trades/:id *)
Definition deleteTrade (uid : option string) (id : nat) (db : Store)
  : Reply * Store :=
  match uid with
  | None => (notAuthenticated, db)
  | Some u =>
      let '(db', deletedCount) := deleteOne (byIdAndUser id u) db in
      if (deletedCount =? 0)%nat then (Error 404 "Trade not found", db')
      else (SentOk, db')
  end.

(* ------------------------------------------------------------------ *)
(** ** GET /trades/summary *)

Record Summary := mkSummary {
  totalPnlUsd : Q;
  totalPnlPercent : option Q;
  totalInvestedUsd : Q;
  totalTrades : nat;
  winRate : option Q
}.

(** The three accumulators of the loop over the closed trades. *)
Record SummaryTotals := mkSummaryTotals {
  accPnlUsd : Q;
  accInvestedUsd : Q;
  winningTrades : nat
}.

(** One iteration of [for (const t of trades)]. *)
Definition summaryStep (acc : SummaryTotals) (t : ITrade) : SummaryTotals :=
  let m := computeTradeAggregates t in
  {| accPnlUsd := accPnlUsd acc + realizedPnlUsd m;
     accInvestedUsd := accInvestedUsd acc + totalInitialMarginUsd m;
     winningTrades :=
       if realizedPnlUsd m >? 0 then S (winningTrades acc)
       else winningTrades acc |}.

Definition summaryLoop (trades : list ITrade) : SummaryTotals :=
  fold_left summaryStep trades (mkSummaryTotals 0 0 0).

(** A count as a number. *)
Definition ofNat (n : nat) : Q := inject_Z (Z.of_nat n).

Definition summarize (trades : list ITrade) : Summary :=
  let acc := summaryLoop trades in
  let totalPnlUsd := accPnlUsd acc in
  let totalInvestedUsd := accInvestedUsd acc in
  let winningTrades := winningTrades acc in
  let totalPnlPercent :=
    if totalInvestedUsd >? 0 then Some (totalPnlUsd / totalInvestedUsd * 100)
    else None in
  let totalTrades := List.length trades in
  let winRate :=
    if (0 <? totalTrades)%nat
    then Some (ofNat winningTrades / ofNat totalTrades * 100)
    else None in
  {| totalPnlUsd := totalPnlUsd;
     totalPnlPercent := totalPnlPercent;
     totalInvestedUsd := totalInvestedUsd;
     totalTrades := totalTrades;
     winRate := winRate |}.

(** Filter [{ userId: req.userId, status: 'closed' }]. *)
Definition closedOf (uid : string) (d : ITrade) : bool :=
  String.eqb (userId d) uid && TradeStatus_eqb (status d) closed.

Inductive SummaryReply :=
| SummarySent (s : Summary)
| SummaryError (code : nat) (msg : string).

Definition getSummary (uid : option string) (db : Store) : SummaryReply :=
  match uid with
  | None => SummaryError 401 "Not authenticated"
  | Some u => SummarySent (summarize (filter (closedOf u) (docs db)))
  end.

(* ------------------------------------------------------------------ *)
(** ** AsterDexSyncService *)

Inductive PositionSide := BOTH | LONG | SHORT.

Module AsterDexPosition.
Record t := mk {
  id : string;
  market : string;
  symbol : option string;
  asset : option string;
  size : Q;
  entryPrice : Q;
  leverage : option Q;
  notionalUsd : option Q;
  collateralUsd : option Q;
  accountId : option string;
  openedAt : option Date;
  productType : option TradeExchangeProductType;
  markPrice : option Q;
  positionSide : option PositionSide
}.
End AsterDexPosition.

Module PositionTradePayload.
Record t := mk {
  positionId : string;
  coin : string;
  side : TradeSide;
  entry : ITradeEntry;
  exchangeProductType : TradeExchangeProductType;
  accountId : option string
}.
End PositionTradePayload.

Record AsterDexSyncStats := mkStats {
  totalPositions : nat;
  created : nat;
  updated : nat;
  skipped : nat;
  concurrent : bool
}.

Inductive UpsertResult := Created | Updated.

Definition isSeparator (c : ascii) : bool :=
  let n := nat_of_ascii c in
  ((n =? 45) || (n =? 95) || (n =? 47) || (n =? 58))%nat.

(** [s.split(/[-_/:]/)[0]] *)
Fixpoint firstSegment (s : string) : string :=
  match s with
  | EmptyString => EmptyString
  | String c r => if isSeparator c then EmptyString else String c (firstSegment r)
  end.

Definition mapPosition (position : AsterDexPosition.t) (now : Date)
  : option PositionTradePayload.t :=
  let positionId := AsterDexPosition.id position in
  if isEmpty positionId then None else
  if Qeq_bool (AsterDexPosition.size position) 0 then None else
  if negb (AsterDexPosition.entryPrice position >? 0) then None else
  let baseSymbol :=
    AsterDexPosition.asset position
      ?? firstSegment (AsterDexPosition.market position) in
  if isEmpty baseSymbol then None else
  let coin := toUpperCase (trim baseSymbol) in
  if isEmpty coin then None else
  let absoluteSize := Qabs (AsterDexPosition.size position) in
  let notionalUsd :=
    AsterDexPosition.notionalUsd position
      ?? absoluteSize * AsterDexPosition.entryPrice position in
  let derivedLeverage :=
    nullish_opt (AsterDexPosition.leverage position)
      (match AsterDexPosition.collateralUsd position with
       | Some collateralUsd =>
           if truthy (Some collateralUsd) && (collateralUsd >? 0)
           then Some (notionalUsd / collateralUsd) else None
       | None => None
       end) in
  let leverageValue :=
    match derivedLeverage with
    | Some l => if truthy (Some l) && (l >? 1) then l else 1
    | None => 1
    end in
  let exchangeProductType := if leverageValue >? 1 then perpetual else spot in
  let investedUsd :=
    match exchangeProductType with
    | perpetual =>
        AsterDexPosition.collateralUsd position ?? notionalUsd / leverageValue
    | spot => notionalUsd
    end in
  if negb (investedUsd >? 0) then None else
  let entryDate := AsterDexPosition.openedAt position ?? now in
  let entry :=
    {| entryPrice := AsterDexPosition.entryPrice position;
       amountInvestedUsd := investedUsd;
       leverage :=
         Some (match exchangeProductType with
               | perpetual => leverageValue
               | spot => 1
               end);
       entryDate := entryDate |} in
  let side := if AsterDexPosition.size position >? 0 then long else short in
  Some {| PositionTradePayload.positionId := positionId;
          PositionTradePayload.coin := coin;
          PositionTradePayload.side := side;
          PositionTradePayload.entry := entry;
          PositionTradePayload.exchangeProductType := exchangeProductType;
          PositionTradePayload.accountId := AsterDexPosition.accountId position |}.

Definition optString_eqb (a : option string) (b : string) : bool :=
  match a with Some s => String.eqb s b | None => false end.

(** Filter [{ userId, exchange: 'asterdex', exchangePositionId }]. *)
Definition byExchangePosition (uid positionId : string) (d : ITrade) : bool :=
  String.eqb (userId d) uid
  && optString_eqb (exchange d) "asterdex"
  && optString_eqb (exchangePositionId d) positionId.

(** The assignments [upsertTrade] makes to the document it found. *)
Definition overwrite (existing : ITrade) (payload : PositionTradePayload.t)
    (syncedAt : Date) : ITrade :=
  {| _id := _id existing; userId := userId existing;
     side := PositionTradePayload.side payload;
     status := active;
     coin := castCoin (PositionTradePayload.coin payload);
     comment := comment existing;
     stopLossPrice := stopLossPrice existing;
     takeProfitPrice := takeProfitPrice existing;
     entries := [PositionTradePayload.entry payload];
     closes := [];
     source := Some asterdex;
     exchange := Some "asterdex";
     exchangeAccountId := PositionTradePayload.accountId payload;
     exchangePositionId := Some (PositionTradePayload.positionId payload);
     exchangeProductType := Some (PositionTradePayload.exchangeProductType payload);
     lastSyncedAt := Some syncedAt;
     createdAt := createdAt existing; updatedAt := updatedAt existing |}.

(** The document [upsertTrade] creates when none is linked yet. *)
Definition linkedTrade (uid : string) (payload : PositionTradePayload.t)
    (syncedAt : Date) (id : nat) (now : Date) : ITrade :=
  {| _id := id; userId := uid;
     side := PositionTradePayload.side payload;
     status := active;
     coin := castCoin (PositionTradePayload.coin payload);
     comment := None; stopLossPrice := None; takeProfitPrice := None;
     entries := [PositionTradePayload.entry payload];
     closes := [];
     source := Some asterdex;
     exchange := Some "asterdex";
     exchangeAccountId := PositionTradePayload.accountId payload;
     exchangePositionId := Some (PositionTradePayload.positionId payload);
     exchangeProductType := Some (PositionTradePayload.exchangeProductType payload);
     lastSyncedAt := Some syncedAt;
     createdAt := now; updatedAt := now |}.

(** [None] stands for a rejected write, which [upsertTrade] lets through
    to the [catch] of [runSync]. *)
Definition upsertTrade (userObjectId : string)
    (payload : PositionTradePayload.t) (syncedAt : Date) (db : Store)
  : option (UpsertResult * Store) :=
  match findOne (byExchangePosition userObjectId
                   (PositionTradePayload.positionId payload)) db with
  | Some existing =>
      match save (overwrite existing payload syncedAt) syncedAt db with
      | Some (_, db') => Some (Updated, db')
      | None => None
      end
  | None =>
      match create (linkedTrade userObjectId payload syncedAt) syncedAt db with
      | Some (_, db') => Some (Created, db')
      | None => None
      end
  end.

(** The counters of [syncPositions] between two iterations. *)
Record Counters := mkCounters {
  nCreated : nat;
  nUpdated : nat;
  nSkipped : nat
}.

(** One iteration of [for (const position of positions)]; [None] is an
    exception leaving the loop, with the store as the earlier iterations
    left it. *)
Definition syncStep (userObjectId : string) (now : Date)
    (position : AsterDexPosition.t) (c : Counters) (db : Store)
  : option (Counters * Store) :=
  match mapPosition position now with
  | None => Some (mkCounters (nCreated c) (nUpdated c) (S (nSkipped c)), db)
  | Some payload =>
      match upsertTrade userObjectId payload now db with
      | None => None
      | Some (Created, db') =>
          Some (mkCounters (S (nCreated c)) (nUpdated c) (nSkipped c), db')
      | Some (Updated, db') =>
          Some (mkCounters (nCreated c) (S (nUpdated c)) (nSkipped c), db')
      end
  end.

Fixpoint syncLoop (userObjectId : string) (now : Date)
    (positions : list AsterDexPosition.t) (c : Counters) (db : Store)
  : option Counters * Store :=
  match positions with
  | [] => (Some c, db)
  | position :: rest =>
      match syncStep userObjectId now position c db with
      | None => (None, db)
      | Some (c', db') => syncLoop userObjectId now rest c' db'
      end
  end.

Definition statsOf (total : nat) (c : Counters) : AsterDexSyncStats :=
  {| totalPositions := total; created := nCreated c; updated := nUpdated c;
     skipped := nSkipped c; concurrent := false |}.

(** [syncPositions]: the statistics, or [None] when an upsert threw. *)
Definition syncPositions (userObjectId : string) (now : Date)
    (positions : list AsterDexPosition.t) (db : Store)
  : option AsterDexSyncStats * Store :=
  match syncLoop userObjectId now positions (mkCounters 0 0 0) db with
  | (Some c, db') => (Some (statsOf (List.length positions) c), db')
  | (None, db') => (None, db')
  end.

Definition concurrentStats : AsterDexSyncStats :=
  {| totalPositions := 0; created := 0; updated := 0; skipped := 0;
     concurrent := true |}.

Definition failedStats : AsterDexSyncStats :=
  {| totalPositions := 0; created := 0; updated := 0; skipped := 0;
     concurrent := false |}.

(** What [client.fetchOpenPositions()] settles with. *)
Inductive Feed :=
| Fetched (positions : list AsterDexPosition.t)
| FetchFailed.

(** The service instance: its user and the single-flight flag. *)
Record Service := mkService {
  userObjectId : string;
  syncing : bool
}.

(** [runSync] run from its call to its return with no other call in
    between: the statistics, the flag and the store it leaves. *)
Definition runSync (svc : Service) (feed : Feed) (now : Date) (db : Store)
  : AsterDexSyncStats * Service * Store :=
  if syncing svc then (concurrentStats, svc, db)
  else
    let released := mkService (userObjectId svc) false in
    match feed with
    | FetchFailed => (failedStats, released, db)
    | Fetched positions =>
        match syncPositions (userObjectId svc) now positions db with
        | (Some stats, db') => (stats, released, db')
        | (None, db') => (failedStats, released, db')
        end
    end.

(* ------------------------------------------------------------------ *)
(** ** Overlapping calls of [runSync]

    [runSync] is an async method: a call runs until its next [await] and
    other calls (the timer's, or [syncOnce] from the sync route) may run in
    between.  A call is suspended either at the fetch or inside the loop
    of [syncPositions]; every resumption below is one such segment. *)

Inductive Call :=
| Fetching
| Looping (now : Date) (total : nat) (todo : list AsterDexPosition.t) (c : Counters)
| Settled (stats : AsterDexSyncStats).

Record Process := mkProcess {
  service : Service;
  store : Store;
  calls : list Call;
  fetches : nat
}.

Definition bootProcess (uid : string) (db : Store) : Process :=
  {| service := mkService uid false; store := db; calls := []; fetches := 0 |}.

Fixpoint setNth {A : Type} (n : nat) (x : A) (l : list A) : list A :=
  match l, n with
  | [], _ => []
  | _ :: r, O => x :: r
  | a :: r, S n' => a :: setNth n' x r
  end.

Inductive Event :=
| Invoke
| FetchSettles (i : nat) (feed : Feed) (now : Date)
| Resume (i : nat).

Definition withFlag (b : bool) (p : Process) : Service :=
  mkService (userObjectId (service p)) b.

(** A call of [runSync] up to its first [await]. *)
Definition invoke (p : Process) : Process :=
  if syncing (service p) then
    {| service := service p; store := store p;
       calls := calls p ++ [Settled concurrentStats]; fetches := fetches p |}
  else
    {| service := withFlag true p; store := store p;
       calls := calls p ++ [Fetching]; fetches := S (fetches p) |}.

(** The fetch of call [i] settles: on failure [catch] and [finally] run,
    otherwise the call enters [syncPositions]. *)
Definition fetchSettles (i : nat) (feed : Feed) (now : Date) (p : Process)
  : option Process :=
  match nth_error (calls p) i with
  | Some Fetching =>
      match feed with
      | FetchFailed =>
          Some {| service := withFlag false p; store := store p;
                  calls := setNth i (Settled failedStats) (calls p);
                  fetches := fetches p |}
      | Fetched positions =>
          Some {| service := service p; store := store p;
                  calls := setNth i (Looping now (List.length positions) positions
                                       (mkCounters 0 0 0)) (calls p);
                  fetches := fetches p |}
      end
  | _ => None
  end.

(** Call [i] runs one iteration of the loop, or leaves it. *)
Definition resume (i : nat) (p : Process) : option Process :=
  match nth_error (calls p) i with
  | Some (Looping now total [] c) =>
      Some {| service := withFlag false p; store := store p;
              calls := setNth i (Settled (statsOf total c)) (calls p);
              fetches := fetches p |}
  | Some (Looping now total (position :: rest) c) =>
      match syncStep (userObjectId (service p)) now position c (store p) with
      | Some (c', db') =>
          Some {| service := service p; store := db';
                  calls := setNth i (Looping now total rest c') (calls p);
                  fetches := fetches p |}
      | None =>
          Some {| service := withFlag false p; store := store p;
                  calls := setNth i (Settled failedStats) (calls p);
                  fetches := fetches p |}
      end
  | _ => None
  end.

Definition fire (e : Event) (p : Process) : option Process :=
  match e with
  | Invoke => Some (invoke p)
  | FetchSettles i feed now => fetchSettles i feed now p
  | Resume i => resume i p
  end.

Inductive runs (uid : string) (db : Store) : Process -> Prop :=
| runs_boot : runs uid db (bootProcess uid db)
| runs_fire : forall p e p',
    runs uid db p -> fire e p = Some p' -> runs uid db p'.

Definition inFlight (c : Call) : bool :=
  match c with Settled _ => false | _ => true end.

(** Number of calls that are past the guard and have not returned. *)
Definition passes (p : Process) : nat :=
  List.length (filter inFlight (calls p)).

(* ------------------------------------------------------------------ *)
(** ** Operations on the ledger and the stores they reach

    [OpSync] is a whole pass of [runSync]; [OpSyncStep] is one iteration of
    its loop, so that route calls may fall between two iterations. *)

Inductive Op :=
| OpCreateActive (uid : option string) (b : ActiveBody.t) (now : Date)
| OpCreateClosed (uid : option string) (b : ClosedBody.t) (now : Date)
| OpEdit (uid : option string) (id : nat) (b : EditBody.t) (now : Date)
| OpAddSize (uid : option string) (id : nat) (b : AddSizeBody.t) (now : Date)
| OpSell (uid : option string) (id : nat) (b : SellBody.t) (now : Date)
| OpDelete (uid : option string) (id : nat)
| OpSync (uid : string) (feed : Feed) (now : Date)
| OpSyncStep (uid : string) (position : AsterDexPosition.t) (now : Date).

Definition exec (op : Op) (db : Store) : Store :=
  match op with
  | OpCreateActive uid b now => snd (createActive uid b now db)
  | OpCreateClosed uid b now => snd (createClosed uid b now db)
  | OpEdit uid id b now => snd (editTrade uid id b now db)
  | OpAddSize uid id b now => snd (addSize uid id b now db)
  | OpSell uid id b now => snd (sell uid id b now db)
  | OpDelete uid id => snd (deleteTrade uid id db)
  | OpSync uid feed now => snd (runSync (mkService uid false) feed now db)
  | OpSyncStep uid position now =>
      match syncStep uid now position (mkCounters 0 0 0) db with
      | Some (_, db') => db'
      | None => db
      end
  end.

(** The operations a user performs by hand, as opposed to the engine. *)
Definition isManual (op : Op) : bool :=
  match op with
  | OpSync _ _ _ | OpSyncStep _ _ _ => false
  | _ => true
  end.

Inductive reachable : Store -> Prop :=
| reach_empty : reachable emptyStore
| reach_exec : forall op db, reachable db -> reachable (exec op db).

Definition lookup (id : nat) (db : Store) : option ITrade :=
  find (fun d => (_id d =? id)%nat) (docs db).

(* ------------------------------------------------------------------ *)
(** ** The data model's constraints, and the spec's sum *)

(** An entry as the schemas admit it: positive price and margin, and a
    positive leverage when one is given. *)
Definition entryOk (e : ITradeEntry) : Prop :=
  0 < entryPrice e /\ 0 < amountInvestedUsd e
  /\ forall l, leverage e = Some l -> 0 < l.

(** A close as the routes write it: a positive coin amount. *)
Definition closeOk (c : ITradeClose) : Prop := 0 < closeCoinAmount c.

(** The sum of section 8, written from the spec:
    Σ (amountInvestedUsd_i × leverage_i) / entryPrice_i, leverage
    defaulting to 1. *)
Definition specTotalEntryCoin (es : list ITradeEntry) : Q :=
  fold_right
    (fun e s =>
       amountInvestedUsd e
       * (match leverage e with Some l => l | None => 1 end)
       / entryPrice e + s)
    0 es.

(* ------------------------------------------------------------------ *)
(** ** Invariants of the ledger *)

(** The legs of a trade are sound: the entries and closes satisfy the data
    model and the closes do not sell more than was entered. *)
Definition legsOk (t : ITrade) : Prop :=
  Forall entryOk (entries t)
  /\ Forall closeOk (closes t)
  /\ totalClosedCoin t <= totalEntryCoin (computeTradeAggregates t).

Definition tradeOk (t : ITrade) : Prop :=
  validate t = true /\ legsOk t.

(** Number of documents under one key of the partial unique index
    [{ userId, exchange, exchangePositionId }], for the exchange the
    service writes. *)
Definition linkedCount (uid positionId : string) (db : Store) : nat :=
  List.length (filter (byExchangePosition uid positionId) (docs db)).

Definition uniqueIndex (db : Store) : Prop :=
  forall uid positionId, (linkedCount uid positionId db <= 1)%nat.

Definition storeOk (db : Store) : Prop :=
  NoDup (map _id (docs db))
  /\ Forall (fun d => (_id d < nextId db)%nat) (docs db)
  /\ Forall tradeOk (docs db)
  /\ uniqueIndex db.

(** Two documents fall under the same keys of the index. *)
Definition sameKeys (t t' : ITrade) : Prop :=
  forall uid positionId,
    byExchangePosition uid positionId t' = byExchangePosition uid positionId t.

(** Partial correctness of a route body: started on a document satisfying
    [P], the body either returns early or leaves a document satisfying
    [Q]. *)
Definition triple {A : Type} (P : ITrade -> Prop) (m : Route A)
    (Q : A -> ITrade -> Prop) : Prop :=
  forall doc, P doc ->
    match m doc with
    | Continue a doc' => Q a doc'
    | Return _ => True
    end.

(** The fields no route body touches: identity, owner and exchange
    linkage. *)
Definition frame (t doc : ITrade) : Prop :=
  _id doc = _id t /\ userId doc = userId t
  /\ exchange doc = exchange t
  /\ exchangePositionId doc = exchangePositionId t.

(** The coin amount the sell route closes: the request, clamped. *)
Definition soldCoin (b : SellBody.t) (t : ITrade) : Q :=
  let openCoin := openCoin (computeTradeAggregates t) in
  if requestedCoin b openCoin >? openCoin then openCoin
  else requestedCoin b openCoin.

(** A string holds a character that [trim] keeps. *)
Fixpoint hasInk (s : string) : bool :=
  match s with
  | EmptyString => false
  | String c r => negb (isSpace c) || hasInk r
  end.

(** Positions of a feed that [mapPosition] accepts, and those it drops. *)
Definition mapped (now : Date) (positions : list AsterDexPosition.t) : nat :=
  List.length (filter (fun p => isSome (mapPosition p now)) positions).

Definition dropped (now : Date) (positions : list AsterDexPosition.t) : nat :=
  List.length (filter (fun p => negb (isSome (mapPosition p now))) positions).

(** The close record the sell route appends, and the document it leaves,
    once the guards of the route have passed. *)
Definition sellClose (b : SellBody.t) (now : Date) (t : ITrade) : ITradeClose :=
  let a := computeTradeAggregates t in
  let closeCoin := soldCoin b t in
  let marginForPortion :=
    if (totalInitialMarginUsd a >? 0) && (totalEntryCoin a >? 0)
    then totalInitialMarginUsd a * (closeCoin / totalEntryCoin a)
    else 0 in
  let pnlUsd :=
    pnlOf (side t) (SellBody.closePrice b) (avgEntryPrice a ?? 0) closeCoin in
  {| closePrice := SellBody.closePrice b;
     closeCoinAmount := closeCoin;
     closeUsdAmount := closeCoin * SellBody.closePrice b;
     closeDate := SellBody.closeDate b ?? now;
     pnlUsd := pnlUsd;
     pnlPercent :=
       if marginForPortion >? 0 then pnlUsd / marginForPortion * 100 else 0 |}.

Definition afterSell (b : SellBody.t) (now : Date) (t : ITrade) : ITrade :=
  let t1 := setCloses (closes t ++ [sellClose b now t]) t in
  if openCoin (computeTradeAggregates t) - soldCoin b t <=? eps
  then setStatus closed t1 else t1.

(** What the first part of the edit body leaves untouched. *)
Definition keepsLegs (t doc : ITrade) : Prop :=
  frame t doc /\ status doc = status t
  /\ entries doc = entries t /\ closes doc = closes t.

(* ------------------------------------------------------------------ *)
(** ** A worked ledger

    The position of the spec's examples: one entry at price 100 with 1000
    of margin at leverage 5, opened by hand by user [u1]; and an exchange
    position of 2 coins at price 100 with 40 of collateral at leverage 5,
    reported by the feed for the same user. *)

Definition demoActive : ActiveBody.t :=
  {| ActiveBody.coin := "btc"; ActiveBody.side := long;
     ActiveBody.entryPrice := 100; ActiveBody.amountInvestedUsd := 1000;
     ActiveBody.leverage := Some 5;
     ActiveBody.stopLossPrice := None; ActiveBody.takeProfitPrice := None;
     ActiveBody.entryDate := None; ActiveBody.comment := None |}.

Definition demoPosition : AsterDexPosition.t :=
  {| AsterDexPosition.id := "BTCUSDT:BOTH";
     AsterDexPosition.market := "BTCUSDT";
     AsterDexPosition.symbol := Some "BTCUSDT";
     AsterDexPosition.asset := Some "BTCUSDT";
     AsterDexPosition.size := 2;
     AsterDexPosition.entryPrice := 100;
     AsterDexPosition.leverage := Some 5;
     AsterDexPosition.notionalUsd := Some 200;
     AsterDexPosition.collateralUsd := Some 40;
     AsterDexPosition.accountId := None;
     AsterDexPosition.openedAt := None;
     AsterDexPosition.productType := Some perpetual;
     AsterDexPosition.markPrice := None;
     AsterDexPosition.positionSide := Some BOTH |}.

Definition sellPercent (p : Q) (price : Q) : SellBody.t :=
  {| SellBody.closePrice := price; SellBody.closeDate := None;
     SellBody.amountCoin := None; SellBody.amountUsd := None;
     SellBody.percentage := Some p |}.

Definition sellCoins (n : Q) (price : Q) : SellBody.t :=
  {| SellBody.closePrice := price; SellBody.closeDate := None;
     SellBody.amountCoin := Some n; SellBody.amountUsd := None;
     SellBody.percentage := None |}.

(** The hand-opened position alone. *)
Definition demoLedger : Store :=
  exec (OpCreateActive (Some "u1") demoActive 1%Z) emptyStore.

(** The exchange position after a first pass, and after the user then
    sold all of it. *)
Definition demoSynced : Store :=
  exec (OpSync "u1" (Fetched [demoPosition]) 5%Z) emptyStore.

Definition demoSoldOut : Store :=
  exec (OpSell (Some "u1") 0 (sellPercent 100 120) 6%Z) demoSynced.

Definition firstDoc (db : Store) : ITrade :=
  hd (newTrade "" long active "" None None None [] [] 0 0%Z) (docs db).

(** A snapshot the mapping rejects: the demo position with size zero. *)
Definition flatPosition : AsterDexPosition.t :=
  {| AsterDexPosition.id := "ETHUSDT:BOTH";
     AsterDexPosition.market := "ETHUSDT";
     AsterDexPosition.symbol := Some "ETHUSDT";
     AsterDexPosition.asset := Some "ETHUSDT";
     AsterDexPosition.size := 0;
     AsterDexPosition.entryPrice := 100;
     AsterDexPosition.leverage := Some 5;
     AsterDexPosition.notionalUsd := None;
     AsterDexPosition.collateralUsd := None;
     AsterDexPosition.accountId := None;
     AsterDexPosition.openedAt := None;
     AsterDexPosition.productType := Some perpetual;
     AsterDexPosition.markPrice := None;
     AsterDexPosition.positionSide := Some BOTH |}.

(** Call [i] resumed [n] times in a row. *)
Fixpoint resumes (n i : nat) (p : Process) : option Process :=
  match n with
  | O => Some p
  | S n' =>
      match resume i p with
      | Some p' => resumes n' i p'
      | None => None
      end
  end.




(** A nullable metric is defined and equal to [q]. *)
Definition isNumber (o : option Q) (q : Q) : Prop :=
  match o with Some x => x == q | None => False end.

(** The demo position after selling half at 120, then the rest at 90. *)
Definition demoHalfSold : Store :=
  exec (OpSell (Some "u1") 0 (sellPercent 50 120) 2%Z) demoLedger.

Definition demoAllSold : Store :=
  exec (OpSell (Some "u1") 0 (sellCoins 25 90) 3%Z) demoHalfSold.

(* ------------------------------------------------------------------ *)
(** ** Further notions used by the properties of the aggregation *)


(** Sum of a list of numbers. *)
Definition sumQ (l : list Q) : Q := fold_right Qplus 0 l.

(** The user a route call is made for; the engine's operations have
    none. *)
Definition actor (op : Op) : option string :=
  match op with
  | OpCreateActive uid _ _ | OpCreateClosed uid _ _ | OpEdit uid _ _ _
  | OpAddSize uid _ _ _ | OpSell uid _ _ _ | OpDelete uid _ => uid
  | OpSync _ _ _ | OpSyncStep _ _ _ => None
  end.

(** The reply of a route call. *)
Definition replyOf (op : Op) (db : Store) : option Reply :=
  match op with
  | OpCreateActive uid b now => Some (fst (createActive uid b now db))
  | OpCreateClosed uid b now => Some (fst (createClosed uid b now db))
  | OpEdit uid id b now => Some (fst (editTrade uid id b now db))
  | OpAddSize uid id b now => Some (fst (addSize uid id b now db))
  | OpSell uid id b now => Some (fst (sell uid id b now db))
  | OpDelete uid id => Some (fst (deleteTrade uid id db))
  | OpSync _ _ _ | OpSyncStep _ _ _ => None
  end.

(** A close whose USD amount is its coin amount at its price. *)
Definition closePriced (c : ITradeClose) : Prop :=
  closeUsdAmount c == closeCoinAmount c * closePrice c.

(** The shape of a stored position: at least one entry, closes that are
    priced, and, once closed, at least one close and no more than the
    tolerance left open. *)
Definition shapeOk (t : ITrade) : Prop :=
  entries t <> []
  /\ Forall closePriced (closes t)
  /\ (status t = closed ->
      closes t <> [] /\ openCoin (computeTradeAggregates t) <= eps).

(** A document the service of user [uid] never looks up: it is not one of
    that user's exchange-linked positions. *)
Definition unlinkedFor (uid : string) (d : ITrade) : Prop :=
  forall pid, byExchangePosition uid pid d = false.

(* ------------------------------------------------------------------ *)
(** ** AsterDexClient: the request window and the nonce

    Of the exchange client the two pieces of pure arithmetic are
    modelled: the clamp of the configured [recvWindowMs] in the
    constructor, and [generateNonce]. The nonce is a [bigint], here [Z];
    the division of two bigints truncates, which is [Z.quot]. The two
    clocks are arguments: [dateNow] for [Date.now()] and [hrtime] for
    [process.hrtime.bigint()]. *)

Module AsterDexClient.

Definition DEFAULT_RECV_WINDOW_MS : Q := 5000.

Record t := mk {
  recvWindow : Q;
  nonceOriginMicros : Z;
  nonceOriginHrTime : Z;
  lastNonce : option Z
}.

Definition new (recvWindowMs : option Q) (dateNow hrtime : Z) : t :=
  {| recvWindow :=
       Qmin (Qmax (recvWindowMs ?? DEFAULT_RECV_WINDOW_MS) 1) 60000;
     nonceOriginHrTime := hrtime;
     nonceOriginMicros := (dateNow * 1000)%Z;
     lastNonce := None |}.

Definition generateNonce (hrtime : Z) (c : t) : Z * t :=
  let elapsedNs := (hrtime - nonceOriginHrTime c)%Z in
  let base := (nonceOriginMicros c + Z.quot elapsedNs 1000)%Z in
  let last := lastNonce c ?? 0%Z in
  let next := if (base <=? last)%Z then (last + 1)%Z else base in
  (next,
   {| recvWindow := recvWindow c;
      nonceOriginMicros := nonceOriginMicros c;
      nonceOriginHrTime := nonceOriginHrTime c;
      lastNonce := Some next |}).

(** The nonces of successive calls, one per reading of the clock. *)
Fixpoint nonces (readings : list Z) (c : t) : list Z :=
  match readings with
  | [] => []
  | hrtime :: rest =>
      let (n, c') := generateNonce hrtime c in n :: nonces rest c'
  end.

End AsterDexClient.

(* ------------------------------------------------------------------ *)
(** ** The ledger arithmetic in double precision

    A JavaScript [number] is an IEEE-754 binary64 value.  In this module
    [computeTradeAggregates] and the routes that do arithmetic on the
    legs of one position (open, add size, sell) are embedded over Rocq's
    primitive floats, whose operations are the binary64 operations with
    rounding to nearest, ties to even, specified by [SpecFloat].  A
    literal is read as JavaScript reads it: the nearest double.

    The document is the part of [ITrade] this arithmetic reads and
    writes: side, status, entries and closes.  A route is given the
    document that [findOne] found and returns the document it hands to
    [save], or the reply it returned early with. *)

Module F64.

Local Open Scope float_scope.

(** [Math.max(a, b)]: NaN when either is NaN, and [+0] above [-0]. *)
Definition Math_max (a b : float) : float :=
  if is_nan a || is_nan b then nan
  else if a <? b then b
  else if b <? a then a
  else if get_sign a then b else a.

(** Truthiness of a nullable number: [null], [0], [-0] and [NaN] are
    falsy. *)
Definition truthy (o : option float) : bool :=
  match o with
  | Some x => negb (is_zero x || is_nan x)
  | None => false
  end.

Definition eps : float := 1e-8.

Record ITradeEntry := mkEntry {
  entryPrice : float;
  amountInvestedUsd : float;
  leverage : option float;
  entryDate : Date
}.

Record ITradeClose := mkClose {
  closePrice : float;
  closeCoinAmount : float;
  closeUsdAmount : float;
  closeDate : Date;
  pnlUsd : float;
  pnlPercent : float
}.

Record ITrade := mkTrade {
  side : TradeSide;
  status : TradeStatus;
  entries : list ITradeEntry;
  closes : list ITradeClose
}.

Record EntryTotals := mkTotals {
  accMarginUsd : float;
  accEntryCoin : float;
  accNotionalUsd : float
}.

(** One iteration of [for (const e of entries)]. *)
Definition entryStep (acc : EntryTotals) (e : ITradeEntry) : EntryTotals :=
  let leverage := leverage e ?? 1 in
  let margin := amountInvestedUsd e in
  let notional := margin * leverage in
  let coin := notional / entryPrice e in
  {| accMarginUsd := accMarginUsd acc + margin;
     accEntryCoin := accEntryCoin acc + coin;
     accNotionalUsd := accNotionalUsd acc + notional |}.

Definition entryLoop (es : list ITradeEntry) : EntryTotals :=
  fold_left entryStep es (mkTotals 0 0 0).

(** One iteration of [for (const c of closes)]. *)
Definition closeStep (acc : float * float) (c : ITradeClose) : float * float :=
  (fst acc + closeCoinAmount c, snd acc + pnlUsd c).

Definition closeLoop (cs : list ITradeClose) : float * float :=
  fold_left closeStep cs (0, 0).

Record Aggregates := mkAggregates {
  totalInitialMarginUsd : float;
  totalEntryCoin : float;
  openCoin : float;
  avgEntryPrice : option float;
  effectiveLeverage : option float;
  openNotionalUsd : option float;
  openMarginUsd : option float;
  debtUsd : option float;
  realizedPnlUsd : float;
  realizedPnlPercent : option float;
  liquidationPrice : option float
}.

Definition computeTradeAggregates (trade : ITrade) : Aggregates :=
  let t := entryLoop (entries trade) in
  let totalInitialMarginUsd := accMarginUsd t in
  let totalEntryCoin := accEntryCoin t in
  let totalEntryNotionalUsd := accNotionalUsd t in
  let totalClosedCoin := fst (closeLoop (closes trade)) in
  let realizedPnlUsd := snd (closeLoop (closes trade)) in
  let openCoin := Math_max (totalEntryCoin - totalClosedCoin) 0 in
  let avgEntryPrice :=
    if 0 <? totalEntryCoin then Some (totalEntryNotionalUsd / totalEntryCoin)
    else None in
  let effectiveLeverage :=
    if 0 <? totalInitialMarginUsd
    then Some (totalEntryNotionalUsd / totalInitialMarginUsd)
    else None in
  let openNotionalUsd :=
    match avgEntryPrice with
    | Some avg => if 0 <? openCoin then Some (openCoin * avg) else None
    | None => None
    end in
  let openMarginUsd :=
    match openNotionalUsd, effectiveLeverage with
    | Some n, Some l =>
        if truthy (Some l) && (0 <? l) then Some (n / l) else None
    | _, _ => None
    end in
  let debtUsd :=
    match openNotionalUsd, openMarginUsd with
    | Some n, Some m => Some (n - m)
    | _, _ => None
    end in
  let realizedPnlPercent :=
    if 0 <? totalInitialMarginUsd
    then Some (realizedPnlUsd / totalInitialMarginUsd * 100)
    else None in
  let liquidationPrice :=
    match effectiveLeverage, avgEntryPrice with
    | Some l, Some avg =>
        if truthy (Some l) && (1 <? l) then
          match side trade with
          | long => Some (avg * (1 - 1 / l))
          | short => Some (avg * (1 + 1 / l))
          end
        else None
    | _, _ => None
    end in
  {| totalInitialMarginUsd := totalInitialMarginUsd;
     totalEntryCoin := totalEntryCoin;
     openCoin := openCoin;
     avgEntryPrice := avgEntryPrice;
     effectiveLeverage := effectiveLeverage;
     openNotionalUsd := openNotionalUsd;
     openMarginUsd := openMarginUsd;
     debtUsd := debtUsd;
     realizedPnlUsd := realizedPnlUsd;
     realizedPnlPercent := realizedPnlPercent;
     liquidationPrice := liquidationPrice |}.

(** Sum of the stored close amounts of a trade, as the close loop adds
    them. *)
Definition totalClosedCoin (trade : ITrade) : float :=
  fst (closeLoop (closes trade)).

(** [z.number().positive()]: a number above zero; NaN fails the test. *)
Definition positive (x : float) : bool := 0 <? x.

Inductive Result :=
| Saved (trade : ITrade)
| Rejected (code : nat) (msg : string).

(** The numeric keys of the body of POST /trades/active. *)
Module ActiveBody.
Record t := mk {
  side : TradeSide;
  entryPrice : float;
  amountInvestedUsd : float;
  leverage : option float;
  stopLossPrice : option float;
  takeProfitPrice : option float;
  entryDate : option Date
}.
End ActiveBody.

Definition createActiveTradeSchema (b : ActiveBody.t) : bool :=
  positive (ActiveBody.entryPrice b)
  && positive (ActiveBody.amountInvestedUsd b)
  && optional positive (ActiveBody.leverage b)
  && optional positive (ActiveBody.stopLossPrice b)
  && optional positive (ActiveBody.takeProfitPrice b).

(** POST /trades/active: the legs of the document it creates. *)
Definition createActive (b : ActiveBody.t) (now : Date) : Result :=
  if negb (createActiveTradeSchema b) then Rejected 400 "Invalid request body" else
  Saved {| side := ActiveBody.side b;
           status := active;
           entries :=
             [ {| entryPrice := ActiveBody.entryPrice b;
                  amountInvestedUsd := ActiveBody.amountInvestedUsd b;
                  leverage := ActiveBody.leverage b;
                  entryDate := ActiveBody.entryDate b ?? now |} ];
           closes := [] |}.

Module AddSizeBody.
Record t := mk {
  entryPrice : float;
  amountInvestedUsd : float;
  leverage : option float;
  entryDate : option Date
}.
End AddSizeBody.

Definition addSizeSchema (b : AddSizeBody.t) : bool :=
  positive (AddSizeBody.entryPrice b)
  && positive (AddSizeBody.amountInvestedUsd b)
  && optional positive (AddSizeBody.leverage b).

(** POST /trades/:id/add-size *)
Definition addSize (b : AddSizeBody.t) (now : Date) (trade : ITrade) : Result :=
  if negb (addSizeSchema b) then Rejected 400 "Invalid request body" else
  if negb (TradeStatus_eqb (status trade) active)
  then Rejected 400 "Cannot add size to closed trade" else
  Saved {| side := side trade;
           status := status trade;
           entries :=
             (entries trade ++
               [ {| entryPrice := AddSizeBody.entryPrice b;
                    amountInvestedUsd := AddSizeBody.amountInvestedUsd b;
                    leverage := AddSizeBody.leverage b;
                    entryDate := AddSizeBody.entryDate b ?? now |} ])%list;
           closes := closes trade |}.

Module SellBody.
Record t := mk {
  closePrice : float;
  closeDate : option Date;
  amountCoin : option float;
  amountUsd : option float;
  percentage : option float
}.
End SellBody.

Definition sellSchemaBase (b : SellBody.t) : bool :=
  positive (SellBody.closePrice b)
  && optional positive (SellBody.amountCoin b)
  && optional positive (SellBody.amountUsd b)
  && optional (fun p => positive p && (p <=? 100)) (SellBody.percentage b).

Definition presentAmounts (b : SellBody.t) : nat :=
  List.length (filter (fun k : option float => isSome k)
    [SellBody.amountCoin b; SellBody.amountUsd b; SellBody.percentage b]).

Definition sellSchema (b : SellBody.t) : bool :=
  sellSchemaBase b && (presentAmounts b =? 1)%nat.

(** Signed P&L of closing [coinAmount] at [exit] against [avgEntry]. *)
Definition pnlOf (s : TradeSide) (exit avgEntry coinAmount : float) : float :=
  match s with
  | long => (exit - avgEntry) * coinAmount
  | short => (avgEntry - exit) * coinAmount
  end.

(** The coin amount a sell body asks for, before clamping. *)
Definition requestedCoin (b : SellBody.t) (openCoin : float) : float :=
  match SellBody.amountCoin b, SellBody.amountUsd b, SellBody.percentage b with
  | Some amountCoin, _, _ => amountCoin
  | None, Some amountUsd, _ => amountUsd / SellBody.closePrice b
  | None, None, Some percentage => percentage / 100 * openCoin
  | None, None, None => 0
  end.

(** POST /trades/:id/sell *)
Definition sell (b : SellBody.t) (now : Date) (trade : ITrade) : Result :=
  if negb (sellSchema b) then Rejected 400 "Invalid request body" else
  if negb (TradeStatus_eqb (status trade) active)
  then Rejected 400 "Trade already closed" else
  let aggregatesBefore := computeTradeAggregates trade in
  if negb (truthy (avgEntryPrice aggregatesBefore))
     || (totalEntryCoin aggregatesBefore <=? 0)
     || (openCoin aggregatesBefore <=? 0)
  then Rejected 400 "No open position to sell" else
  let closePrice := SellBody.closePrice b in
  let openCoin := openCoin aggregatesBefore in
  let closeCoin := requestedCoin b openCoin in
  if negb (0 <? closeCoin)
  then Rejected 400 "Sell amount must be greater than zero" else
  let closeCoin := if openCoin <? closeCoin then openCoin else closeCoin in
  let closeUsdAmount := closeCoin * closePrice in
  let marginForPortion :=
    if (0 <? totalInitialMarginUsd aggregatesBefore)
       && (0 <? totalEntryCoin aggregatesBefore)
    then totalInitialMarginUsd aggregatesBefore
         * (closeCoin / totalEntryCoin aggregatesBefore)
    else 0 in
  let avgEntry := avgEntryPrice aggregatesBefore ?? 0 in
  let pnlUsd := pnlOf (side trade) closePrice avgEntry closeCoin in
  let pnlPercent :=
    if 0 <? marginForPortion then pnlUsd / marginForPortion * 100 else 0 in
  let close :=
    {| closePrice := closePrice;
       closeCoinAmount := closeCoin;
       closeUsdAmount := closeUsdAmount;
       closeDate := SellBody.closeDate b ?? now;
       pnlUsd := pnlUsd;
       pnlPercent := pnlPercent |} in
  let remainingOpenCoin := openCoin - closeCoin in
  Saved {| side := side trade;
           status := if remainingOpenCoin <=? eps then closed else status trade;
           entries := entries trade;
           closes := (closes trade ++ [close])%list |}.

(** The coin amount the sell route closes: the request, clamped. *)
Definition soldCoin (b : SellBody.t) (t : ITrade) : float :=
  let openCoin := openCoin (computeTradeAggregates t) in
  if openCoin <? requestedCoin b openCoin then openCoin
  else requestedCoin b openCoin.

(** The close record the sell route appends once its guards have passed. *)
Definition sellClose (b : SellBody.t) (now : Date) (t : ITrade) : ITradeClose :=
  let a := computeTradeAggregates t in
  let closeCoin := soldCoin b t in
  let marginForPortion :=
    if (0 <? totalInitialMarginUsd a) && (0 <? totalEntryCoin a)
    then totalInitialMarginUsd a * (closeCoin / totalEntryCoin a)
    else 0 in
  let pnlUsd :=
    pnlOf (side t) (SellBody.closePrice b) (avgEntryPrice a ?? 0) closeCoin in
  {| closePrice := SellBody.closePrice b;
     closeCoinAmount := closeCoin;
     closeUsdAmount := closeCoin * SellBody.closePrice b;
     closeDate := SellBody.closeDate b ?? now;
     pnlUsd := pnlUsd;
     pnlPercent :=
       if 0 <? marginForPortion then pnlUsd / marginForPortion * 100 else 0 |}.

(** The sum of the entries' coin amounts, each term and each partial sum
    rounded, in list order. *)
Definition sumEntryCoin (es : list ITradeEntry) : float :=
  fold_left
    (fun acc e => acc + amountInvestedUsd e * (leverage e ?? 1) / entryPrice e)
    es 0.

(** The exact value of a finite double. *)
Definition toQ (x : float) : option Q :=
  match Prim2SF x with
  | S754_zero _ => Some 0%Q
  | S754_finite s m e =>
      Some (inject_Z (if s then Z.neg m else Z.pos m) * Qpower 2 e)%Q
  | _ => None
  end.

(** Documents and bodies of the examples. *)
Definition opened (s : TradeSide) (price margin : float)
    (lev : option float) : ITrade :=
  mkTrade s active [mkEntry price margin lev 0%Z] [].

Definition withEntries (es : list ITradeEntry) : ITrade :=
  {| side := long; status := active; entries := es; closes := [] |}.

Definition sellPercent (p price : float) : SellBody.t :=
  SellBody.mk price None None None (Some p).

Definition sellCoins (n price : float) : SellBody.t :=
  SellBody.mk price None (Some n) None None.

Definition sellUsd (n price : float) : SellBody.t :=
  SellBody.mk price None None (Some n) None.

End F64.

(* ------------------------------------------------------------------ *)
(** ** The reconciliation over a store that can fail

    [Trade.findOne], [doc.save] and [Trade.create] return promises, and
    a promise of the driver rejects when the database cannot serve the
    call.  [upsertTrade] awaits them without a [try] and so does the
    loop of [syncPositions]: a rejection leaves the loop and reaches the
    [catch] of [runSync].  In this module the store comes with the
    pass: [up i] tells whether it serves the calls made for the position
    at index [i] of the feed.  Whichever call of an upsert is rejected,
    nothing is written for that position. *)

Module Unreliable.

Definition upsertTrade (served : bool) (userObjectId : string)
    (payload : PositionTradePayload.t) (syncedAt : Date) (db : Store)
  : option (UpsertResult * Store) :=
  if served then upsertTrade userObjectId payload syncedAt db else None.

Definition syncStep (served : bool) (userObjectId : string) (now : Date)
    (position : AsterDexPosition.t) (c : Counters) (db : Store)
  : option (Counters * Store) :=
  match mapPosition position now with
  | None => Some (mkCounters (nCreated c) (nUpdated c) (S (nSkipped c)), db)
  | Some payload =>
      match upsertTrade served userObjectId payload now db with
      | None => None
      | Some (Created, db') =>
          Some (mkCounters (S (nCreated c)) (nUpdated c) (nSkipped c), db')
      | Some (Updated, db') =>
          Some (mkCounters (nCreated c) (S (nUpdated c)) (nSkipped c), db')
      end
  end.

Fixpoint syncLoop (up : nat -> bool) (i : nat) (userObjectId : string)
    (now : Date) (positions : list AsterDexPosition.t) (c : Counters)
    (db : Store) : option Counters * Store :=
  match positions with
  | [] => (Some c, db)
  | position :: rest =>
      match syncStep (up i) userObjectId now position c db with
      | None => (None, db)
      | Some (c', db') => syncLoop up (S i) userObjectId now rest c' db'
      end
  end.

Definition syncPositions (up : nat -> bool) (userObjectId : string)
    (now : Date) (positions : list AsterDexPosition.t) (db : Store)
  : option AsterDexSyncStats * Store :=
  match syncLoop up 0 userObjectId now positions (mkCounters 0 0 0) db with
  | (Some c, db') => (Some (statsOf (List.length positions) c), db')
  | (None, db') => (None, db')
  end.

Definition runSync (up : nat -> bool) (svc : Service) (feed : Feed)
    (now : Date) (db : Store) : AsterDexSyncStats * Service * Store :=
  if syncing svc then (concurrentStats, svc, db)
  else
    let released := mkService (userObjectId svc) false in
    match feed with
    | FetchFailed => (failedStats, released, db)
    | Fetched positions =>
        match syncPositions up (userObjectId svc) now positions db with
        | (Some stats, db') => (stats, released, db')
        | (None, db') => (failedStats, released, db')
        end
    end.

End Unreliable.

(** Two more exchange positions of the same user, and a store that
    rejects the calls made for the second position of a feed and serves
    all others. *)
Definition secondPosition : AsterDexPosition.t :=
  {| AsterDexPosition.id := "ETHUSDT:BOTH";
     AsterDexPosition.market := "ETHUSDT";
     AsterDexPosition.symbol := Some "ETHUSDT";
     AsterDexPosition.asset := Some "ETHUSDT";
     AsterDexPosition.size := 3;
     AsterDexPosition.entryPrice := 50;
     AsterDexPosition.leverage := None;
     AsterDexPosition.notionalUsd := None;
     AsterDexPosition.collateralUsd := None;
     AsterDexPosition.accountId := None;
     AsterDexPosition.openedAt := None;
     AsterDexPosition.productType := Some perpetual;
     AsterDexPosition.markPrice := None;
     AsterDexPosition.positionSide := Some BOTH |}.

Definition thirdPosition : AsterDexPosition.t :=
  {| AsterDexPosition.id := "SOLUSDT:BOTH";
     AsterDexPosition.market := "SOLUSDT";
     AsterDexPosition.symbol := Some "SOLUSDT";
     AsterDexPosition.asset := Some "SOLUSDT";
     AsterDexPosition.size := -(4);
     AsterDexPosition.entryPrice := 20;
     AsterDexPosition.leverage := Some 2;
     AsterDexPosition.notionalUsd := None;
     AsterDexPosition.collateralUsd := None;
     AsterDexPosition.accountId := None;
     AsterDexPosition.openedAt := None;
     AsterDexPosition.productType := Some perpetual;
     AsterDexPosition.markPrice := None;
     AsterDexPosition.positionSide := Some BOTH |}.

Definition downForSecond (i : nat) : bool := negb (i =? 1)%nat.

(* ------------------------------------------------------------------ *)
(** ** Plain strings

    The schema setters of [coin] are [String.prototype.trim] and
    [toUpperCase]; [trim] and [toUpperCase] above are these on the
    characters below 128. *)

Fixpoint isAscii (s : string) : bool :=
  match s with
  | EmptyString => true
  | String c r => (nat_of_ascii c <? 128)%nat && isAscii r
  end.

(* ------------------------------------------------------------------ *)
(** * Properties *)

(** ** Comparisons *)

(** Splits a schema check [a && b && ... = true] into its conjuncts. *)
Ltac unpack H :=
  repeat (apply andb_prop in H; destruct H as [H ?]).

Lemma Qlt_bool_iff (x y : Q) : (x <? y) = true <-> x < y.
Proof.
  unfold Qlt_bool. rewrite negb_true_iff.
  split; intro H.
  - apply Qnot_le_lt. intro L. apply Qle_bool_iff in L. congruence.
  - destruct (Qle_bool y x) eqn:E; [|reflexivity].
    apply Qle_bool_iff in E. exfalso. exact (Qlt_not_le _ _ H E).
Qed.

Lemma Qlt_bool_false (x y : Q) : (x <? y) = false <-> y <= x.
Proof.
  unfold Qlt_bool. rewrite negb_false_iff. apply Qle_bool_iff.
Qed.

Lemma Qle_bool_false (x y : Q) : (x <=? y) = false <-> y < x.
Proof.
  rewrite <- Qlt_bool_iff. unfold Qlt_bool.
  destruct (x <=? y); simpl; split; congruence.
Qed.

Lemma positive_iff (q : Q) : positive q = true <-> 0 < q.
Proof. apply Qlt_bool_iff. Qed.

Lemma truthy_Some (q : Q) : truthy (Some q) = true <-> ~ q == 0.
Proof.
  simpl. rewrite negb_true_iff. split; intro H.
  - intro E. apply Qeq_bool_iff in E. congruence.
  - destruct (Qeq_bool q 0) eqn:E; [|reflexivity].
    apply Qeq_bool_iff in E. contradiction.
Qed.


Lemma Qmax_pos_l (x : Q) : 0 < Qmax x 0 -> Qmax x 0 == x.
Proof.
  intro H. destruct (Q.max_spec x 0) as [[_ E] | [_ E]]; [|exact E].
  rewrite E in H. exfalso. exact (Qlt_irrefl _ H).
Qed.

(** ** The two loops of the aggregation *)

Lemma entryLoop_from (es : list ITradeEntry) (acc : EntryTotals) :
  accEntryCoin (fold_left entryStep es acc)
  == accEntryCoin acc + specTotalEntryCoin es.
Proof.
  revert acc. induction es as [|e es IH]; intro acc; simpl.
  - ring.
  - rewrite IH. unfold entryStep, nullish; simpl. ring.
Qed.

Lemma entryLoop_coin (es : list ITradeEntry) :
  accEntryCoin (entryLoop es) == specTotalEntryCoin es.
Proof. unfold entryLoop. rewrite entryLoop_from. simpl. ring. Qed.

Lemma specTotalEntryCoin_app (es fs : list ITradeEntry) :
  specTotalEntryCoin (es ++ fs)
  == specTotalEntryCoin es + specTotalEntryCoin fs.
Proof.
  induction es as [|e es IH]; simpl.
  - ring.
  - rewrite IH. ring.
Qed.

Lemma entryCoin_pos (e : ITradeEntry) : entryOk e -> 0 < entryCoin e.
Proof.
  intros (Hp & Hm & Hl). unfold entryCoin, entryNotional, nullish.
  assert (0 < match leverage e with Some a => a | None => 1 end) as L.
  { destruct (leverage e) as [l|]; [apply Hl; reflexivity | reflexivity]. }
  apply Qlt_shift_div_l; [exact Hp|].
  setoid_replace (0 * entryPrice e) with 0 by ring.
  apply Qmult_lt_0_compat; assumption.
Qed.

Lemma specTotalEntryCoin_nonneg (es : list ITradeEntry) :
  Forall entryOk es -> 0 <= specTotalEntryCoin es.
Proof.
  induction 1 as [|e es He _ IH]; simpl.
  - apply Qle_refl.
  - pose proof (entryCoin_pos e He) as P.
    unfold entryCoin, entryNotional, nullish in P. lra.
Qed.

Lemma specTotalEntryCoin_pos (e : ITradeEntry) (es : list ITradeEntry) :
  Forall entryOk (e :: es) -> 0 < specTotalEntryCoin (e :: es).
Proof.
  intro H. inversion H as [|? ? He Hes]; subst. simpl.
  pose proof (entryCoin_pos e He) as P.
  pose proof (specTotalEntryCoin_nonneg es Hes) as N.
  unfold entryCoin, entryNotional, nullish in P. lra.
Qed.

Lemma closeLoop_from (cs : list ITradeClose) (acc : Q * Q) :
  fst (fold_left closeStep cs acc)
  == fst acc + fst (fold_left closeStep cs (0, 0)).
Proof.
  revert acc. induction cs as [|c cs IH]; intro acc; simpl.
  - ring.
  - rewrite IH. rewrite (IH (closeStep (0, 0) c)). simpl. ring.
Qed.

Lemma closedCoin_cons (c : ITradeClose) (cs : list ITradeClose) :
  fst (closeLoop (c :: cs)) == closeCoinAmount c + fst (closeLoop cs).
Proof.
  unfold closeLoop. simpl. rewrite closeLoop_from. simpl. ring.
Qed.

Lemma closedCoin_app (cs ds : list ITradeClose) :
  fst (closeLoop (cs ++ ds)) == fst (closeLoop cs) + fst (closeLoop ds).
Proof.
  induction cs as [|c cs IH].
  - change (fst (closeLoop [])) with 0. simpl. ring.
  - rewrite <- app_comm_cons.
    rewrite !closedCoin_cons, IH. ring.
Qed.

Lemma closedCoin_nonneg (cs : list ITradeClose) :
  Forall closeOk cs -> 0 <= fst (closeLoop cs).
Proof.
  induction 1 as [|c cs Hc _ IH].
  - apply Qle_refl.
  - rewrite closedCoin_cons. unfold closeOk in Hc. lra.
Qed.

(** ** Open coin *)

Lemma openCoin_eq (trade : ITrade) :
  openCoin (computeTradeAggregates trade)
  = Qmax (totalEntryCoin (computeTradeAggregates trade) - totalClosedCoin trade) 0.
Proof. reflexivity. Qed.



(** ** The worked examples of the ledger *)

(** Entry at price 100 with 1000 invested at leverage 5: 50 coins, average
    entry 100, effective leverage 5, liquidation (long) at 80. *)
Example demo_entry_metrics :
  let m := computeTradeAggregates (firstDoc demoLedger) in
  totalEntryCoin m == 50
  /\ isNumber (avgEntryPrice m) 100
  /\ isNumber (effectiveLeverage m) 5
  /\ isNumber (liquidationPrice m) 80.
Proof. vm_compute. repeat split. Qed.

(** Selling 50 percent at 120 closes 25 coins for a P&L of 500, which is
    100 percent of the portion's margin; 25 coins stay open and the
    position stays active. *)
Example demo_half_sold :
  let t := firstDoc demoHalfSold in
  status t = active
  /\ openCoin (computeTradeAggregates t) == 25
  /\ Forall2 (fun c q => closeCoinAmount c == fst q /\ pnlUsd c == fst (snd q)
                         /\ pnlPercent c == snd (snd q))
       (closes t) [(25, (500, 100))].
Proof. vm_compute. repeat constructor. Qed.

(** Selling the remaining 25 at 90 closes the position with a realised
    P&L of 250 in total. *)
Example demo_all_sold :
  let t := firstDoc demoAllSold in
  status t = closed
  /\ openCoin (computeTradeAggregates t) == 0
  /\ realizedPnlUsd (computeTradeAggregates t) == 250.
Proof. vm_compute. repeat split. Qed.

(** ** Rules for route bodies *)

Section Triples.
Context {A B : Type}.

Lemma triple_ret (P : ITrade -> Prop) (a : A) (Q : A -> ITrade -> Prop) :
  (forall doc, P doc -> Q a doc) -> triple P (ret a) Q.
Proof. intros H doc HP. simpl. auto. Qed.

Lemma triple_bind (P : ITrade -> Prop) (m : Route A) (k : A -> Route B)
    (R : A -> ITrade -> Prop) (Q : B -> ITrade -> Prop) :
  triple P m R -> (forall a, triple (R a) (k a) Q) -> triple P (bind m k) Q.
Proof.
  intros Hm Hk doc HP. unfold bind. specialize (Hm doc HP).
  destruct (m doc) as [a doc'|r]; [|exact I].
  exact (Hk a doc' Hm).
Qed.

Lemma triple_reject (P : ITrade -> Prop) (code : nat) (msg : string)
    (Q : A -> ITrade -> Prop) :
  triple P (reject code msg) Q.
Proof. intros doc _. exact I. Qed.

Lemma triple_weaken (P P' : ITrade -> Prop) (m : Route A)
    (Q Q' : A -> ITrade -> Prop) :
  triple P' m Q' ->
  (forall doc, P doc -> P' doc) ->
  (forall a doc, Q' a doc -> Q a doc) ->
  triple P m Q.
Proof.
  intros H HP HQ doc Hd. specialize (H doc (HP doc Hd)).
  destruct (m doc); auto.
Qed.
End Triples.

Lemma triple_get (P : ITrade -> Prop) (Q : ITrade -> ITrade -> Prop) :
  (forall doc, P doc -> Q doc doc) -> triple P get Q.
Proof. intros H doc HP. simpl. auto. Qed.

Lemma triple_assign (P : ITrade -> Prop) (f : ITrade -> ITrade)
    (Q : unit -> ITrade -> Prop) :
  (forall doc, P doc -> Q tt (f doc)) -> triple P (assign f) Q.
Proof. intros H doc HP. simpl. auto. Qed.

Lemma triple_when (P : ITrade -> Prop) (b : bool) (m : Route unit)
    (Q : unit -> ITrade -> Prop) :
  (b = true -> triple P m Q) ->
  (b = false -> forall doc, P doc -> Q tt doc) ->
  triple P (when b m) Q.
Proof.
  intros Ht Hf. destruct b; simpl.
  - apply Ht. reflexivity.
  - apply triple_ret. apply Hf. reflexivity.
Qed.

(** Reading the document and continuing with it. *)
Lemma triple_get_bind {B : Type} (P : ITrade -> Prop) (k : ITrade -> Route B)
    (Q : B -> ITrade -> Prop) :
  (forall t, triple (fun doc => P doc /\ doc = t) (k t) Q) ->
  triple P (bind get k) Q.
Proof.
  intros H doc HP. unfold bind, get. apply (H doc doc). auto.
Qed.

(** An assignment followed by the rest of the body. *)
Lemma triple_assign_bind {B : Type} (P : ITrade -> Prop) (f : ITrade -> ITrade)
    (k : Route B) (Q : B -> ITrade -> Prop) :
  triple (fun doc' => exists doc, P doc /\ doc' = f doc) k Q ->
  triple P (bind (assign f) (fun _ => k)) Q.
Proof.
  intros H doc HP. unfold bind, assign. apply H. eauto.
Qed.

(** ** The collection primitives *)

Lemma same_id_same_doc (ds : list ITrade) (a b : ITrade) :
  NoDup (map _id ds) -> In a ds -> In b ds -> _id a = _id b -> a = b.
Proof.
  induction ds as [|d ds IH]; simpl; intros N Ha Hb E; [contradiction|].
  inversion N as [|? ? Hn N']; subst.
  destruct Ha as [->|Ha], Hb as [->|Hb]; auto.
  - exfalso. apply Hn. rewrite E. apply in_map. exact Hb.
  - exfalso. apply Hn. rewrite <- E. apply in_map. exact Ha.
Qed.

Lemma find_byIdAndUser (ds : list ITrade) (t : ITrade) :
  NoDup (map _id ds) -> In t ds ->
  find (byIdAndUser (_id t) (userId t)) ds = Some t.
Proof.
  induction ds as [|d ds IH]; simpl; intros N Ht; [contradiction|].
  inversion N as [|? ? Hn N']; subst.
  unfold byIdAndUser at 1.
  destruct Ht as [->|Ht].
  - rewrite Nat.eqb_refl, String.eqb_refl. reflexivity.
  - destruct (Nat.eqb_spec (_id d) (_id t)) as [E|_]; simpl.
    + exfalso. apply Hn. rewrite E. apply in_map. exact Ht.
    + apply IH; assumption.
Qed.

Lemma replaceDoc_split (ds : list ITrade) (t t' : ITrade) :
  NoDup (map _id ds) -> In t ds -> _id t' = _id t ->
  exists l1 l2, ds = (l1 ++ t :: l2)%list
                /\ replaceDoc t' ds = (l1 ++ t' :: l2)%list.
Proof.
  induction ds as [|d ds IH]; simpl; intros N Ht E; [contradiction|].
  inversion N as [|? ? Hn N']; subst.
  destruct Ht as [->|Ht].
  - rewrite E, Nat.eqb_refl. exists [], ds. auto.
  - destruct (Nat.eqb_spec (_id d) (_id t')) as [E'|_].
    + exfalso. apply Hn. rewrite E', E. apply in_map. exact Ht.
    + destruct (IH N' Ht E) as (l1 & l2 & -> & ->).
      exists (d :: l1), l2. auto.
Qed.

Lemma removeFirst_incl (p : ITrade -> bool) (ds : list ITrade) :
  forall d, In d (fst (removeFirst p ds)) -> In d ds.
Proof.
  induction ds as [|a ds IH]; simpl; intros d H; [exact H|].
  destruct (p a).
  - right. exact H.
  - destruct (removeFirst p ds) as [r n]. simpl in *.
    destruct H as [->|H]; auto.
Qed.

Lemma removeFirst_NoDup (p : ITrade -> bool) (ds : list ITrade) :
  NoDup (map _id ds) -> NoDup (map _id (fst (removeFirst p ds))).
Proof.
  induction ds as [|a ds IH]; simpl; intro N; [exact N|].
  inversion N as [|? ? Hn N']; subst.
  destruct (p a); [exact N'|].
  pose proof (removeFirst_incl p ds) as I.
  destruct (removeFirst p ds) as [r n]. simpl in *.
  constructor; [|apply IH; exact N'].
  intro H. apply Hn. apply in_map_iff in H. destruct H as (x & Ex & Hx).
  apply in_map_iff. exists x. auto.
Qed.

Lemma removeFirst_count (p q : ITrade -> bool) (ds : list ITrade) :
  (List.length (filter q (fst (removeFirst p ds)))
   <= List.length (filter q ds))%nat.
Proof.
  induction ds as [|a ds IH]; simpl; [lia|].
  destruct (p a).
  - simpl. destruct (q a); simpl; lia.
  - destruct (removeFirst p ds) as [r n]. simpl in *.
    destruct (q a); simpl; lia.
Qed.

Lemma validate_touch (now : Date) (t : ITrade) :
  validate (touch now t) = validate t.
Proof. reflexivity. Qed.

Lemma legsOk_same_legs (t t' : ITrade) :
  entries t' = entries t -> closes t' = closes t -> legsOk t -> legsOk t'.
Proof.
  unfold legsOk, totalClosedCoin. simpl. intros -> ->. tauto.
Qed.

Lemma filter_count_replace (q : ITrade -> bool) (l1 l2 : list ITrade)
    (t t' : ITrade) :
  q t' = q t ->
  List.length (filter q (l1 ++ t' :: l2)) = List.length (filter q (l1 ++ t :: l2)).
Proof.
  intro E. rewrite !filter_app, !length_app. simpl. rewrite E.
  destruct (q t); reflexivity.
Qed.

(** [save] of a document that kept its identity and keys, and whose legs
    are sound, keeps the store sound. *)
Lemma storeOk_save (db db' : Store) (t t' saved : ITrade) (now : Date) :
  storeOk db -> In t (docs db) ->
  _id t' = _id t -> sameKeys t t' -> legsOk t' ->
  save t' now db = Some (saved, db') ->
  storeOk db'.
Proof.
  intros (N & B & T & U) Ht E K L S.
  unfold save in S. destruct (validate t') eqn:V; [|discriminate].
  injection S as <- <-.
  destruct (replaceDoc_split (docs db) t (touch now t') N Ht E)
    as (l1 & l2 & D & R).
  unfold storeOk, uniqueIndex, linkedCount. simpl. rewrite R.
  repeat split.
  - rewrite D in N. rewrite map_app in *. simpl in *. rewrite E. exact N.
  - rewrite D in B. apply Forall_app in B. destruct B as [B1 B2].
    inversion B2; subst. apply Forall_app. split; [exact B1|].
    constructor; [simpl; rewrite E; assumption | assumption].
  - rewrite D in T. apply Forall_app in T. destruct T as [T1 T2].
    inversion T2; subst. apply Forall_app. split; [exact T1|].
    constructor; [|assumption]. split; [exact V|].
    apply (legsOk_same_legs t'); auto.
  - intros uid pid. specialize (U uid pid). unfold linkedCount in U.
    rewrite D in U.
    rewrite (filter_count_replace _ l1 l2 t (touch now t')); [exact U|].
    exact (K uid pid).
Qed.

(** [create] of a document with sound legs that falls under no key of the
    index already taken keeps the store sound. *)
Lemma storeOk_create (db db' : Store) (mk : nat -> Date -> ITrade)
    (t : ITrade) (now : Date) :
  storeOk db ->
  (forall id d, _id (mk id d) = id) ->
  legsOk (mk (nextId db) now) ->
  (forall uid pid, byExchangePosition uid pid (mk (nextId db) now) = true ->
                   linkedCount uid pid db = 0%nat) ->
  create mk now db = Some (t, db') ->
  storeOk db'.
Proof.
  intros (N & B & T & U) Hid L K C.
  unfold create in C. destruct (validate (mk (nextId db) now)) eqn:V; [|discriminate].
  injection C as <- <-.
  unfold storeOk, uniqueIndex, linkedCount. simpl.
  repeat split.
  - rewrite map_app. simpl. rewrite Hid.
    apply NoDup_app; [exact N | repeat constructor; simpl; tauto |].
    intros a Ha [<-|[]]. apply in_map_iff in Ha. destruct Ha as (d & Ed & Hd).
    rewrite Forall_forall in B. specialize (B d Hd). lia.
  - apply Forall_app. split.
    + eapply Forall_impl; [|exact B]. simpl. intros; lia.
    + constructor; [rewrite Hid; lia | constructor].
  - apply Forall_app. split; [exact T|].
    constructor; [split; assumption | constructor].
  - intros uid pid. rewrite filter_app, length_app. simpl.
    specialize (U uid pid). unfold linkedCount in *.
    destruct (byExchangePosition uid pid (mk (nextId db) now)) eqn:M; simpl.
    + rewrite (K uid pid M). lia.
    + lia.
Qed.

Lemma storeOk_delete (p : ITrade -> bool) (db : Store) :
  storeOk db -> storeOk (fst (deleteOne p db)).
Proof.
  intros (N & B & T & U). unfold deleteOne.
  pose proof (removeFirst_incl p (docs db)) as I.
  pose proof (removeFirst_NoDup p (docs db) N) as N'.
  pose proof (fun q => removeFirst_count p q (docs db)) as C.
  destruct (removeFirst p (docs db)) as [r n]. simpl in *.
  unfold storeOk, uniqueIndex, linkedCount. simpl.
  split; [exact N'|]. split; [|split].
  - rewrite Forall_forall in *. auto.
  - rewrite Forall_forall in *. auto.
  - intros uid pid. specialize (U uid pid). unfold linkedCount in U.
    specialize (C (byExchangePosition uid pid)). lia.
Qed.

(** A route on [/trades/:id] keeps the store sound when its body keeps
    the frame of the document and the soundness of its legs. *)
Lemma storeOk_onTrade (uid : option string) (id : nat) (now : Date)
    (body : Route unit) (db : Store) :
  storeOk db ->
  (forall t, In t (docs db) -> legsOk t ->
     triple (fun doc => doc = t) body (fun _ doc' => frame t doc' /\ legsOk doc')) ->
  storeOk (snd (onTrade uid id now body db)).
Proof.
  intros Hok Hbody. unfold onTrade.
  destruct uid as [u|]; [|exact Hok].
  destruct (findOne (byIdAndUser id u) db) as [t|] eqn:F; [|exact Hok].
  apply find_some in F. destruct F as [Ht _].
  assert (legsOk t) as Lt.
  { destruct Hok as (_ & _ & T & _). rewrite Forall_forall in T.
    apply (T t Ht). }
  specialize (Hbody t Ht Lt t eq_refl).
  destruct (body t) as [[] t'|r]; [|exact Hok].
  destruct Hbody as [(Fi & Fu & Fe & Fp) L].
  destruct (save t' now db) as [[saved db']|] eqn:S; [|exact Hok].
  simpl. apply (storeOk_save db db' t t' saved now); auto.
  intros uid pid. unfold byExchangePosition. rewrite Fu, Fe, Fp. reflexivity.
Qed.

(** ** Sound legs *)

Lemma notional_grows (es : list ITradeEntry) (acc : EntryTotals) :
  Forall entryOk es ->
  accNotionalUsd acc <= accNotionalUsd (fold_left entryStep es acc).
Proof.
  intro H. revert acc. induction H as [|e es He _ IH]; intro acc; simpl.
  - apply Qle_refl.
  - eapply Qle_trans; [|apply IH]. simpl.
    destruct He as (_ & Hm & Hl). unfold nullish.
    assert (0 < match leverage e with Some a => a | None => 1 end) as L.
    { destruct (leverage e) as [l|]; [apply Hl; reflexivity | reflexivity]. }
    pose proof (Qmult_lt_0_compat _ _ Hm L). lra.
Qed.

Lemma notional_pos (e : ITradeEntry) (es : list ITradeEntry) :
  Forall entryOk (e :: es) -> 0 < accNotionalUsd (entryLoop (e :: es)).
Proof.
  intro H. inversion H as [|? ? He Hes]; subst.
  unfold entryLoop. simpl.
  eapply Qlt_le_trans; [|apply notional_grows; exact Hes]. simpl.
  destruct He as (_ & Hm & Hl). unfold nullish.
  assert (0 < match leverage e with Some a => a | None => 1 end) as L.
  { destruct (leverage e) as [l|]; [apply Hl; reflexivity | reflexivity]. }
  pose proof (Qmult_lt_0_compat _ _ Hm L). lra.
Qed.

Lemma totalEntryCoin_nonneg (t : ITrade) :
  Forall entryOk (entries t) -> 0 <= totalEntryCoin (computeTradeAggregates t).
Proof.
  intro H. simpl. rewrite entryLoop_coin. apply specTotalEntryCoin_nonneg, H.
Qed.

(** With sound legs, a positive open coin is exactly what is left of a
    positive total, and the average entry price is a positive number. *)
Lemma open_position (t : ITrade) :
  legsOk t -> 0 < openCoin (computeTradeAggregates t) ->
  openCoin (computeTradeAggregates t)
    == totalEntryCoin (computeTradeAggregates t) - totalClosedCoin t
  /\ 0 < totalEntryCoin (computeTradeAggregates t)
  /\ exists avg, avgEntryPrice (computeTradeAggregates t) = Some avg /\ 0 < avg.
Proof.
  intros (He & Hc & Hle) Ho. rewrite openCoin_eq in *.
  pose proof (Qmax_pos_l _ Ho) as E. rewrite E in Ho.
  pose proof (closedCoin_nonneg _ Hc) as C. unfold totalClosedCoin in *.
  assert (0 < totalEntryCoin (computeTradeAggregates t)) as T by lra.
  split; [exact E|]. split; [exact T|].
  simpl in T |- *.
  destruct (entries t) as [|e es] eqn:Es.
  { exfalso. unfold entryLoop in T. simpl in T. lra. }
  pose proof (notional_pos e es He) as N.
  apply Qlt_bool_iff in T. rewrite T. eexists. split; [reflexivity|].
  apply Qlt_bool_iff in T.
  apply Qlt_shift_div_l; [exact T|]. lra.
Qed.

(** ** The sell route *)

Lemma requestedCoin_pos (b : SellBody.t) (o : Q) :
  sellSchema b = true -> 0 < o -> 0 < requestedCoin b o.
Proof.
  unfold sellSchema, sellSchemaBase, presentAmounts, requestedCoin.
  intros H Ho.
  unpack H.
  apply positive_iff in H.
  destruct (SellBody.amountCoin b) as [a|]; simpl in *.
  { apply positive_iff; assumption. }
  destruct (SellBody.amountUsd b) as [u|]; simpl in *.
  { apply Qlt_shift_div_l; [exact H|].
    match goal with P : positive u = true |- _ => apply positive_iff in P end.
    lra. }
  destruct (SellBody.percentage b) as [p|]; simpl in *; [|discriminate].
  match goal with P : (_ && _) = true |- _ =>
    apply andb_prop in P; destruct P as [P _]; apply positive_iff in P end.
  apply Qmult_lt_0_compat; [|exact Ho].
  apply Qlt_shift_div_l; [reflexivity | lra].
Qed.

Lemma soldCoin_bounds (b : SellBody.t) (t : ITrade) :
  sellSchema b = true -> 0 < openCoin (computeTradeAggregates t) ->
  0 < soldCoin b t /\ soldCoin b t <= openCoin (computeTradeAggregates t).
Proof.
  intros Hb Ho. unfold soldCoin.
  pose proof (requestedCoin_pos b _ Hb Ho) as R.
  destruct (_ >? _) eqn:E.
  - split; [exact Ho | apply Qle_refl].
  - apply Qlt_bool_false in E. split; assumption.
Qed.

Lemma sellBody_ok (b : SellBody.t) (now : Date) (t : ITrade) :
  status t = active -> legsOk t ->
  0 < openCoin (computeTradeAggregates t) ->
  sellSchema b = true ->
  sellBody b now t = Continue tt (afterSell b now t).
Proof.
  intros Hs Hl Ho Hb.
  destruct (open_position t Hl Ho) as (_ & HT & avg & Havg & Hpos).
  pose proof (requestedCoin_pos b _ Hb Ho) as R.
  unfold sellBody, bind, get. rewrite Hs. simpl negb. cbv iota.
  rewrite Havg.
  assert (truthy (Some avg) = true) as Tr.
  { apply truthy_Some. intro E. rewrite E in Hpos. exact (Qlt_irrefl _ Hpos). }
  rewrite Tr.
  assert ((totalEntryCoin (computeTradeAggregates t) <=? 0) = false) as C1
    by (apply Qle_bool_false; exact HT).
  assert ((openCoin (computeTradeAggregates t) <=? 0) = false) as C2
    by (apply Qle_bool_false; exact Ho).
  rewrite C1, C2. simpl orb. cbv iota.
  apply Qlt_bool_iff in R. rewrite R. simpl negb. cbv iota.
  unfold afterSell, assign, when, ret, sellClose, soldCoin.
  rewrite Havg.
  destruct (_ <=? eps); reflexivity.
Qed.

Lemma triple_at {A : Type} (m : Route A) (Q : A -> ITrade -> Prop) (doc : ITrade) :
  triple (fun d => d = doc) m Q ->
  match m doc with Continue a d' => Q a d' | Return _ => True end.
Proof. intro H. exact (H doc eq_refl). Qed.

Lemma frame_refl (t : ITrade) : frame t t.
Proof. unfold frame. auto. Qed.

Lemma totalEntryCoin_entries (t : ITrade) :
  totalEntryCoin (computeTradeAggregates t) = accEntryCoin (entryLoop (entries t)).
Proof. reflexivity. Qed.

Lemma legsOk_afterSell (b : SellBody.t) (now : Date) (t : ITrade) :
  legsOk t -> 0 < openCoin (computeTradeAggregates t) ->
  sellSchema b = true ->
  legsOk (afterSell b now t).
Proof.
  intros Hl Ho Hb.
  destruct (open_position t Hl Ho) as (Eo & _ & _).
  destruct (soldCoin_bounds b t Hb Ho) as [S0 S1].
  destruct Hl as (He & Hc & Hle).
  assert (legsOk (setCloses (closes t ++ [sellClose b now t]) t)) as L.
  { unfold legsOk. split; [exact He|]. split.
    - simpl. apply Forall_app. split; [exact Hc|].
      constructor; [exact S0 | constructor].
    - rewrite totalEntryCoin_entries. unfold totalClosedCoin. simpl entries.
      simpl closes. rewrite closedCoin_app, closedCoin_cons.
      change (fst (closeLoop [])) with 0. simpl closeCoinAmount.
      rewrite totalEntryCoin_entries in *. unfold totalClosedCoin in *. lra. }
  unfold afterSell. destruct (_ <=? eps); [|exact L].
  apply (legsOk_same_legs (setCloses (closes t ++ [sellClose b now t]) t));
    [reflexivity | reflexivity | exact L].
Qed.

Lemma frame_afterSell (b : SellBody.t) (now : Date) (t : ITrade) :
  frame t (afterSell b now t) /\ coin (afterSell b now t) = coin t.
Proof.
  unfold afterSell, frame. destruct (_ <=? eps); simpl; auto.
Qed.

Lemma sellBody_triple (b : SellBody.t) (now : Date) (t : ITrade) :
  legsOk t -> sellSchema b = true ->
  triple (fun doc => doc = t) (sellBody b now)
    (fun _ doc' => status t = active /\ frame t doc' /\ legsOk doc').
Proof.
  intros Hl Hb doc ->.
  destruct (status t) eqn:Hs.
  2:{ unfold sellBody, bind, get. rewrite Hs. exact I. }
  destruct (Qlt_le_dec 0 (openCoin (computeTradeAggregates t))) as [Ho|Ho].
  - rewrite (sellBody_ok b now t Hs Hl Ho Hb).
    split; [reflexivity|]. split; [apply frame_afterSell|].
    apply legsOk_afterSell; assumption.
  - unfold sellBody, bind, get. rewrite Hs. simpl negb. cbv iota.
    apply Qle_bool_iff in Ho. rewrite Ho. rewrite !orb_true_r. exact I.
Qed.

Lemma addSizeBody_triple (b : AddSizeBody.t) (now : Date) (t : ITrade) :
  legsOk t -> addSizeSchema b = true ->
  triple (fun doc => doc = t) (addSizeBody b now)
    (fun _ doc' => status t = active /\ status doc' = active
                   /\ frame t doc' /\ legsOk doc').
Proof.
  intros (He & Hc & Hle) Hb doc ->.
  unfold addSizeBody, bind, get.
  destruct (status t) eqn:Hs; simpl; [|exact I].
  unfold addSizeSchema in Hb.
  unpack Hb.
  split; [reflexivity|]. split; [exact Hs|]. split; [unfold frame; simpl; auto|].
  set (e := {| entryPrice := AddSizeBody.entryPrice b;
               amountInvestedUsd := AddSizeBody.amountInvestedUsd b;
               leverage := AddSizeBody.leverage b;
               entryDate := AddSizeBody.entryDate b ?? now |}).
  assert (entryOk e) as Oe.
  { unfold entryOk, e; simpl. repeat split.
    - apply positive_iff; assumption.
    - apply positive_iff; assumption.
    - intros l El.
      match goal with P : optional positive _ = true |- _ =>
        rewrite El in P; apply positive_iff in P; exact P end. }
  unfold legsOk. split; [|split].
  - simpl. apply Forall_app. split; [exact He | constructor; [exact Oe | constructor]].
  - exact Hc.
  - rewrite totalEntryCoin_entries in *. unfold totalClosedCoin in *.
    simpl entries. simpl closes.
    rewrite entryLoop_coin in *. rewrite specTotalEntryCoin_app.
    pose proof (specTotalEntryCoin_nonneg [e]
                  (Forall_cons e Oe (Forall_nil _))). lra.
Qed.

(** ** The edit route *)

Lemma closedCoin_single (c : ITradeClose) :
  fst (closeLoop [c]) == closeCoinAmount c.
Proof. rewrite closedCoin_cons. change (fst (closeLoop [])) with 0. ring. Qed.

Lemma edited_entryOk (b : EditBody.t) (e : ITradeEntry) :
  editTradeSchema b = true -> entryOk e ->
  entryOk
    {| entryPrice := EditBody.entryPrice b ?? entryPrice e;
       amountInvestedUsd := EditBody.amountInvestedUsd b ?? amountInvestedUsd e;
       leverage := match EditBody.leverage b with
                   | Some l => l
                   | None => leverage e
                   end;
       entryDate := EditBody.entryDate b ?? entryDate e |}.
Proof.
  unfold editTradeSchema. intros Hb (Hp & Hm & Hl).
  unpack Hb.
  unfold entryOk; simpl. repeat split.
  - destruct (EditBody.entryPrice b); simpl in *;
      [apply positive_iff; assumption | exact Hp].
  - destruct (EditBody.amountInvestedUsd b); simpl in *;
      [apply positive_iff; assumption | exact Hm].
  - intros l El. destruct (EditBody.leverage b) as [o|]; simpl in *.
    + subst o. simpl in *. apply positive_iff; assumption.
    + apply Hl; exact El.
Qed.

Lemma editClosedLegs_triple (b : EditBody.t) (t : ITrade) :
  editTradeSchema b = true -> legsOk t ->
  triple (keepsLegs t) (editClosedLegs b)
    (fun _ doc' => frame t doc' /\ status doc' = status t /\ legsOk doc').
Proof.
  intros Hb (He & Hc & Hle).
  unfold editClosedLegs. apply triple_get_bind. intro trade.
  intros doc [(Hf & Hs & Ees & Ecs) ->].
  rewrite Ees, Ecs.
  destruct (entries t) as [|e [|e2 es]] eqn:Es; try exact I;
    destruct (closes t) as [|c [|c2 cs]] eqn:Cs; try exact I.
  simpl negb. cbv iota. simpl nth_error. cbv iota.
  assert (entryOk e) as Oe by (inversion He; assumption).
  pose proof (edited_entryOk b e Hb Oe) as Oe'.
  set (entry' := {| entryPrice := EditBody.entryPrice b ?? entryPrice e |}) in *.
  apply triple_at.
  apply (triple_bind _ _ _ (fun _ => keepsLegs t)).
  { apply triple_when; intros _.
    - apply triple_assign. intros d ->. unfold keepsLegs, frame in *. simpl.
      intuition congruence.
    - intros d ->. unfold keepsLegs. intuition congruence. }
  intros _.
  apply (triple_bind _ _ _ (fun _ => keepsLegs t)).
  { apply triple_when; intros _.
    - apply triple_assign. intros d K. unfold keepsLegs, frame in *. simpl. tauto.
    - intros d K. exact K. }
  intros _.
  apply triple_assign_bind.
  destruct (negb (_ >? 0)) eqn:Ex; [apply triple_reject|].
  apply triple_get_bind. intro snapshot.
  destruct (negb (totalEntryCoin (computeTradeAggregates snapshot) >? 0)) eqn:Et.
  { apply triple_reject. }
  apply negb_false_iff, Qlt_bool_iff in Et.
  apply triple_assign.
  intros d [(d0 & (Kf & Ks & Ke & Kc) & Ed) Esn]. subst snapshot. subst d.
  split; [unfold frame in *; simpl; tauto|]. split; [simpl; exact Ks|].
  unfold legsOk. rewrite totalEntryCoin_entries in *. unfold totalClosedCoin.
  simpl entries in *. simpl closes. rewrite Ke, Kc in *.
  rewrite Es in Et |- *. rewrite Cs. simpl setFirst in *.
  split; [constructor; [exact Oe' | constructor]|].
  split; [constructor; [exact Et | constructor]|].
  rewrite closedCoin_single. simpl. apply Qle_refl.
Qed.

Lemma editBody_triple (b : EditBody.t) (t : ITrade) :
  editTradeSchema b = true -> legsOk t ->
  triple (fun doc => doc = t) (editBody b)
    (fun _ doc' => frame t doc' /\ status doc' = status t /\ legsOk doc').
Proof.
  intros Hb Hl. unfold editBody.
  apply triple_get_bind. intro trade.
  destruct (_ && _); [apply triple_reject|].
  apply (triple_bind _ _ _ (fun _ => keepsLegs t)).
  { apply triple_when; intros _.
    - apply triple_assign. intros d [-> _]. unfold keepsLegs, frame. simpl. tauto.
    - intros d [-> _]. unfold keepsLegs, frame. tauto. }
  intros _.
  apply (triple_bind _ _ _ (fun _ => keepsLegs t)).
  { destruct (EditBody.stopLossPrice b).
    - apply triple_assign. intros d K. unfold keepsLegs, frame in *. simpl. tauto.
    - apply triple_ret. auto. }
  intros _.
  apply (triple_bind _ _ _ (fun _ => keepsLegs t)).
  { destruct (EditBody.takeProfitPrice b).
    - apply triple_assign. intros d K. unfold keepsLegs, frame in *. simpl. tauto.
    - apply triple_ret. auto. }
  intros _.
  apply triple_get_bind. intro trade'.
  apply triple_when; intros _.
  - eapply triple_weaken; [apply (editClosedLegs_triple b t Hb Hl) | |]; simpl.
    + intros d [K _]. exact K.
    + auto.
  - intros d [(Kf & Ks & Ke & Kc) _]. split; [exact Kf|]. split; [exact Ks|].
    apply (legsOk_same_legs t); assumption.
Qed.

(** ** The create routes *)

Lemma newTrade_unlinked (u : string) s st c cm sl tp es cs id now uid pid :
  byExchangePosition uid pid (newTrade u s st c cm sl tp es cs id now) = false.
Proof.
  unfold byExchangePosition. simpl. rewrite andb_false_r. reflexivity.
Qed.

Lemma body_entryOk (b : ActiveBody.t) (d : Date) :
  createActiveTradeSchema b = true ->
  entryOk {| entryPrice := ActiveBody.entryPrice b;
             amountInvestedUsd := ActiveBody.amountInvestedUsd b;
             leverage := ActiveBody.leverage b;
             entryDate := d |}.
Proof.
  unfold createActiveTradeSchema. intro Hb.
  unpack Hb.
  unfold entryOk; simpl. repeat split.
  - apply positive_iff; assumption.
  - apply positive_iff; assumption.
  - intros l El.
    match goal with P : optional positive (ActiveBody.leverage b) = true |- _ =>
      rewrite El in P; apply positive_iff in P; exact P end.
Qed.

Lemma storeOk_createActive (uid : option string) (b : ActiveBody.t)
    (now : Date) (db : Store) :
  storeOk db -> storeOk (snd (createActive uid b now db)).
Proof.
  intro Hok. unfold createActive.
  destruct uid as [u|]; [|exact Hok].
  destruct (negb (createActiveTradeSchema b)) eqn:Hb; [exact Hok|].
  apply negb_false_iff in Hb.
  destruct (create _ now db) as [[t db']|] eqn:C; [|exact Hok].
  simpl. eapply storeOk_create; [exact Hok | | | | exact C].
  - reflexivity.
  - pose proof (body_entryOk b (ActiveBody.entryDate b ?? now) Hb) as Oe.
    unfold legsOk. rewrite totalEntryCoin_entries. unfold totalClosedCoin.
    simpl entries. simpl closes.
    split; [constructor; [exact Oe | constructor]|].
    split; [constructor|].
    rewrite entryLoop_coin. change (fst (closeLoop [])) with 0.
    apply specTotalEntryCoin_nonneg. constructor; [exact Oe | constructor].
  - intros uid pid M. rewrite newTrade_unlinked in M. discriminate.
Qed.

Lemma storeOk_createClosed (uid : option string) (b : ClosedBody.t)
    (now : Date) (db : Store) :
  storeOk db -> storeOk (snd (createClosed uid b now db)).
Proof.
  intro Hok. unfold createClosed.
  destruct uid as [u|]; [|exact Hok].
  destruct (negb (createClosedTradeSchema b)) eqn:Hb; [exact Hok|].
  apply negb_false_iff in Hb. unfold createClosedTradeSchema in Hb.
  apply andb_prop in Hb. destruct Hb as [Ha _].
  destruct (create _ now db) as [[t db']|] eqn:C; [|exact Hok].
  simpl. eapply storeOk_create; [exact Hok | | | | exact C].
  - reflexivity.
  - match goal with |- legsOk (newTrade _ _ _ _ _ _ _ [?e] _ _ _) =>
      pose proof (body_entryOk (ClosedBody.base b) (entryDate e) Ha) as Oe
    end.
    simpl entryDate in Oe.
    unfold legsOk. rewrite !totalEntryCoin_entries. unfold totalClosedCoin.
    simpl entries. simpl closes.
    pose proof (specTotalEntryCoin_pos _ [] (Forall_cons _ Oe (Forall_nil _))) as P.
    rewrite <- entryLoop_coin in P.
    split; [constructor; [exact Oe | constructor]|].
    split; [constructor; [exact P | constructor]|].
    rewrite closedCoin_single. simpl. apply Qle_refl.
  - intros uid pid M. rewrite newTrade_unlinked in M. discriminate.
Qed.

(** ** Strings kept by [trim] *)

Lemma isSpace_upper (c : ascii) : isSpace (upper_ascii c) = isSpace c.
Proof.
  destruct c as [[] [] [] [] [] [] [] []]; reflexivity.
Qed.

Lemma hasInk_toUpperCase (s : string) : hasInk (toUpperCase s) = hasInk s.
Proof.
  induction s as [|c s IH]; simpl; [reflexivity|].
  rewrite isSpace_upper, IH. reflexivity.
Qed.

Lemma isEmpty_toUpperCase (s : string) : isEmpty (toUpperCase s) = isEmpty s.
Proof. destruct s; reflexivity. Qed.

Lemma hasInk_trimStart (s : string) : hasInk (trimStart s) = hasInk s.
Proof.
  induction s as [|c s IH]; simpl; [reflexivity|].
  destruct (isSpace c) eqn:E; simpl; [exact IH | rewrite E; reflexivity].
Qed.

Lemma isEmpty_trimStart (s : string) : isEmpty (trimStart s) = negb (hasInk s).
Proof.
  induction s as [|c s IH]; simpl; [reflexivity|].
  destruct (isSpace c); simpl; [exact IH | reflexivity].
Qed.

Lemma hasInk_revString (s acc : string) :
  hasInk (revString s acc) = hasInk s || hasInk acc.
Proof.
  revert acc. induction s as [|c s IH]; intro acc; simpl; [reflexivity|].
  rewrite IH. simpl. destruct (isSpace c), (hasInk s), (hasInk acc); reflexivity.
Qed.

Lemma isEmpty_revString (s acc : string) :
  isEmpty (revString s acc) = isEmpty s && isEmpty acc.
Proof.
  revert acc. induction s as [|c s IH]; intro acc; simpl; [reflexivity|].
  rewrite IH. simpl. apply andb_false_r.
Qed.

Lemma hasInk_trim (s : string) : hasInk (trim s) = hasInk s.
Proof.
  unfold trim. rewrite hasInk_revString, hasInk_trimStart, hasInk_revString,
    hasInk_trimStart. simpl. rewrite !orb_false_r. reflexivity.
Qed.

Lemma isEmpty_trim (s : string) : isEmpty (trim s) = negb (hasInk s).
Proof.
  unfold trim. rewrite isEmpty_revString, isEmpty_trimStart, hasInk_revString,
    hasInk_trimStart. simpl. rewrite andb_true_r, orb_false_r. reflexivity.
Qed.

Lemma isEmpty_castCoin (s : string) : isEmpty (castCoin s) = negb (hasInk s).
Proof. unfold castCoin. rewrite isEmpty_toUpperCase. apply isEmpty_trim. Qed.

(** ** mapPosition *)

(** A payload that [mapPosition] produces carries the position's id, a
    coin that survives the schema setters, and a sound entry. *)
Lemma mapPosition_sound (position : AsterDexPosition.t) (now : Date)
    (payload : PositionTradePayload.t) :
  mapPosition position now = Some payload ->
  PositionTradePayload.positionId payload = AsterDexPosition.id position
  /\ isEmpty (castCoin (PositionTradePayload.coin payload)) = false
  /\ entryOk (PositionTradePayload.entry payload).
Proof.
  unfold mapPosition.
  destruct (isEmpty (AsterDexPosition.id position)); [discriminate|].
  destruct (Qeq_bool _ 0); [discriminate|].
  destruct (negb (AsterDexPosition.entryPrice position >? 0)) eqn:Hp;
    [discriminate|].
  destruct (isEmpty (_ ?? _)); [discriminate|].
  destruct (isEmpty (toUpperCase _)) eqn:Hc; [discriminate|].
  match goal with |- context [if negb (?i >? 0) then None else _] =>
    destruct (negb (i >? 0)) eqn:Hi; [discriminate|] end.
  intro E. injection E as <-. simpl.
  split; [reflexivity|]. split.
  - rewrite isEmpty_castCoin, hasInk_toUpperCase, hasInk_trim.
    rewrite isEmpty_toUpperCase, isEmpty_trim in Hc.
    rewrite Hc. reflexivity.
  - apply negb_false_iff, Qlt_bool_iff in Hp.
    apply negb_false_iff, Qlt_bool_iff in Hi.
    unfold entryOk; simpl. split; [exact Hp|]. split; [exact Hi|].
    intros l El. injection El as <-.
    match goal with |- 0 < match (if ?c then _ else _) with _ => _ end =>
      destruct c eqn:Hl end.
    + apply Qlt_bool_iff in Hl. lra.
    + reflexivity.
Qed.

(** ** upsertTrade and the loop of syncPositions *)

Lemma optString_eqb_eq (o : option string) (s : string) :
  optString_eqb o s = true <-> o = Some s.
Proof.
  destruct o as [x|]; simpl.
  - rewrite String.eqb_eq. split; congruence.
  - split; discriminate.
Qed.

Lemma byExchangePosition_true (uid pid : string) (d : ITrade) :
  byExchangePosition uid pid d = true <->
  userId d = uid /\ exchange d = Some "asterdex"
  /\ exchangePositionId d = Some pid.
Proof.
  unfold byExchangePosition.
  rewrite !andb_true_iff, String.eqb_eq, !optString_eqb_eq. tauto.
Qed.

Lemma byExchangePosition_same (uid pid uid' pid' : string) (d d' : ITrade) :
  byExchangePosition uid pid d = true ->
  byExchangePosition uid pid d' = true ->
  byExchangePosition uid' pid' d' = byExchangePosition uid' pid' d.
Proof.
  intros H H'. apply byExchangePosition_true in H, H'.
  destruct H as (U & E & P), H' as (U' & E' & P').
  unfold byExchangePosition. rewrite U, E, P, U', E', P'. reflexivity.
Qed.

Lemma overwrite_linked (existing : ITrade) (payload : PositionTradePayload.t)
    (now : Date) :
  byExchangePosition (userId existing) (PositionTradePayload.positionId payload)
    (overwrite existing payload now) = true.
Proof.
  apply byExchangePosition_true. simpl. auto.
Qed.

Lemma linkedTrade_linked (uid : string) (payload : PositionTradePayload.t)
    (at_ : Date) (id : nat) (now : Date) :
  byExchangePosition uid (PositionTradePayload.positionId payload)
    (linkedTrade uid payload at_ id now) = true.
Proof.
  apply byExchangePosition_true. simpl. auto.
Qed.

Lemma legsOk_single_entry (t : ITrade) (e : ITradeEntry) :
  entries t = [e] -> closes t = [] -> entryOk e -> legsOk t.
Proof.
  intros Ee Ec Oe. unfold legsOk. rewrite totalEntryCoin_entries.
  unfold totalClosedCoin. rewrite Ee, Ec.
  split; [constructor; [exact Oe | constructor]|].
  split; [constructor|].
  rewrite entryLoop_coin. change (fst (closeLoop [])) with 0.
  apply specTotalEntryCoin_nonneg. constructor; [exact Oe | constructor].
Qed.

Lemma find_none_count (p : ITrade -> bool) (ds : list ITrade) :
  find p ds = None -> List.length (filter p ds) = 0%nat.
Proof.
  induction ds as [|d ds IH]; simpl; [reflexivity|].
  destruct (p d); [discriminate | exact IH].
Qed.

Lemma find_some_count (p : ITrade -> bool) (ds : list ITrade) (d : ITrade) :
  find p ds = Some d -> (1 <= List.length (filter p ds))%nat.
Proof.
  induction ds as [|a ds IH]; simpl; [discriminate|].
  destruct (p a); simpl; [lia | exact IH].
Qed.

(** On a payload of [mapPosition] the write of [upsertTrade] is accepted;
    it updates the linked document when there is one and creates it
    otherwise, and in both cases leaves exactly one document under the
    key. *)
Lemma upsertTrade_mapped (uid : string) (position : AsterDexPosition.t)
    (now at_ : Date) (payload : PositionTradePayload.t) (db : Store) :
  storeOk db -> mapPosition position now = Some payload ->
  exists r db',
    upsertTrade uid payload at_ db = Some (r, db')
    /\ storeOk db'
    /\ linkedCount uid (PositionTradePayload.positionId payload) db' = 1%nat
    /\ (r = Created <->
        linkedCount uid (PositionTradePayload.positionId payload) db = 0%nat).
Proof.
  intros Hok Hm.
  destruct (mapPosition_sound position now payload Hm) as (_ & Hc & Oe).
  unfold upsertTrade, findOne.
  set (pid := PositionTradePayload.positionId payload).
  destruct (find (byExchangePosition uid pid) (docs db)) as [existing|] eqn:F.
  - pose proof (find_some_count _ _ _ F) as C1.
    apply find_some in F. destruct F as [Hin Hk].
    assert (userId existing = uid) as Eu
      by (apply byExchangePosition_true in Hk; tauto).
    assert (validate (overwrite existing payload at_) = true) as V
      by (unfold validate; simpl; rewrite Hc; reflexivity).
    unfold save. rewrite V.
    eexists Updated, _. split; [reflexivity|].
    assert (storeOk
      {| docs := replaceDoc (touch at_ (overwrite existing payload at_)) (docs db);
         nextId := nextId db |}) as Hok'.
    { apply (storeOk_save db _ existing (overwrite existing payload at_)
               (touch at_ (overwrite existing payload at_)) at_); auto.
      - intros uid' pid'. apply (byExchangePosition_same uid pid); [exact Hk|].
        rewrite <- Eu. apply overwrite_linked.
      - apply (legsOk_single_entry _ (PositionTradePayload.entry payload));
          [reflexivity | reflexivity | exact Oe].
      - unfold save. rewrite V. reflexivity. }
    split; [exact Hok'|].
    pose proof (proj2 (proj2 (proj2 Hok)) uid pid) as U.
    destruct Hok as (N & _).
    destruct (replaceDoc_split (docs db) existing
                (touch at_ (overwrite existing payload at_)) N Hin eq_refl)
      as (l1 & l2 & D & R).
    assert (linkedCount uid pid
              {| docs := replaceDoc (touch at_ (overwrite existing payload at_))
                           (docs db);
                 nextId := nextId db |}
            = linkedCount uid pid db) as Same.
    { unfold linkedCount. simpl. rewrite R, D.
      apply filter_count_replace.
      change (byExchangePosition uid pid (overwrite existing payload at_)
              = byExchangePosition uid pid existing).
      rewrite Hk, <- Eu. apply overwrite_linked. }
    unfold linkedCount in *. split; [lia|].
    split; [discriminate | intro Z; lia].
  - pose proof (find_none_count _ _ F) as C0.
    assert (validate (linkedTrade uid payload at_ (nextId db) at_) = true) as V
      by (unfold validate; simpl; rewrite Hc; reflexivity).
    unfold create. rewrite V.
    eexists Created, _. split; [reflexivity|].
    split.
    + eapply storeOk_create
        with (mk := linkedTrade uid payload at_) (now := at_); [exact Hok | | | |].
      * reflexivity.
      * apply (legsOk_single_entry _ (PositionTradePayload.entry payload));
          [reflexivity | reflexivity | exact Oe].
      * intros uid' pid' M. apply byExchangePosition_true in M. simpl in M.
        destruct M as (<- & _ & P). injection P as <-. exact C0.
      * unfold create. rewrite V. reflexivity.
    + subst pid. unfold linkedCount in *. simpl.
      rewrite filter_app, length_app. simpl.
      rewrite linkedTrade_linked. simpl. split; [lia | tauto].
Qed.

Lemma storeOk_syncStep (uid : string) (now : Date)
    (position : AsterDexPosition.t) (c : Counters) (db : Store) :
  storeOk db ->
  exists c' db', syncStep uid now position c db = Some (c', db') /\ storeOk db'.
Proof.
  intro Hok. unfold syncStep.
  destruct (mapPosition position now) as [payload|] eqn:M.
  - destruct (upsertTrade_mapped uid position now now payload db Hok M)
      as (r & db' & -> & Hok' & _).
    destruct r; eauto.
  - eauto.
Qed.

Lemma storeOk_syncLoop (uid : string) (now : Date)
    (positions : list AsterDexPosition.t) (c : Counters) (db : Store) :
  storeOk db ->
  exists c' db', syncLoop uid now positions c db = (Some c', db') /\ storeOk db'.
Proof.
  revert c db. induction positions as [|p ps IH]; intros c db Hok; simpl.
  - eauto.
  - destruct (storeOk_syncStep uid now p c db Hok) as (c1 & db1 & -> & Hok1).
    apply IH. exact Hok1.
Qed.

Lemma storeOk_runSync (svc : Service) (feed : Feed) (now : Date) (db : Store) :
  storeOk db -> storeOk (snd (runSync svc feed now db)).
Proof.
  intro Hok. unfold runSync.
  destruct (syncing svc); [exact Hok|].
  destruct feed as [positions|]; [|exact Hok].
  unfold syncPositions.
  destruct (storeOk_syncLoop (userObjectId svc) now positions
              (mkCounters 0 0 0) db Hok) as (c & db' & -> & Hok').
  exact Hok'.
Qed.

(** ** Every reachable store is sound *)

Lemma storeOk_empty : storeOk emptyStore.
Proof.
  unfold storeOk, uniqueIndex, linkedCount. simpl.
  repeat split; try constructor. intros; lia.
Qed.

Lemma storeOk_exec (op : Op) (db : Store) : storeOk db -> storeOk (exec op db).
Proof.
  intro Hok. destruct op; simpl.
  - apply storeOk_createActive, Hok.
  - apply storeOk_createClosed, Hok.
  - unfold editTrade. destruct uid; [|exact Hok].
    destruct (negb (editTradeSchema b)) eqn:Hb; [exact Hok|].
    apply negb_false_iff in Hb.
    apply storeOk_onTrade; [exact Hok|]. intros t _ Hl.
    eapply triple_weaken; [apply (editBody_triple b t Hb Hl) | auto |].
    simpl. tauto.
  - unfold addSize. destruct uid; [|exact Hok].
    destruct (negb (addSizeSchema b)) eqn:Hb; [exact Hok|].
    apply negb_false_iff in Hb.
    apply storeOk_onTrade; [exact Hok|]. intros t _ Hl.
    eapply triple_weaken; [apply (addSizeBody_triple b now t Hl Hb) | auto |].
    simpl. tauto.
  - unfold sell. destruct uid; [|exact Hok].
    destruct (negb (sellSchema b)) eqn:Hb; [exact Hok|].
    apply negb_false_iff in Hb.
    apply storeOk_onTrade; [exact Hok|]. intros t _ Hl.
    eapply triple_weaken; [apply (sellBody_triple b now t Hl Hb) | auto |].
    simpl. tauto.
  - unfold deleteTrade. destruct uid; [|exact Hok].
    pose proof (storeOk_delete (byIdAndUser id s) db Hok) as D.
    destruct (deleteOne (byIdAndUser id s) db) as [db' n]. simpl in D.
    destruct (n =? 0)%nat; exact D.
  - apply storeOk_runSync, Hok.
  - destruct (storeOk_syncStep uid now position (mkCounters 0 0 0) db Hok)
      as (c' & db' & -> & Hok').
    exact Hok'.
Qed.

Lemma reachable_storeOk (db : Store) : reachable db -> storeOk db.
Proof.
  induction 1 as [|op db _ IH]; [apply storeOk_empty | apply storeOk_exec, IH].
Qed.

(** ** The tolerance *)

Lemma eps_pos : 0 < eps.
Proof. reflexivity. Qed.

(** ** Status *)

Lemma find_replaceDoc (ds : list ITrade) (t t' : ITrade) :
  In t ds -> _id t' = _id t ->
  find (fun d => (_id d =? _id t)%nat) (replaceDoc t' ds) = Some t'.
Proof.
  induction ds as [|d ds IH]; simpl; intros Ht E; [contradiction|].
  destruct (Nat.eqb_spec (_id d) (_id t')) as [Ed|Nd]; simpl.
  - rewrite E, Nat.eqb_refl. reflexivity.
  - destruct (Nat.eqb_spec (_id d) (_id t)) as [Ed|_]; [congruence|].
    apply IH; [|exact E]. destruct Ht as [->|Ht]; [congruence | exact Ht].
Qed.

Lemma create_docs (mk : nat -> Date -> ITrade) (now : Date) (db db' : Store)
    (t : ITrade) :
  create mk now db = Some (t, db') ->
  docs db' = (docs db ++ [mk (nextId db) now])%list.
Proof.
  unfold create. destruct (validate _); [|discriminate].
  intro E. injection E as <- <-. reflexivity.
Qed.

Lemma created_keeps_docs (mk : nat -> Date -> ITrade) (now : Date)
    (db db' : Store) (new t t' : ITrade) :
  storeOk db -> (forall id d, _id (mk id d) = id) ->
  create mk now db = Some (new, db') ->
  In t (docs db) -> In t' (docs db') -> _id t' = _id t -> t' = t.
Proof.
  intros (N & B & _) Hid C Ht Ht' E.
  rewrite (create_docs _ _ _ _ _ C) in Ht'. apply in_app_or in Ht'.
  destruct Ht' as [Ht'|[<-|[]]].
  - apply (same_id_same_doc (docs db)); assumption.
  - rewrite Hid in E. rewrite Forall_forall in B. specialize (B t Ht). lia.
Qed.

(** A route on [/trades/:id] whose body never re-opens the document it
    loaded never re-opens any document of the store. *)
Lemma onTrade_keeps_closed (uid : option string) (id : nat) (now : Date)
    (body : Route unit) (db : Store) (t t' : ITrade) :
  storeOk db ->
  (forall d, In d (docs db) -> legsOk d ->
     triple (fun doc => doc = d) body
       (fun _ doc' => _id doc' = _id d
                      /\ (status d = closed -> status doc' = closed))) ->
  In t (docs db) -> status t = closed ->
  In t' (docs (snd (onTrade uid id now body db))) -> _id t' = _id t ->
  status t' = closed.
Proof.
  intros Hok Hbody Ht Hs Ht' E.
  assert (In t' (docs db) -> status t' = closed) as Old.
  { intro I. destruct Hok as (N & _).
    rewrite (same_id_same_doc (docs db) t' t N I Ht E). exact Hs. }
  unfold onTrade in Ht'.
  destruct uid as [u|]; [|auto].
  destruct (findOne (byIdAndUser id u) db) as [d|] eqn:F; [|auto].
  apply find_some in F. destruct F as [Hd _].
  assert (legsOk d) as Ld.
  { destruct Hok as (_ & _ & T & _). rewrite Forall_forall in T.
    apply (T d Hd). }
  specialize (Hbody d Hd Ld d eq_refl).
  destruct (body d) as [[] d'|r]; [|auto].
  destruct Hbody as [Ei Hc].
  unfold save in Ht'. destruct (validate d'); [|auto].
  simpl in Ht'. destruct Hok as (N & _).
  destruct (replaceDoc_split (docs db) d (touch now d') N Hd Ei)
    as (l1 & l2 & D & R).
  rewrite R in Ht'. apply in_app_or in Ht'.
  destruct Ht' as [I|[<-|I]].
  - apply Old. rewrite D. apply in_or_app. left. exact I.
  - simpl in E |- *. apply Hc.
    rewrite (same_id_same_doc (docs db) d t N Hd Ht); [exact Hs | congruence].
  - apply Old. rewrite D. apply in_or_app. right. right. exact I.
Qed.

(** The upsert of a snapshot whose linked document exists leaves that
    document active and without closes, whatever its status was. *)
Lemma upsert_reactivates (db : Store) (uid : string)
    (position : AsterDexPosition.t) (payload : PositionTradePayload.t)
    (now : Date) (existing : ITrade) :
  reachable db ->
  mapPosition position now = Some payload ->
  findOne (byExchangePosition uid (AsterDexPosition.id position)) db
    = Some existing ->
  exists t' : ITrade,
    lookup (_id existing) (exec (OpSyncStep uid position now) db) = Some t'
    /\ status t' = active /\ closes t' = [].
Proof.
  intros R M F.
  destruct (mapPosition_sound position now payload M) as (K & Hc & _).
  exists (touch now (overwrite existing payload now)).
  split; [|split; reflexivity].
  simpl. unfold syncStep. rewrite M. unfold upsertTrade. rewrite K, F.
  unfold save, validate. simpl coin. rewrite Hc. simpl.
  unfold lookup. simpl. apply find_replaceDoc; [|reflexivity].
  apply find_some in F. tauto.
Qed.

(** C3. No operation a user performs by hand (create active, create
    already-closed, edit, add-size, sell, delete) moves a position of a
    reachable store from closed back to active: a position that is closed
    before the operation and still stored after it is closed.  The
    reconciliation upsert is the one operation that does: when the
    snapshot it maps is already linked to a stored position, it leaves
    that position active and without closes. *)
Theorem closed_is_final_for_manual_ops :
  (forall (db : Store) (op : Op) (t t' : ITrade),
      reachable db -> isManual op = true ->
      In t (docs db) -> status t = closed ->
      In t' (docs (exec op db)) -> _id t' = _id t ->
      status t' = closed)
  /\ (forall (db : Store) (uid : string) (position : AsterDexPosition.t)
             (payload : PositionTradePayload.t) (now : Date) (existing : ITrade),
        reachable db ->
        mapPosition position now = Some payload ->
        findOne (byExchangePosition uid (AsterDexPosition.id position)) db
          = Some existing ->
        exists t' : ITrade,
          lookup (_id existing) (exec (OpSyncStep uid position now) db) = Some t'
          /\ status t' = active /\ closes t' = []).
Proof.
  split; [|apply upsert_reactivates].
  intros db op t t' R M Ht Hs Ht' E.
  pose proof (reachable_storeOk db R) as Hok.
  assert (In t' (docs db) -> status t' = closed) as Old.
  { intro I. destruct Hok as (N & _).
    rewrite (same_id_same_doc (docs db) t' t N I Ht E). exact Hs. }
  destruct op; simpl in M, Ht'; try discriminate.
  - unfold createActive in Ht'. destruct uid; [|auto].
    destruct (negb _); [auto|].
    destruct (create _ now db) as [[new db']|] eqn:C; [|auto].
    simpl in Ht'. apply Old.
    assert (t' = t) as ->; [|exact Ht].
    eapply created_keeps_docs;
      [exact Hok | | exact C | exact Ht | exact Ht' | exact E].
    intros; reflexivity.
  - unfold createClosed in Ht'. destruct uid; [|auto].
    destruct (negb _); [auto|].
    destruct (create _ now db) as [[new db']|] eqn:C; [|auto].
    simpl in Ht'. apply Old.
    assert (t' = t) as ->; [|exact Ht].
    eapply created_keeps_docs;
      [exact Hok | | exact C | exact Ht | exact Ht' | exact E].
    intros; reflexivity.
  - unfold editTrade in Ht'. destruct uid as [u|]; [|auto].
    destruct (negb (editTradeSchema b)) eqn:Hb; [auto|].
    apply negb_false_iff in Hb.
    apply (onTrade_keeps_closed (Some u) id now (editBody b) db t t'); auto.
    intros d _ Ld.
    eapply triple_weaken; [apply (editBody_triple b d Hb Ld) | auto |].
    simpl. intros _ doc ((Ei & _) & Es & _). split; [exact Ei | congruence].
  - unfold addSize in Ht'. destruct uid as [u|]; [|auto].
    destruct (negb (addSizeSchema b)) eqn:Hb; [auto|].
    apply negb_false_iff in Hb.
    apply (onTrade_keeps_closed (Some u) id now (addSizeBody b now) db t t'); auto.
    intros d _ Ld.
    eapply triple_weaken; [apply (addSizeBody_triple b now d Ld Hb) | auto |].
    simpl. intros _ doc (Ea & _ & (Ei & _) & _). split; [exact Ei | congruence].
  - unfold sell in Ht'. destruct uid as [u|]; [|auto].
    destruct (negb (sellSchema b)) eqn:Hb; [auto|].
    apply negb_false_iff in Hb.
    apply (onTrade_keeps_closed (Some u) id now (sellBody b now) db t t'); auto.
    intros d _ Ld.
    eapply triple_weaken; [apply (sellBody_triple b now d Ld Hb) | auto |].
    simpl. intros _ doc (Ea & (Ei & _) & _). split; [exact Ei | congruence].
  - unfold deleteTrade in Ht'. destruct uid as [u|]; [|auto].
    unfold deleteOne in Ht'.
    pose proof (removeFirst_incl (byIdAndUser id u) (docs db) t') as I.
    destruct (removeFirst _ (docs db)) as [r n]. simpl in *.
    destruct (n =? 0)%nat; simpl in Ht'; auto.
Qed.

Lemma closed_is_final_for_manual_ops_witness :
  status (firstDoc (exec (OpEdit (Some "u1") 0
            (EditBody.mk (Some "done") None None None None None None None
               None None None) 7%Z) demoSoldOut)) = closed
  /\ exists t' : ITrade,
       lookup 0 (exec (OpSyncStep "u1" demoPosition 7%Z) demoSoldOut) = Some t'
       /\ status t' = active /\ closes t' = [].
Proof.
  split.
  - apply (proj1 closed_is_final_for_manual_ops demoSoldOut
             (OpEdit (Some "u1") 0
                (EditBody.mk (Some "done") None None None None None None None
                   None None None) 7%Z)
             (firstDoc demoSoldOut)).
    + apply reach_exec, reach_exec, reach_empty.
    + reflexivity.
    + vm_compute. left. reflexivity.
    + vm_compute. reflexivity.
    + vm_compute. left. reflexivity.
    + vm_compute. reflexivity.
  - refine (proj2 closed_is_final_for_manual_ops demoSoldOut "u1" demoPosition
              _ 7%Z (firstDoc demoSoldOut) _ _ _).
    + apply reach_exec, reach_exec, reach_empty.
    + vm_compute. reflexivity.
    + vm_compute. reflexivity.
Defined.

(** Over every operation the property fails, at the upsert: the exchange
    position that the user sold out (closed) is active again after the
    next pass over the same feed. *)
Lemma closed_position_reopened_by_sync :
  ~ (forall (db : Store) (op : Op) (t t' : ITrade),
       reachable db ->
       In t (docs db) -> status t = closed ->
       In t' (docs (exec op db)) -> _id t' = _id t ->
       status t' = closed).
Proof.
  intro H.
  specialize (H demoSoldOut (OpSync "u1" (Fetched [demoPosition]) 7%Z)
                (firstDoc demoSoldOut)
                (firstDoc (exec (OpSync "u1" (Fetched [demoPosition]) 7%Z)
                             demoSoldOut))).
  assert (active = closed) as Abs.
  { apply H.
    - apply reach_exec, reach_exec, reach_empty.
    - vm_compute. left. reflexivity.
    - vm_compute. reflexivity.
    - vm_compute. left. reflexivity.
    - vm_compute. reflexivity. }
  discriminate Abs.
Qed.

(** ** Selling *)

Lemma afterSell_closes (b : SellBody.t) (now : Date) (t : ITrade) :
  closes (afterSell b now t) = (closes t ++ [sellClose b now t])%list.
Proof. unfold afterSell. destruct (_ <=? eps); reflexivity. Qed.

Lemma afterSell_status (b : SellBody.t) (now : Date) (t : ITrade) :
  status t = active ->
  status (afterSell b now t)
  = if openCoin (computeTradeAggregates t) - soldCoin b t <=? eps
    then closed else active.
Proof.
  intro Hs. unfold afterSell. destruct (_ <=? eps); simpl; auto.
Qed.

(** A sell body with a percentage above 100 does not pass the schema: the
    route answers 400 and the store is untouched. *)
Lemma percentage_over_100_fails_schema (uid : string) (id : nat)
    (b : SellBody.t) (now : Date) (db : Store) (p : Q) :
  SellBody.percentage b = Some p -> 100 < p ->
  sell (Some uid) id b now db = (Error 400 "Invalid request body", db).
Proof.
  intros Hp Lt. unfold sell.
  assert (sellSchema b = false) as ->; [|reflexivity].
  unfold sellSchema, sellSchemaBase. rewrite Hp. simpl.
  apply Qle_bool_false in Lt. rewrite Lt.
  rewrite !andb_false_r. reflexivity.
Qed.

(** A request by percentage is not clamped: 150 percent of the open coin
    implies 75 coins against 50 open, and the route rejects it with 400;
    nothing is appended.  The numbers are the same in double precision,
    and so is the reply. *)
Lemma sell_percentage_above_100_is_rejected :
  reachable demoLedger
  /\ In (firstDoc demoLedger) (docs demoLedger)
  /\ status (firstDoc demoLedger) = active
  /\ openCoin (computeTradeAggregates (firstDoc demoLedger)) == 50
  /\ requestedCoin (sellPercent 150 120)
       (openCoin (computeTradeAggregates (firstDoc demoLedger))) == 75
  /\ sell (Some "u1") 0 (sellPercent 150 120) 2%Z demoLedger
     = (Error 400 "Invalid request body", demoLedger)
  /\ (let t := F64.opened long 100%float 1000%float (Some 5%float) in
      let b := F64.sellPercent 150%float 120%float in
      F64.openCoin (F64.computeTradeAggregates t) = 50%float
      /\ F64.requestedCoin b (F64.openCoin (F64.computeTradeAggregates t))
         = 75%float
      /\ F64.sell b 2%Z t = F64.Rejected 400 "Invalid request body").
Proof.
  split; [apply reach_exec, reach_empty|].
  split; [vm_compute; left; reflexivity|].
  repeat split; vm_compute; reflexivity.
Qed.

(** ** Rejected edits *)

Lemma onTrade_error_keeps_store (uid : option string) (id : nat) (now : Date)
    (body : Route unit) (db : Store) :
  isError (fst (onTrade uid id now body db)) = true ->
  snd (onTrade uid id now body db) = db.
Proof.
  unfold onTrade.
  destruct uid as [u|]; [|reflexivity].
  destruct (findOne _ db) as [t|]; [|reflexivity].
  destruct (body t) as [[] t'|r]; [|reflexivity].
  destruct (save t' now db) as [[saved db']|]; [|reflexivity].
  simpl. discriminate.
Qed.

(** The entry/exit part of the edit body rejects a closed document that
    does not have exactly one entry and one close. *)
Lemma editBody_rejects (b : EditBody.t) (t : ITrade) :
  closedFieldsProvided b = true ->
  status t = active
  \/ List.length (entries t) <> 1%nat
  \/ List.length (closes t) <> 1%nat ->
  exists msg, editBody b t = Return (Error 400 msg).
Proof.
  intros Hp Hc. unfold editBody, bind at 1, get at 1. rewrite Hp.
  destruct (status t) eqn:Hs; simpl.
  { eexists. reflexivity. }
  destruct Hc as [Hc|Hc]; [discriminate|].
  unfold bind, when, assign, ret, get.
  assert (forall d, status d = closed -> entries d = entries t ->
                    closes d = closes t ->
                    exists msg, editClosedLegs b d = Return (Error 400 msg)) as K.
  { intros d Sd Ed Cd. unfold editClosedLegs, bind, get. rewrite Ed, Cd.
    destruct ((List.length (entries t) =? 1)%nat
              && (List.length (closes t) =? 1)%nat) eqn:Len; simpl.
    - apply andb_prop in Len. destruct Len as [L1 L2].
      apply Nat.eqb_eq in L1, L2. destruct Hc; contradiction.
    - eexists. reflexivity. }
  destruct (isSome (EditBody.comment b)),
           (EditBody.stopLossPrice b), (EditBody.takeProfitPrice b);
    simpl; rewrite ?Hs; simpl; apply K; auto.
Qed.

(** C10. An edit request that is answered with an error leaves the store
    as it was, whatever the request carried: comment, stop-loss and
    take-profit included.  In particular a valid request of the owner that
    supplies an entry/exit field is answered with a 400, and changes
    nothing, when the position is active or does not have exactly one
    entry and one close. *)
Theorem rejected_edit_changes_nothing :
  (forall (uid : option string) (id : nat) (b : EditBody.t) (now : Date)
          (db : Store),
      isError (fst (editTrade uid id b now db)) = true ->
      snd (editTrade uid id b now db) = db)
  /\ (forall (db : Store) (t : ITrade) (b : EditBody.t) (now : Date),
        reachable db -> In t (docs db) ->
        editTradeSchema b = true -> closedFieldsProvided b = true ->
        status t = active
        \/ List.length (entries t) <> 1%nat
        \/ List.length (closes t) <> 1%nat ->
        exists msg,
          editTrade (Some (userId t)) (_id t) b now db = (Error 400 msg, db)).
Proof.
  split.
  - intros uid id b now db. unfold editTrade.
    destruct uid as [u|]; [|reflexivity].
    destruct (negb (editTradeSchema b)); [reflexivity|].
    apply onTrade_error_keeps_store.
  - intros db t b now R Ht Hb Hp Hc.
    destruct (reachable_storeOk db R) as (N & _).
    destruct (editBody_rejects b t Hp Hc) as (msg & E).
    exists msg. unfold editTrade. rewrite Hb. simpl.
    unfold onTrade, findOne. rewrite (find_byIdAndUser _ _ N Ht), E.
    reflexivity.
Qed.

Lemma rejected_edit_changes_nothing_witness :
  snd (editTrade (Some "u1") 0
         (EditBody.mk (Some "note") (Some (Some 90)) None None None (Some 110)
            None None None None None) 3%Z demoLedger)
  = demoLedger
  /\ exists msg,
       editTrade (Some "u1") 0
         (EditBody.mk (Some "note") (Some (Some 90)) None None None (Some 110)
            None None None None None) 3%Z demoLedger
       = (Error 400 msg, demoLedger).
Proof.
  split.
  - apply (proj1 rejected_edit_changes_nothing).
    vm_compute. reflexivity.
  - apply (proj2 rejected_edit_changes_nothing demoLedger (firstDoc demoLedger)).
    + apply reach_exec, reach_empty.
    + vm_compute. left. reflexivity.
    + reflexivity.
    + reflexivity.
    + left. reflexivity.
Defined.

(** ** A reconciliation pass *)

Lemma syncLoop_counts (uid : string) (now : Date)
    (positions : list AsterDexPosition.t) (c : Counters) (db : Store) :
  storeOk db ->
  exists c' db',
    syncLoop uid now positions c db = (Some c', db')
    /\ storeOk db'
    /\ nSkipped c' = (nSkipped c + dropped now positions)%nat
    /\ (nCreated c' + nUpdated c'
        = nCreated c + nUpdated c + mapped now positions)%nat.
Proof.
  revert c db. unfold dropped, mapped.
  induction positions as [|p ps IH]; intros c db Hok; simpl.
  - exists c, db. split; [reflexivity|]. split; [exact Hok|]. split; lia.
  - unfold syncStep.
    destruct (mapPosition p now) as [payload|] eqn:M; simpl.
    + destruct (upsertTrade_mapped uid p now now payload db Hok M)
        as (r & db1 & -> & Hok1 & _).
      destruct r;
        match goal with |- context [syncLoop _ _ _ ?c1 _] =>
          destruct (IH c1 db1 Hok1) as (c' & db' & -> & Hok' & S & CU)
        end;
        exists c', db'; simpl in *;
        (split; [reflexivity|]; split; [exact Hok'|]; split; lia).
    + match goal with |- context [syncLoop _ _ _ ?c1 _] =>
        destruct (IH c1 db Hok) as (c' & db' & -> & Hok' & S & CU)
      end.
      exists c', db'. simpl in *.
      split; [reflexivity|]. split; [exact Hok'|]. split; lia.
Qed.

(** ** Idempotence of the upsert *)

Lemma runSync_single (uid : string) (position : AsterDexPosition.t)
    (now : Date) (payload : PositionTradePayload.t) (db : Store) :
  mapPosition position now = Some payload ->
  forall r db',
    upsertTrade uid payload now db = Some (r, db') ->
    runSync (mkService uid false) (Fetched [position]) now db
    = (match r with
       | Created => mkStats 1 1 0 0 false
       | Updated => mkStats 1 0 1 0 false
       end, mkService uid false, db').
Proof.
  intros M r db' U. unfold runSync, syncPositions. simpl.
  unfold syncStep. rewrite M, U. destruct r; reflexivity.
Qed.

Lemma mapPosition_any_time (position : AsterDexPosition.t) (now now' : Date)
    (payload : PositionTradePayload.t) :
  mapPosition position now = Some payload ->
  exists payload',
    mapPosition position now' = Some payload'
    /\ PositionTradePayload.positionId payload'
       = PositionTradePayload.positionId payload.
Proof.
  unfold mapPosition.
  destruct (isEmpty (AsterDexPosition.id position)); [discriminate|].
  destruct (Qeq_bool _ 0); [discriminate|].
  destruct (negb (AsterDexPosition.entryPrice position >? 0)); [discriminate|].
  destruct (isEmpty (_ ?? _)); [discriminate|].
  destruct (isEmpty (toUpperCase _)); [discriminate|].
  match goal with |- context [if negb (?i >? 0) then None else _] =>
    destruct (negb (i >? 0)); [discriminate|] end.
  intro E. injection E as <-. eexists. split; reflexivity.
Qed.

(** C7. Syncing the same snapshot twice: for a snapshot that the mapping
    accepts and a reachable store, after the first pass and after the
    second the store holds exactly one position under the key (user,
    exchange, external position id); the second pass counts the snapshot
    as updated and not as created; and the first pass counts it as created
    when the store held no position under the key. *)
Theorem upsert_twice_keeps_one_position :
  forall (db : Store) (uid : string) (position : AsterDexPosition.t)
         (payload : PositionTradePayload.t) (now1 now2 : Date),
    reachable db ->
    mapPosition position now1 = Some payload ->
    let svc := mkService uid false in
    let key := AsterDexPosition.id position in
    let run1 := runSync svc (Fetched [position]) now1 db in
    let run2 := runSync svc (Fetched [position]) now2 (snd run1) in
    linkedCount uid key (snd run1) = 1%nat
    /\ linkedCount uid key (snd run2) = 1%nat
    /\ fst (fst run2) = mkStats 1 0 1 0 false
    /\ (linkedCount uid key db = 0%nat ->
        fst (fst run1) = mkStats 1 1 0 0 false).
Proof.
  intros db uid position payload now1 now2 R M1. cbv zeta.
  pose proof (reachable_storeOk db R) as Hok.
  destruct (mapPosition_sound position now1 payload M1) as (K1 & _).
  destruct (upsertTrade_mapped uid position now1 now1 payload db Hok M1)
    as (r1 & db1 & U1 & Hok1 & C1 & Cr1).
  rewrite (runSync_single uid position now1 payload db M1 r1 db1 U1).
  simpl snd. simpl fst.
  destruct (mapPosition_any_time position now1 now2 payload M1)
    as (payload2 & M2 & K2).
  destruct (upsertTrade_mapped uid position now2 now2 payload2 db1 Hok1 M2)
    as (r2 & db2 & U2 & _ & C2 & Cr2).
  rewrite (runSync_single uid position now2 payload2 db1 M2 r2 db2 U2).
  simpl snd. simpl fst.
  rewrite K2, K1 in *.
  split; [exact C1|]. split; [exact C2|]. split.
  - destruct r2; [|reflexivity].
    assert (linkedCount uid (AsterDexPosition.id position) db1 = 0%nat) as Z
      by (apply Cr2; reflexivity).
    rewrite C1 in Z. discriminate.
  - intro Z. apply Cr1 in Z. rewrite Z. reflexivity.
Qed.

Lemma upsert_twice_keeps_one_position_witness :
  linkedCount "u1" "BTCUSDT:BOTH" demoSynced = 1%nat
  /\ linkedCount "u1" "BTCUSDT:BOTH"
       (snd (runSync (mkService "u1" false) (Fetched [demoPosition]) 9%Z demoSynced))
     = 1%nat
  /\ fst (fst (runSync (mkService "u1" false) (Fetched [demoPosition]) 9%Z demoSynced))
     = mkStats 1 0 1 0 false
  /\ (linkedCount "u1" "BTCUSDT:BOTH" emptyStore = 0%nat ->
      fst (fst (runSync (mkService "u1" false) (Fetched [demoPosition]) 5%Z emptyStore))
      = mkStats 1 1 0 0 false).
Proof.
  refine (upsert_twice_keeps_one_position emptyStore "u1" demoPosition _ 5%Z 9%Z
            reach_empty _).
  vm_compute. reflexivity.
Defined.

(** ** Single flight *)

Lemma setNth_passes (i : nat) (x old : Call) (l : list Call) :
  nth_error l i = Some old ->
  (List.length (filter inFlight (setNth i x l)) + (if inFlight old then 1 else 0)
   = List.length (filter inFlight l) + (if inFlight x then 1 else 0))%nat.
Proof.
  revert i. induction l as [|a l IH]; intros [|i] H; simpl in *;
    try discriminate.
  - injection H as ->. destruct (inFlight old), (inFlight x); simpl; lia.
  - specialize (IH i H). destruct (inFlight a); simpl; lia.
Qed.

(** The flag is up exactly while one call is between the guard and its
    return. *)
Lemma flag_counts_passes (uid : string) (db : Store) (p : Process) :
  runs uid db p ->
  passes p = if syncing (service p) then 1%nat else 0%nat.
Proof.
  induction 1 as [|p e p' _ IH F]; [reflexivity|].
  unfold passes in *.
  destruct e as [|i feed now|i]; simpl in F.
  - injection F as <-. unfold invoke.
    destruct (syncing (service p)) eqn:S; simpl;
      rewrite ?S, filter_app, length_app; simpl; lia.
  - unfold fetchSettles in F.
    destruct (nth_error (calls p) i) as [[| |]|] eqn:N; try discriminate.
    destruct feed as [positions|]; injection F as <-; simpl;
      match goal with |- context [setNth i ?x _] =>
        pose proof (setNth_passes i x _ _ N) as P end;
      simpl in P; destruct (syncing (service p)); lia.
  - unfold resume in F.
    destruct (nth_error (calls p) i) as [[|now total todo c|]|] eqn:N;
      try discriminate.
    destruct todo as [|position rest].
    + injection F as <-. simpl.
      pose proof (setNth_passes i (Settled (statsOf total c)) _ _ N) as P.
      simpl in P. destruct (syncing (service p)); lia.
    + destruct (syncStep _ now position c (store p)) as [[c' db']|];
        injection F as <-; simpl;
        match goal with |- context [setNth i ?x _] =>
          pose proof (setNth_passes i x _ _ N) as P end;
        simpl in P; destruct (syncing (service p)); lia.
Qed.

(** A call resumed on its own until it returns does what [runSync] does
    in one piece. *)
Lemma resumes_syncLoop (uid : string) (now : Date) (total f : nat)
    (positions : list AsterDexPosition.t) (c : Counters) (db : Store) :
  storeOk db ->
  exists c' db',
    syncLoop uid now positions c db = (Some c', db')
    /\ resumes (S (List.length positions)) 0
         {| service := mkService uid true; store := db;
            calls := [Looping now total positions c]; fetches := f |}
       = Some {| service := mkService uid false; store := db';
                 calls := [Settled (statsOf total c')]; fetches := f |}.
Proof.
  revert c db. induction positions as [|p ps IH]; intros c db Hok.
  - exists c, db. split; reflexivity.
  - destruct (storeOk_syncStep uid now p c db Hok) as (c1 & db1 & E & Hok1).
    destruct (IH c1 db1 Hok1) as (c' & db' & L & Rs).
    exists c', db'. split.
    + simpl. rewrite E. exact L.
    + change (resumes (S (List.length (p :: ps))) 0 ?q)
        with (match resume 0 q with
              | Some p' => resumes (S (List.length ps)) 0 p'
              | None => None
              end).
      unfold resume at 1. simpl nth_error. cbv iota. simpl userObjectId.
      simpl store. rewrite E. exact Rs.
Qed.

Lemma runSync_as_resumptions (uid : string) (positions : list AsterDexPosition.t)
    (now : Date) (db : Store) :
  storeOk db ->
  match fetchSettles 0 (Fetched positions) now (invoke (bootProcess uid db)) with
  | Some p =>
      resumes (S (List.length positions)) 0 p
      = Some {| service := mkService uid false;
                store := snd (runSync (mkService uid false) (Fetched positions) now db);
                calls := [Settled (fst (fst (runSync (mkService uid false)
                                               (Fetched positions) now db)))];
                fetches := 1 |}
  | None => False
  end.
Proof.
  intro Hok. unfold invoke, bootProcess, fetchSettles. simpl.
  destruct (resumes_syncLoop uid now (List.length positions) 1 positions
              (mkCounters 0 0 0) db Hok) as (c' & db' & L & Rs).
  unfold withFlag. simpl. unfold runSync, syncPositions. simpl. rewrite L.
  exact Rs.
Qed.

(** C6. A call of [runSync] that finds the flag up returns at once with
    totalPositions, created, updated and skipped all 0 and concurrent
    true; it adds nothing to the number of fetches and leaves the store
    and the flag as they are.  Of two calls made back to back on a fresh
    service only the first fetches.  And however calls, settled fetches
    and loop iterations interleave, at most one call is between the guard
    and its return at any time. *)
Theorem runSync_is_single_flight :
  (forall (svc : Service) (feed : Feed) (now : Date) (db : Store),
      syncing svc = true ->
      runSync svc feed now db = (mkStats 0 0 0 0 true, svc, db))
  /\ (forall p : Process,
        syncing (service p) = true ->
        invoke p
        = {| service := service p; store := store p;
             calls := (calls p ++ [Settled (mkStats 0 0 0 0 true)])%list;
             fetches := fetches p |})
  /\ (forall (uid : string) (db : Store),
        invoke (invoke (bootProcess uid db))
        = {| service := mkService uid true; store := db;
             calls := [Fetching; Settled (mkStats 0 0 0 0 true)];
             fetches := 1 |})
  /\ (forall (uid : string) (db : Store) (p : Process),
        runs uid db p -> (passes p <= 1)%nat).
Proof.
  split; [|split; [|split]].
  - intros svc feed now db Hs. unfold runSync. rewrite Hs. reflexivity.
  - intros p Hs. unfold invoke. rewrite Hs. reflexivity.
  - intros uid db. reflexivity.
  - intros uid db p R. rewrite (flag_counts_passes uid db p R).
    destruct (syncing (service p)); lia.
Qed.

Lemma runSync_is_single_flight_witness :
  runSync (mkService "u1" true) (Fetched [demoPosition]) 5%Z demoLedger
  = (mkStats 0 0 0 0 true, mkService "u1" true, demoLedger)
  /\ (passes (invoke (invoke (bootProcess "u1" demoLedger))) <= 1)%nat.
Proof.
  destruct runSync_is_single_flight as (A & _ & _ & D).
  split.
  - apply (A (mkService "u1" true)). reflexivity.
  - apply (D "u1" demoLedger).
    apply (runs_fire _ _ (invoke (bootProcess "u1" demoLedger)) Invoke);
      [|reflexivity].
    apply (runs_fire _ _ (bootProcess "u1" demoLedger) Invoke);
      [apply runs_boot | reflexivity].
Defined.

(* ------------------------------------------------------------------ *)
(** * Further properties *)

(** ** The averages of the aggregation *)




Lemma entryStep_fields (acc : EntryTotals) (e : ITradeEntry) :
  accMarginUsd (entryStep acc e) = accMarginUsd acc + amountInvestedUsd e
  /\ accEntryCoin (entryStep acc e) = accEntryCoin acc + entryCoin e
  /\ accNotionalUsd (entryStep acc e) = accNotionalUsd acc + entryNotional e.
Proof. repeat split. Qed.

(** The loop adds, to each accumulator, the sum of the entries' margins,
    coins and notionals. *)
Lemma entryLoop_sums (es : list ITradeEntry) (acc : EntryTotals) :
  accMarginUsd (fold_left entryStep es acc)
    == accMarginUsd acc + sumQ (map amountInvestedUsd es)
  /\ accEntryCoin (fold_left entryStep es acc)
     == accEntryCoin acc + sumQ (map entryCoin es)
  /\ accNotionalUsd (fold_left entryStep es acc)
     == accNotionalUsd acc + sumQ (map entryNotional es).
Proof.
  revert acc. induction es as [|e es IH]; intro acc.
  - simpl. repeat split; ring.
  - cbn [fold_left map sumQ fold_right].
    destruct (IH (entryStep acc e)) as (M & C & N).
    destruct (entryStep_fields acc e) as (Em & Ec & En).
    rewrite M, C, N, Em, Ec, En. fold (sumQ (map amountInvestedUsd es)).
    fold (sumQ (map entryCoin es)). fold (sumQ (map entryNotional es)).
    repeat split; ring.
Qed.

Lemma entryLoop_totals (es : list ITradeEntry) :
  accMarginUsd (entryLoop es) == sumQ (map amountInvestedUsd es)
  /\ accEntryCoin (entryLoop es) == sumQ (map entryCoin es)
  /\ accNotionalUsd (entryLoop es) == sumQ (map entryNotional es).
Proof.
  unfold entryLoop. destruct (entryLoop_sums es (mkTotals 0 0 0)) as (M & C & N).
  rewrite M, C, N. simpl. repeat split; ring.
Qed.

















(** ** What a sell records *)

Lemma afterSell_entries (b : SellBody.t) (now : Date) (t : ITrade) :
  entries (afterSell b now t) = entries t /\ side (afterSell b now t) = side t.
Proof. unfold afterSell. destruct (_ <=? eps); split; reflexivity. Qed.

Lemma stored_legsOk (db : Store) (t : ITrade) :
  reachable db -> In t (docs db) -> legsOk t.
Proof.
  intros R Ht. destruct (reachable_storeOk db R) as (_ & _ & T & _).
  rewrite Forall_forall in T. apply (T t Ht).
Qed.

(** ** Adding size *)

Lemma addSizeBody_ok (b : AddSizeBody.t) (now : Date) (t : ITrade) :
  status t = active ->
  addSizeBody b now t
  = Continue tt
      (setEntries
         (entries t ++
          [ {| entryPrice := AddSizeBody.entryPrice b;
               amountInvestedUsd := AddSizeBody.amountInvestedUsd b;
               leverage := AddSizeBody.leverage b;
               entryDate := AddSizeBody.entryDate b ?? now |} ]) t).
Proof.
  intro Hs. unfold addSizeBody, bind, get, assign. rewrite Hs. reflexivity.
Qed.

(** ** Replies and the store *)

Lemma removeFirst_none (p : ITrade -> bool) (ds : list ITrade) :
  snd (removeFirst p ds) = 0%nat -> fst (removeFirst p ds) = ds.
Proof.
  induction ds as [|d ds IH]; simpl; [reflexivity|].
  destruct (p d); [discriminate|].
  destruct (removeFirst p ds) as [r n]. simpl in *.
  intro E. rewrite (IH E). reflexivity.
Qed.

(** X12. Every route call that is answered with an error (400, 401, 404
    or 500) leaves the store exactly as it was. *)
Theorem error_reply_means_no_write :
  forall (op : Op) (db : Store) (r : Reply),
    replyOf op db = Some r -> isError r = true -> exec op db = db.
Proof.
  intros op db r Hr He.
  destruct op; simpl in Hr; try discriminate; injection Hr as <-; simpl.
  - unfold createActive in *. destruct uid; [|reflexivity].
    destruct (negb _); [reflexivity|].
    destruct (create _ now db) as [[t db']|]; [discriminate | reflexivity].
  - unfold createClosed in *. destruct uid; [|reflexivity].
    destruct (negb _); [reflexivity|].
    destruct (create _ now db) as [[t db']|]; [discriminate | reflexivity].
  - unfold editTrade in *. destruct uid; [|reflexivity].
    destruct (negb _); [reflexivity|].
    apply onTrade_error_keeps_store. exact He.
  - unfold addSize in *. destruct uid; [|reflexivity].
    destruct (negb _); [reflexivity|].
    apply onTrade_error_keeps_store. exact He.
  - unfold sell in *. destruct uid; [|reflexivity].
    destruct (negb _); [reflexivity|].
    apply onTrade_error_keeps_store. exact He.
  - unfold deleteTrade, deleteOne in *. destruct uid as [u|]; [|reflexivity].
    pose proof (removeFirst_none (byIdAndUser id u) (docs db)) as K.
    destruct (removeFirst (byIdAndUser id u) (docs db)) as [ds n].
    simpl in K. destruct n; simpl in *; [|discriminate].
    rewrite (K eq_refl). destruct db; reflexivity.
Qed.

Lemma error_reply_means_no_write_witness :
  exec (OpSell (Some "u1") 0 (sellPercent 50 120) 8%Z) demoSoldOut = demoSoldOut.
Proof.
  apply (error_reply_means_no_write
           (OpSell (Some "u1") 0 (sellPercent 50 120) 8%Z) demoSoldOut
           (Error 400 "Trade already closed")).
  - vm_compute. reflexivity.
  - reflexivity.
Defined.

(** ** One user's calls and another user's positions *)

Lemma removeFirst_others (u : string) (id : nat) (ds : list ITrade)
    (d : ITrade) :
  userId d <> u ->
  (In d (fst (removeFirst (byIdAndUser id u) ds)) <-> In d ds).
Proof.
  intro Hu. induction ds as [|a ds IH]; simpl; [tauto|].
  destruct (byIdAndUser id u a) eqn:P.
  - simpl. unfold byIdAndUser in P. apply andb_prop in P.
    destruct P as [_ P]. apply String.eqb_eq in P.
    split; [auto|]. intros [->|H]; [contradiction | exact H].
  - destruct (removeFirst (byIdAndUser id u) ds) as [r n]. simpl in *.
    rewrite IH. tauto.
Qed.

Lemma onTrade_others (u : string) (id : nat) (now : Date) (body : Route unit)
    (db : Store) (d : ITrade) :
  storeOk db ->
  (forall t, In t (docs db) -> legsOk t ->
     triple (fun doc => doc = t) body (fun _ doc' => frame t doc')) ->
  userId d <> u ->
  (In d (docs (snd (onTrade (Some u) id now body db))) <-> In d (docs db)).
Proof.
  intros Hok Hbody Hu. unfold onTrade.
  destruct (findOne (byIdAndUser id u) db) as [t|] eqn:F; [|tauto].
  apply find_some in F. destruct F as [Ht Hp].
  unfold byIdAndUser in Hp. apply andb_prop in Hp. destruct Hp as [_ Hp].
  apply String.eqb_eq in Hp.
  assert (legsOk t) as Lt.
  { destruct Hok as (_ & _ & T & _). rewrite Forall_forall in T.
    apply (T t Ht). }
  specialize (Hbody t Ht Lt t eq_refl).
  destruct (body t) as [[] t'|r]; [|tauto].
  destruct Hbody as (Fi & Fu & _).
  unfold save. destruct (validate t'); [|tauto].
  simpl. destruct Hok as (N & _).
  destruct (replaceDoc_split (docs db) t (touch now t') N Ht Fi)
    as (l1 & l2 & D & R).
  rewrite R, D, !in_app_iff. simpl.
  split; intros [H|[H|H]]; auto.
  - exfalso. apply Hu. rewrite <- H. simpl. congruence.
  - exfalso. apply Hu. rewrite <- H. exact Hp.
Qed.

(** X13. A route call made for one user never touches the positions of
    another: after any call for user [u], the documents owned by other
    users are exactly the ones that were there before. *)
Theorem routes_leave_other_users_alone :
  forall (db : Store) (op : Op) (u : string) (d : ITrade),
    reachable db -> actor op = Some u -> userId d <> u ->
    (In d (docs (exec op db)) <-> In d (docs db)).
Proof.
  intros db op u d R A Hu.
  pose proof (reachable_storeOk db R) as Hok.
  destruct op; simpl in A; try discriminate; subst uid; simpl.
  - unfold createActive. destruct (negb _); [tauto|].
    destruct (create _ now db) as [[t db']|] eqn:C; [|tauto].
    simpl. rewrite (create_docs _ _ _ _ _ C), in_app_iff. simpl.
    split; [|auto]. intros [H|[H|[]]]; [exact H|].
    exfalso. apply Hu. rewrite <- H. reflexivity.
  - unfold createClosed. destruct (negb _); [tauto|].
    destruct (create _ now db) as [[t db']|] eqn:C; [|tauto].
    simpl. rewrite (create_docs _ _ _ _ _ C), in_app_iff. simpl.
    split; [|auto]. intros [H|[H|[]]]; [exact H|].
    exfalso. apply Hu. rewrite <- H. reflexivity.
  - unfold editTrade. destruct (negb (editTradeSchema b)) eqn:Hb; [tauto|].
    apply negb_false_iff in Hb.
    apply onTrade_others; auto. intros t _ Lt.
    eapply triple_weaken; [apply (editBody_triple b t Hb Lt) | auto |].
    simpl. tauto.
  - unfold addSize. destruct (negb (addSizeSchema b)) eqn:Hb; [tauto|].
    apply negb_false_iff in Hb.
    apply onTrade_others; auto. intros t _ Lt.
    eapply triple_weaken; [apply (addSizeBody_triple b now t Lt Hb) | auto |].
    simpl. tauto.
  - unfold sell. destruct (negb (sellSchema b)) eqn:Hb; [tauto|].
    apply negb_false_iff in Hb.
    apply onTrade_others; auto. intros t _ Lt.
    eapply triple_weaken; [apply (sellBody_triple b now t Lt Hb) | auto |].
    simpl. tauto.
  - unfold deleteTrade, deleteOne.
    pose proof (removeFirst_others u id (docs db) d Hu) as K.
    destruct (removeFirst (byIdAndUser id u) (docs db)) as [ds n].
    simpl in K. destruct (n =? 0)%nat; exact K.
Qed.

Lemma routes_leave_other_users_alone_witness :
  In (firstDoc demoLedger) (docs (exec (OpDelete (Some "u2") 0) demoLedger))
  <-> In (firstDoc demoLedger) (docs demoLedger).
Proof.
  apply (routes_leave_other_users_alone demoLedger (OpDelete (Some "u2") 0) "u2").
  - apply reach_exec, reach_empty.
  - reflexivity.
  - vm_compute. discriminate.
Defined.

(** ** Deleting and creating *)

Lemma removeFirst_owner (ds : list ITrade) (t : ITrade) :
  NoDup (map _id ds) -> In t ds ->
  snd (removeFirst (byIdAndUser (_id t) (userId t)) ds) = 1%nat
  /\ (forall d, In d (fst (removeFirst (byIdAndUser (_id t) (userId t)) ds))
                <-> In d ds /\ _id d <> _id t).
Proof.
  induction ds as [|a ds IH]; simpl; intros N Ht; [contradiction|].
  inversion N as [|? ? Hn N']; subst.
  unfold byIdAndUser at 1 3.
  destruct Ht as [->|Ht].
  - rewrite Nat.eqb_refl, String.eqb_refl. simpl. split; [reflexivity|].
    intro d. split.
    + intro H. split; [auto|]. intro E. apply Hn. rewrite <- E.
      apply in_map. exact H.
    + intros [[<-|H] Ne]; [congruence | exact H].
  - destruct (Nat.eqb_spec (_id a) (_id t)) as [E|Ne]; simpl.
    + exfalso. apply Hn. rewrite E. apply in_map. exact Ht.
    + destruct (IH N' Ht) as [C K].
      destruct (removeFirst (byIdAndUser (_id t) (userId t)) ds) as [r n].
      simpl in *. split; [exact C|]. intro d. rewrite K.
      split.
      * intros [<-|[H Hd]]; auto.
      * intros [[<-|H] Hd]; auto.
Qed.

Lemma lookup_absent (id : nat) (ds : list ITrade) :
  (forall d, In d ds -> _id d <> id) ->
  find (fun d => (_id d =? id)%nat) ds = None.
Proof.
  induction ds as [|a ds IH]; simpl; intro H; [reflexivity|].
  destruct (Nat.eqb_spec (_id a) id) as [E|_].
  - exfalso. exact (H a (or_introl eq_refl) E).
  - apply IH. intros d Hd. apply H. right. exact Hd.
Qed.

Lemma removeFirst_absent (u : string) (id : nat) (ds : list ITrade) :
  (forall d, In d ds -> _id d <> id) ->
  removeFirst (byIdAndUser id u) ds = (ds, 0%nat).
Proof.
  induction ds as [|a ds IH]; simpl; intro Gone; [reflexivity|].
  unfold byIdAndUser at 1.
  destruct (Nat.eqb_spec (_id a) id) as [E|_].
  - exfalso. exact (Gone a (or_introl eq_refl) E).
  - simpl. rewrite IH; [reflexivity|]. intros d Hd. apply Gone. right. exact Hd.
Qed.

Lemma deleteTrade_absent (u : string) (id : nat) (db : Store) :
  (forall d, In d (docs db) -> _id d <> id) ->
  deleteTrade (Some u) id db = (Error 404 "Trade not found", db).
Proof.
  intro Gone. unfold deleteTrade, deleteOne.
  rewrite (removeFirst_absent u id (docs db) Gone). simpl.
  destruct db; reflexivity.
Qed.

(** X14. Deleting a stored position as its owner answers ok, removes that
    document and no other, and a second delete of the same id answers 404
    without changing anything. *)
Theorem delete_removes_exactly_one :
  forall (db : Store) (t : ITrade),
    reachable db -> In t (docs db) ->
    let db' := snd (deleteTrade (Some (userId t)) (_id t) db) in
    fst (deleteTrade (Some (userId t)) (_id t) db) = SentOk
    /\ lookup (_id t) db' = None
    /\ (forall d, In d (docs db') <-> In d (docs db) /\ _id d <> _id t)
    /\ deleteTrade (Some (userId t)) (_id t) db'
       = (Error 404 "Trade not found", db').
Proof.
  intros db t R Ht db'.
  destruct (reachable_storeOk db R) as (N & _).
  destruct (removeFirst_owner (docs db) t N Ht) as [C K].
  assert (fst (deleteTrade (Some (userId t)) (_id t) db) = SentOk
          /\ docs db' = fst (removeFirst (byIdAndUser (_id t) (userId t)) (docs db)))
    as [E1 Ed].
  { subst db'. unfold deleteTrade, deleteOne.
    destruct (removeFirst (byIdAndUser (_id t) (userId t)) (docs db)) as [ds n].
    simpl in C. subst n. simpl. split; reflexivity. }
  assert (forall d, In d (docs db') -> _id d <> _id t) as Gone
    by (intros d Hd; rewrite Ed in Hd; apply K; exact Hd).
  split; [exact E1|]. split; [apply lookup_absent; exact Gone|].
  split; [intro d; rewrite Ed; apply K|].
  apply deleteTrade_absent. exact Gone.
Qed.

Lemma delete_removes_exactly_one_witness :
  let db' := snd (deleteTrade (Some "u1") 0 demoLedger) in
  fst (deleteTrade (Some "u1") 0 demoLedger) = SentOk
  /\ lookup 0 db' = None
  /\ (forall d, In d (docs db') <-> In d (docs demoLedger) /\ _id d <> 0%nat)
  /\ deleteTrade (Some "u1") 0 db' = (Error 404 "Trade not found", db').
Proof.
  apply (delete_removes_exactly_one demoLedger (firstDoc demoLedger)).
  - apply reach_exec, reach_empty.
  - vm_compute. left. reflexivity.
Defined.

Lemma lookup_appended (db : Store) (t : ITrade) :
  storeOk db -> _id t = nextId db ->
  find (fun d => (_id d =? nextId db)%nat) (docs db ++ [t]) = Some t.
Proof.
  intros (_ & B & _) E.
  induction (docs db) as [|a ds IH]; simpl.
  - rewrite E, Nat.eqb_refl. reflexivity.
  - inversion B as [|? ? Ha B']; subst.
    destruct (Nat.eqb_spec (_id a) (nextId db)) as [Ea|_]; [lia|].
    apply IH. exact B'.
Qed.

Lemma single_entry_totals (e : ITradeEntry) :
  accMarginUsd (entryLoop [e]) == amountInvestedUsd e
  /\ accEntryCoin (entryLoop [e]) == entryCoin e
  /\ accNotionalUsd (entryLoop [e]) == entryNotional e.
Proof.
  destruct (entryLoop_totals [e]) as (M & C & N). rewrite M, C, N. simpl.
  repeat split; ring.
Qed.

(** X15. Opening a position with a valid body and a coin symbol of plain
    characters (below 128) that is not blank answers 201 with a new
    active document for the caller, under a fresh id and after the
    existing documents, with the symbol trimmed and in upper case, one
    entry, no close, and an open coin of margin times leverage over
    price. *)
Theorem createActive_opens_a_position :
  forall (db : Store) (u : string) (b : ActiveBody.t) (now : Date),
    reachable db -> createActiveTradeSchema b = true ->
    isAscii (ActiveBody.coin b) = true ->
    hasInk (ActiveBody.coin b) = true ->
    exists t' : ITrade,
      createActive (Some u) b now db
      = (sendTrade 201 t',
         {| docs := (docs db ++ [t'])%list; nextId := S (nextId db) |})
      /\ lookup (nextId db) (snd (createActive (Some u) b now db)) = Some t'
      /\ _id t' = nextId db /\ userId t' = u
      /\ status t' = active /\ side t' = ActiveBody.side b
      /\ coin t' = castCoin (ActiveBody.coin b)
      /\ List.length (entries t') = 1%nat /\ closes t' = []
      /\ openCoin (computeTradeAggregates t')
         == ActiveBody.amountInvestedUsd b * (ActiveBody.leverage b ?? 1)
            / ActiveBody.entryPrice b.
Proof.
  intros db u b now R Hb _ Hk.
  pose proof (reachable_storeOk db R) as Hok.
  unfold createActive. rewrite Hb. simpl negb. cbv iota.
  unfold create, validate. cbn [coin newTrade].
  rewrite isEmpty_castCoin, Hk. simpl negb. cbv iota.
  eexists. split; [reflexivity|].
  split; [unfold lookup; simpl; apply lookup_appended; [exact Hok | reflexivity]|].
  repeat (split; [reflexivity|]).
  pose proof (body_entryOk b (ActiveBody.entryDate b ?? now) Hb) as Oe.
  pose proof (entryCoin_pos _ Oe) as Pc.
  rewrite openCoin_eq, totalEntryCoin_entries. unfold totalClosedCoin.
  cbn [entries closes newTrade]. change (fst (closeLoop [])) with 0.
  destruct (single_entry_totals
              {| entryPrice := ActiveBody.entryPrice b;
                 amountInvestedUsd := ActiveBody.amountInvestedUsd b;
                 leverage := ActiveBody.leverage b;
                 entryDate := ActiveBody.entryDate b ?? now |}) as (_ & C & _).
  rewrite C. rewrite Q.max_l by lra. unfold entryCoin, entryNotional. simpl. ring.
Qed.

Lemma createActive_opens_a_position_witness :
  exists t' : ITrade,
    createActive (Some "u2") demoActive 9%Z demoLedger
    = (sendTrade 201 t',
       {| docs := (docs demoLedger ++ [t'])%list; nextId := S (nextId demoLedger) |})
    /\ lookup (nextId demoLedger) (snd (createActive (Some "u2") demoActive 9%Z demoLedger))
       = Some t'
    /\ _id t' = nextId demoLedger /\ userId t' = "u2"
    /\ status t' = active /\ side t' = long
    /\ coin t' = castCoin "btc"
    /\ List.length (entries t') = 1%nat /\ closes t' = []
    /\ openCoin (computeTradeAggregates t') == 1000 * (Some 5 ?? 1) / 100.
Proof.
  apply (createActive_opens_a_position demoLedger "u2" demoActive 9%Z).
  - apply reach_exec, reach_empty.
  - reflexivity.
  - reflexivity.
  - reflexivity.
Defined.



(** ** The shape of stored positions *)

Lemma openCoin_legs (t t' : ITrade) :
  entries t' = entries t -> closes t' = closes t ->
  openCoin (computeTradeAggregates t') = openCoin (computeTradeAggregates t).
Proof.
  intros Ee Ec. rewrite !openCoin_eq, !totalEntryCoin_entries.
  unfold totalClosedCoin. rewrite Ee, Ec. reflexivity.
Qed.

Lemma shapeOk_same (t t' : ITrade) :
  entries t' = entries t -> closes t' = closes t -> status t' = status t ->
  shapeOk t -> shapeOk t'.
Proof.
  intros Ee Ec Es (A & B & C). unfold shapeOk.
  rewrite Ee, Ec, Es, (openCoin_legs t t' Ee Ec). auto.
Qed.

Lemma shapeOk_active (t : ITrade) :
  entries t <> [] -> Forall closePriced (closes t) -> status t = active ->
  shapeOk t.
Proof.
  intros A B S. split; [exact A|]. split; [exact B|].
  rewrite S. discriminate.
Qed.

Lemma shapeOk_fully_closed (t : ITrade) (c : ITradeClose) :
  entries t <> [] -> closes t = [c] -> closePriced c ->
  closeCoinAmount c = totalEntryCoin (computeTradeAggregates t) ->
  shapeOk t.
Proof.
  intros A Ec Pc Et. unfold shapeOk. rewrite Ec.
  split; [exact A|]. split; [constructor; [exact Pc | constructor]|].
  intros _. split; [discriminate|].
  rewrite openCoin_eq. unfold totalClosedCoin. rewrite Ec, closedCoin_single, Et.
  pose proof eps_pos. apply Q.max_lub; lra.
Qed.

Lemma Forall_replaceDoc (P : ITrade -> Prop) (t : ITrade) (ds : list ITrade) :
  Forall P ds -> P t -> Forall P (replaceDoc t ds).
Proof.
  intros H Ht. induction H as [|d ds Hd Hds IH]; simpl; [constructor|].
  destruct (_id d =? _id t)%nat; constructor; auto.
Qed.

(** A route on [/trades/:id] keeps a property of all documents when its
    body establishes it for the document it leaves. *)
Lemma onTrade_Forall (P : ITrade -> Prop) (uid : option string) (id : nat)
    (now : Date) (body : Route unit) (db : Store) :
  storeOk db -> Forall P (docs db) ->
  (forall t, P t -> P (touch now t)) ->
  (forall t, In t (docs db) -> legsOk t -> P t ->
     triple (fun doc => doc = t) body (fun _ doc' => P doc')) ->
  Forall P (docs (snd (onTrade uid id now body db))).
Proof.
  intros Hok HP Htouch Hbody. unfold onTrade.
  destruct uid as [u|]; [|exact HP].
  destruct (findOne (byIdAndUser id u) db) as [t|] eqn:F; [|exact HP].
  apply find_some in F. destruct F as [Ht _].
  assert (legsOk t) as Lt.
  { destruct Hok as (_ & _ & T & _). rewrite Forall_forall in T.
    apply (T t Ht). }
  assert (P t) as Pt by (rewrite Forall_forall in HP; auto).
  specialize (Hbody t Ht Lt Pt t eq_refl).
  destruct (body t) as [[] t'|r]; [|exact HP].
  unfold save. destruct (validate t'); [|exact HP].
  simpl. apply Forall_replaceDoc; auto.
Qed.

Lemma shapeOk_afterSell (b : SellBody.t) (now : Date) (t : ITrade) :
  legsOk t -> shapeOk t -> status t = active ->
  0 < openCoin (computeTradeAggregates t) -> sellSchema b = true ->
  shapeOk (afterSell b now t).
Proof.
  intros L (A & B & _) Hs Ho Hb.
  destruct (open_position t L Ho) as (Eo & _ & _).
  destruct (soldCoin_bounds b t Hb Ho) as [S0 S1].
  destruct (afterSell_entries b now t) as [Ee _].
  pose proof (afterSell_closes b now t) as Ec.
  unfold shapeOk. rewrite Ee, Ec, (afterSell_status b now t Hs).
  split; [exact A|]. split.
  - apply Forall_app. split; [exact B|].
    constructor; [|constructor]. unfold closePriced, sellClose. simpl. reflexivity.
  - destruct (_ <=? eps) eqn:G; [|discriminate]. intros _.
    split; [intro Z; apply app_eq_nil in Z; destruct Z; discriminate|].
    apply Qle_bool_iff in G.
    rewrite openCoin_eq, totalEntryCoin_entries, Ee. unfold totalClosedCoin.
    rewrite Ec, closedCoin_app, closedCoin_single.
    change (closeCoinAmount (sellClose b now t)) with (soldCoin b t).
    rewrite totalEntryCoin_entries in Eo. unfold totalClosedCoin in Eo.
    pose proof eps_pos.
    apply Q.max_lub; [|lra]. rewrite Eo in G. lra.
Qed.

Lemma sellBody_shape (b : SellBody.t) (now : Date) (t : ITrade) :
  legsOk t -> shapeOk t -> sellSchema b = true ->
  triple (fun doc => doc = t) (sellBody b now) (fun _ doc' => shapeOk doc').
Proof.
  intros Hl Hsh Hb doc ->.
  destruct (status t) eqn:Hs.
  2:{ unfold sellBody, bind, get. rewrite Hs. exact I. }
  destruct (Qlt_le_dec 0 (openCoin (computeTradeAggregates t))) as [Ho|Ho].
  - rewrite (sellBody_ok b now t Hs Hl Ho Hb).
    apply shapeOk_afterSell; assumption.
  - unfold sellBody, bind, get. rewrite Hs. simpl negb. cbv iota.
    apply Qle_bool_iff in Ho. rewrite Ho. rewrite !orb_true_r. exact I.
Qed.

Lemma addSizeBody_shape (b : AddSizeBody.t) (now : Date) (t : ITrade) :
  shapeOk t ->
  triple (fun doc => doc = t) (addSizeBody b now) (fun _ doc' => shapeOk doc').
Proof.
  intros (A & B & _) doc ->.
  destruct (status t) eqn:Hs.
  - rewrite (addSizeBody_ok b now t Hs). apply shapeOk_active.
    + simpl. intro Z. apply app_eq_nil in Z. destruct Z; discriminate.
    + exact B.
    + exact Hs.
  - unfold addSizeBody, bind, get. rewrite Hs. exact I.
Qed.

Lemma editClosedLegs_shape (b : EditBody.t) (t : ITrade) :
  triple (keepsLegs t) (editClosedLegs b) (fun _ doc' => shapeOk doc').
Proof.
  unfold editClosedLegs. apply triple_get_bind. intro trade.
  intros doc [(Hf & Hs & Ees & Ecs) ->].
  rewrite Ees, Ecs.
  destruct (entries t) as [|e [|e2 es]] eqn:Es; try exact I;
    destruct (closes t) as [|c [|c2 cs]] eqn:Cs; try exact I.
  simpl negb. cbv iota. simpl nth_error. cbv iota.
  apply triple_at.
  apply (triple_bind _ _ _ (fun _ => keepsLegs t)).
  { apply triple_when; intros _.
    - apply triple_assign. intros d ->. unfold keepsLegs, frame in *. simpl.
      intuition congruence.
    - intros d ->. unfold keepsLegs. intuition congruence. }
  intros _.
  apply (triple_bind _ _ _ (fun _ => keepsLegs t)).
  { apply triple_when; intros _.
    - apply triple_assign. intros d K. unfold keepsLegs, frame in *. simpl. tauto.
    - intros d K. exact K. }
  intros _.
  apply triple_assign_bind.
  destruct (negb (_ >? 0)) eqn:Ex; [apply triple_reject|].
  apply triple_get_bind. intro snapshot.
  destruct (negb (totalEntryCoin (computeTradeAggregates snapshot) >? 0)) eqn:Et.
  { apply triple_reject. }
  apply triple_assign.
  intros d [(d0 & (Kf & Ks & Ke & Kc) & Ed) Esn]. subst snapshot. subst d.
  match goal with |- shapeOk (setCloses (setFirst ?c _) _) =>
    apply (shapeOk_fully_closed _ c) end.
  - simpl. rewrite Ke, Es. discriminate.
  - simpl. rewrite Kc, Cs. reflexivity.
  - unfold closePriced. simpl. reflexivity.
  - reflexivity.
Qed.

Lemma editBody_shape (b : EditBody.t) (t : ITrade) :
  shapeOk t ->
  triple (fun doc => doc = t) (editBody b) (fun _ doc' => shapeOk doc').
Proof.
  intros Hsh. unfold editBody.
  apply triple_get_bind. intro trade.
  destruct (_ && _); [apply triple_reject|].
  apply (triple_bind _ _ _ (fun _ => keepsLegs t)).
  { apply triple_when; intros _.
    - apply triple_assign. intros d [-> _]. unfold keepsLegs, frame. simpl. tauto.
    - intros d [-> _]. unfold keepsLegs, frame. tauto. }
  intros _.
  apply (triple_bind _ _ _ (fun _ => keepsLegs t)).
  { destruct (EditBody.stopLossPrice b).
    - apply triple_assign. intros d K. unfold keepsLegs, frame in *. simpl. tauto.
    - apply triple_ret. auto. }
  intros _.
  apply (triple_bind _ _ _ (fun _ => keepsLegs t)).
  { destruct (EditBody.takeProfitPrice b).
    - apply triple_assign. intros d K. unfold keepsLegs, frame in *. simpl. tauto.
    - apply triple_ret. auto. }
  intros _.
  apply triple_get_bind. intro trade'.
  apply triple_when; intros _.
  - eapply triple_weaken; [apply (editClosedLegs_shape b t) | |]; simpl.
    + intros d [K _]. exact K.
    + auto.
  - intros d [(Kf & Ks & Ke & Kc) _].
    apply (shapeOk_same t); assumption.
Qed.

Lemma shapeOk_created (mk : nat -> Date -> ITrade) (now : Date)
    (db db' : Store) (t : ITrade) :
  Forall shapeOk (docs db) -> shapeOk (mk (nextId db) now) ->
  create mk now db = Some (t, db') -> Forall shapeOk (docs db').
Proof.
  intros H Hn C. rewrite (create_docs _ _ _ _ _ C).
  apply Forall_app. split; [exact H | constructor; [exact Hn | constructor]].
Qed.

Lemma shapeOk_syncStep (uid : string) (now : Date)
    (position : AsterDexPosition.t) (c c' : Counters) (db db' : Store) :
  Forall shapeOk (docs db) ->
  syncStep uid now position c db = Some (c', db') ->
  Forall shapeOk (docs db').
Proof.
  intros H. unfold syncStep.
  destruct (mapPosition position now) as [payload|]; [|intro E; injection E as _ <-; exact H].
  unfold upsertTrade.
  destruct (findOne _ db) as [existing|].
  - unfold save. destruct (validate _); [|discriminate]. simpl.
    intro E. injection E as _ <-. simpl.
    apply Forall_replaceDoc; [exact H|].
    apply shapeOk_active; simpl; [discriminate | constructor | reflexivity].
  - destruct (create _ now db) as [[t db1]|] eqn:C; [|discriminate].
    intro E. injection E as _ <-.
    apply (shapeOk_created _ _ _ _ _ H) in C; [exact C|].
    apply shapeOk_active; simpl; [discriminate | constructor | reflexivity].
Qed.

Lemma shapeOk_syncLoop (uid : string) (now : Date)
    (positions : list AsterDexPosition.t) (c : Counters) (db : Store) :
  Forall shapeOk (docs db) ->
  Forall shapeOk (docs (snd (syncLoop uid now positions c db))).
Proof.
  revert c db. induction positions as [|p ps IH]; intros c db H; simpl.
  - exact H.
  - destruct (syncStep uid now p c db) as [[c' db']|] eqn:S; [|exact H].
    apply IH. apply (shapeOk_syncStep uid now p c c' db db' H S).
Qed.

Lemma shapeOk_exec (op : Op) (db : Store) :
  storeOk db -> Forall shapeOk (docs db) -> Forall shapeOk (docs (exec op db)).
Proof.
  intros Hok H. destruct op; simpl.
  - unfold createActive. destruct uid; [|exact H].
    destruct (negb _); [exact H|].
    destruct (create _ now db) as [[t db']|] eqn:C; [|exact H].
    simpl. apply (shapeOk_created _ _ _ _ _ H) in C; [exact C|].
    apply shapeOk_active; simpl; [discriminate | constructor | reflexivity].
  - unfold createClosed. destruct uid; [|exact H].
    destruct (negb (createClosedTradeSchema b)) eqn:Hb; [exact H|].
    apply negb_false_iff in Hb. unfold createClosedTradeSchema in Hb.
    apply andb_prop in Hb. destruct Hb as [Ha _].
    destruct (create _ now db) as [[t db']|] eqn:C; [|exact H].
    simpl. apply (shapeOk_created _ _ _ _ _ H) in C; [exact C|].
    match goal with |- shapeOk (newTrade _ _ _ _ _ _ _ _ [?c] _ _) =>
      apply (shapeOk_fully_closed _ c) end.
    + simpl. discriminate.
    + reflexivity.
    + unfold closePriced. simpl. reflexivity.
    + reflexivity.
  - unfold editTrade. destruct uid; [|exact H].
    destruct (negb (editTradeSchema b)); [exact H|].
    apply onTrade_Forall; [exact Hok | exact H | |].
    + intros t. apply shapeOk_same; reflexivity.
    + intros t _ _ Pt. apply editBody_shape. exact Pt.
  - unfold addSize. destruct uid; [|exact H].
    destruct (negb (addSizeSchema b)); [exact H|].
    apply onTrade_Forall; [exact Hok | exact H | |].
    + intros t. apply shapeOk_same; reflexivity.
    + intros t _ _ Pt. apply addSizeBody_shape. exact Pt.
  - unfold sell. destruct uid; [|exact H].
    destruct (negb (sellSchema b)) eqn:Hb; [exact H|].
    apply negb_false_iff in Hb.
    apply onTrade_Forall; [exact Hok | exact H | |].
    + intros t. apply shapeOk_same; reflexivity.
    + intros t _ Lt Pt. apply sellBody_shape; assumption.
  - unfold deleteTrade, deleteOne. destruct uid as [u|]; [|exact H].
    pose proof (removeFirst_incl (byIdAndUser id u) (docs db)) as I.
    destruct (removeFirst _ (docs db)) as [r n]. simpl in I.
    assert (Forall shapeOk r) as Hr.
    { rewrite Forall_forall in *. intros d Hd. apply H, I, Hd. }
    destruct (n =? 0)%nat; exact Hr.
  - unfold runSync. simpl. destruct feed as [positions|]; [|exact H].
    unfold syncPositions.
    pose proof (shapeOk_syncLoop uid now positions (mkCounters 0 0 0) db H) as K.
    destruct (syncLoop uid now positions (mkCounters 0 0 0) db) as [[c'|] db'];
      exact K.
  - destruct (syncStep uid now position (mkCounters 0 0 0) db)
      as [[c' db']|] eqn:S; [|exact H].
    apply (shapeOk_syncStep uid now position _ c' db db' H S).
Qed.

Lemma reachable_shapeOk (db : Store) :
  reachable db -> Forall shapeOk (docs db).
Proof.
  induction 1 as [|op db R IH]; [constructor|].
  apply shapeOk_exec; [apply reachable_storeOk; exact R | exact IH].
Qed.

(** X17. Every stored position has at least one entry, and a stored
    position that is closed has at least one close: no route and no pass
    of the service stores a position without legs, or closes one without
    recording a close. *)
Theorem stored_positions_are_well_shaped :
  forall (db : Store) (t : ITrade),
    reachable db -> In t (docs db) ->
    entries t <> [] /\ (status t = closed -> closes t <> []).
Proof.
  intros db t R Ht. pose proof (reachable_shapeOk db R) as H.
  rewrite Forall_forall in H. destruct (H t Ht) as (A & _ & C).
  split; [exact A|]. intro Hc. exact (proj1 (C Hc)).
Qed.

Lemma stored_positions_are_well_shaped_witness :
  entries (firstDoc demoAllSold) <> []
  /\ (status (firstDoc demoAllSold) = closed ->
      closes (firstDoc demoAllSold) <> []).
Proof.
  apply (stored_positions_are_well_shaped demoAllSold (firstDoc demoAllSold)).
  - apply reach_exec, reach_exec, reach_exec, reach_empty.
  - vm_compute. left. reflexivity.
Defined.

(** X18. In every stored close the USD amount is the coin amount times
    the close price, whichever route wrote or rewrote it. *)
Theorem stored_closes_are_priced :
  forall (db : Store) (t : ITrade) (c : ITradeClose),
    reachable db -> In t (docs db) -> In c (closes t) ->
    closeUsdAmount c == closeCoinAmount c * closePrice c.
Proof.
  intros db t c R Ht Hc. pose proof (reachable_shapeOk db R) as H.
  rewrite Forall_forall in H. destruct (H t Ht) as (_ & B & _).
  rewrite Forall_forall in B. exact (B c Hc).
Qed.

Lemma stored_closes_are_priced_witness :
  closeUsdAmount (hd (mkClose 0 0 0 0%Z 0 0) (closes (firstDoc demoHalfSold)))
  == closeCoinAmount (hd (mkClose 0 0 0 0%Z 0 0) (closes (firstDoc demoHalfSold)))
     * closePrice (hd (mkClose 0 0 0 0%Z 0 0) (closes (firstDoc demoHalfSold))).
Proof.
  apply (stored_closes_are_priced demoHalfSold (firstDoc demoHalfSold)).
  - apply reach_exec, reach_exec, reach_empty.
  - vm_compute. left. reflexivity.
  - vm_compute. left. reflexivity.
Defined.

(** ** What mapPosition produces *)

(** X19. A payload of [mapPosition] carries the position's id and entry
    price, a positive margin, long exactly for a positive size, and a
    leverage of at least 1 that is above 1 exactly for the product type
    perpetual (a spot entry has leverage 1). *)
Theorem mapPosition_payload_is_consistent :
  forall (position : AsterDexPosition.t) (now : Date)
         (payload : PositionTradePayload.t),
    mapPosition position now = Some payload ->
    let e := PositionTradePayload.entry payload in
    PositionTradePayload.positionId payload = AsterDexPosition.id position
    /\ entryPrice e = AsterDexPosition.entryPrice position
    /\ 0 < entryPrice e /\ 0 < amountInvestedUsd e
    /\ (PositionTradePayload.side payload = long
        <-> 0 < AsterDexPosition.size position)
    /\ exists l : Q,
         leverage e = Some l /\ 1 <= l
         /\ (PositionTradePayload.exchangeProductType payload = perpetual
             <-> 1 < l)
         /\ (PositionTradePayload.exchangeProductType payload = spot -> l = 1).
Proof.
  intros position now payload. unfold mapPosition.
  destruct (isEmpty (AsterDexPosition.id position)); [discriminate|].
  destruct (Qeq_bool _ 0); [discriminate|].
  destruct (negb (AsterDexPosition.entryPrice position >? 0)) eqn:Hp;
    [discriminate|].
  destruct (isEmpty (_ ?? _)); [discriminate|].
  destruct (isEmpty (toUpperCase _)); [discriminate|].
  match goal with |- context [if negb (?i >? 0) then None else _] =>
    destruct (negb (i >? 0)) eqn:Hi; [discriminate|] end.
  apply negb_false_iff, Qlt_bool_iff in Hp.
  apply negb_false_iff, Qlt_bool_iff in Hi.
  intro E. injection E as <-. cbv zeta. simpl.
  split; [reflexivity|]. split; [reflexivity|]. split; [exact Hp|].
  split; [exact Hi|]. split.
  - destruct (AsterDexPosition.size position >? 0) eqn:G.
    + apply Qlt_bool_iff in G. tauto.
    + apply Qlt_bool_false in G. split; [discriminate|]. intro. lra.
  - eexists. split; [reflexivity|].
    match goal with |- context [if ?c then perpetual else spot] =>
      destruct c eqn:Hl end.
    + apply Qlt_bool_iff in Hl.
      split; [lra|]. split; [tauto|]. discriminate.
    + split; [lra|]. split; [|reflexivity].
      split; [discriminate|]. intro. lra.
Qed.

Lemma mapPosition_payload_is_consistent_witness :
  exists payload : PositionTradePayload.t,
    mapPosition demoPosition 5%Z = Some payload
    /\ PositionTradePayload.side payload = long
    /\ PositionTradePayload.exchangeProductType payload = perpetual.
Proof.
  eexists. split; [vm_compute; reflexivity|].
  match goal with |- PositionTradePayload.side ?p = _ /\ _ =>
    destruct (mapPosition_payload_is_consistent demoPosition 5%Z p)
      as (_ & _ & _ & _ & S & l & El & _ & P & _)
  end.
  - vm_compute. reflexivity.
  - split.
    + apply S. reflexivity.
    + apply P. simpl in El. injection El as <-. reflexivity.
Defined.

(** X20. A position reported with leverage above 1 and a collateral that
    is zero or negative is dropped by [mapPosition]. *)
Theorem mapPosition_drops_leveraged_without_collateral :
  forall (position : AsterDexPosition.t) (now : Date) (l c : Q),
    AsterDexPosition.leverage position = Some l -> 1 < l ->
    AsterDexPosition.collateralUsd position = Some c -> c <= 0 ->
    mapPosition position now = None.
Proof.
  intros position now l c El Hl Ec Hc. unfold mapPosition.
  destruct (isEmpty (AsterDexPosition.id position)); [reflexivity|].
  destruct (Qeq_bool _ 0); [reflexivity|].
  destruct (negb (AsterDexPosition.entryPrice position >? 0)); [reflexivity|].
  destruct (isEmpty (_ ?? _)); [reflexivity|].
  destruct (isEmpty (toUpperCase _)); [reflexivity|].
  rewrite El, Ec. cbn [nullish_opt nullish].
  assert (truthy (Some l) && (l >? 1) = true) as T.
  { apply andb_true_intro. split.
    - apply truthy_Some. intro Z. rewrite Z in Hl. discriminate Hl.
    - apply Qlt_bool_iff. exact Hl. }
  rewrite T. pose proof Hl as Hb. apply Qlt_bool_iff in Hb. rewrite Hb.
  assert ((c >? 0) = false) as -> by (apply Qlt_bool_false; exact Hc).
  reflexivity.
Qed.

Lemma mapPosition_drops_leveraged_without_collateral_witness :
  mapPosition
    (AsterDexPosition.mk "BTCUSDT:BOTH" "BTCUSDT" None (Some "BTCUSDT") 2 100
       (Some 5) (Some 200) (Some 0) None None None None None) 5%Z = None.
Proof.
  apply (mapPosition_drops_leveraged_without_collateral _ 5%Z 5 0);
    reflexivity || discriminate.
Defined.

(** ** What a pass does to the store *)

Lemma upsertTrade_effect (uid : string) (payload : PositionTradePayload.t)
    (at_ : Date) (db db' : Store) (r : UpsertResult) :
  storeOk db ->
  upsertTrade uid payload at_ db = Some (r, db') ->
  (forall uid' pid', (linkedCount uid' pid' db <= linkedCount uid' pid' db')%nat)
  /\ List.length (docs db')
     = (List.length (docs db) + match r with Created => 1 | Updated => 0 end)%nat
  /\ (forall d, In d (docs db) -> unlinkedFor uid d -> In d (docs db')).
Proof.
  intros Hok. unfold upsertTrade, findOne.
  set (pid := PositionTradePayload.positionId payload).
  destruct (find (byExchangePosition uid pid) (docs db)) as [existing|] eqn:F.
  - apply find_some in F. destruct F as [Hin Hk].
    assert (userId existing = uid) as Eu
      by (apply byExchangePosition_true in Hk; tauto).
    unfold save. destruct (validate _); [|discriminate].
    intro E. injection E as <- <-.
    destruct Hok as (N & _).
    destruct (replaceDoc_split (docs db) existing
                (touch at_ (overwrite existing payload at_)) N Hin eq_refl)
      as (l1 & l2 & D & R).
    unfold linkedCount. simpl. rewrite R, D.
    split; [|split].
    + intros uid' pid'.
      rewrite (filter_count_replace _ l1 l2 existing
                 (touch at_ (overwrite existing payload at_))); [lia|].
      change (byExchangePosition uid' pid' (overwrite existing payload at_)
              = byExchangePosition uid' pid' existing).
      apply (byExchangePosition_same uid pid); [exact Hk|].
      rewrite <- Eu. apply overwrite_linked.
    + rewrite !length_app. simpl. lia.
    + intros d Hd Hu. apply in_app_or in Hd. apply in_or_app.
      destruct Hd as [Hd|[<-|Hd]]; auto.
      * exfalso. rewrite (Hu pid) in Hk. discriminate.
      * right. right. exact Hd.
  - unfold create. destruct (validate _); [|discriminate].
    intro E. injection E as <- <-. unfold linkedCount. simpl.
    split; [|split].
    + intros uid' pid'. rewrite filter_app, length_app. lia.
    + rewrite length_app. simpl. lia.
    + intros d Hd _. apply in_or_app. left. exact Hd.
Qed.

Lemma syncLoop_effect (uid : string) (now : Date)
    (positions : list AsterDexPosition.t) (c : Counters) (db : Store) :
  storeOk db ->
  exists c' db',
    syncLoop uid now positions c db = (Some c', db')
    /\ storeOk db'
    /\ (forall uid' pid', (linkedCount uid' pid' db <= linkedCount uid' pid' db')%nat)
    /\ (List.length (docs db') + nCreated c
        = List.length (docs db) + nCreated c')%nat
    /\ (forall d, In d (docs db) -> unlinkedFor uid d -> In d (docs db'))
    /\ (forall p payload, In p positions -> mapPosition p now = Some payload ->
          linkedCount uid (AsterDexPosition.id p) db' = 1%nat).
Proof.
  revert c db. induction positions as [|p ps IH]; intros c db Hok; simpl.
  - exists c, db. split; [reflexivity|]. split; [exact Hok|].
    split; [intros; lia|]. split; [lia|]. split; [auto|]. intros ? ? [].
  - unfold syncStep.
    destruct (mapPosition p now) as [payload|] eqn:M.
    + destruct (upsertTrade_mapped uid p now now payload db Hok M)
        as (r & db1 & U & Hok1 & C1 & _).
      destruct (upsertTrade_effect uid payload now db db1 r Hok U)
        as (Mono & Len & Keep).
      destruct (mapPosition_sound p now payload M) as (K & _).
      rewrite U. rewrite K in C1.
      destruct r;
        match goal with |- context [syncLoop _ _ _ ?c1 _] =>
          destruct (IH c1 db1 Hok1)
            as (c' & db' & L & Hok' & Mono' & Len' & Keep' & One')
        end;
        (exists c', db'; split; [exact L|]; split; [exact Hok'|];
         split; [intros u' p'; specialize (Mono u' p');
                 specialize (Mono' u' p'); lia|];
         split; [simpl in Len'; lia|]; split; [auto|];
         intros q pl [<-|Hq] Mq; [|exact (One' q pl Hq Mq)];
         pose proof (Mono' uid (AsterDexPosition.id p)) as Ge;
         destruct Hok' as (_ & _ & _ & Uq);
         pose proof (Uq uid (AsterDexPosition.id p)); lia).
    + destruct (IH (mkCounters (nCreated c) (nUpdated c) (S (nSkipped c))) db Hok)
        as (c' & db' & L & Hok' & Mono' & Len' & Keep' & One').
      exists c', db'. split; [exact L|]. split; [exact Hok'|].
      split; [exact Mono'|]. split; [simpl in Len'; lia|]. split; [exact Keep'|].
      intros q pl [<-|Hq] Mq; [congruence | exact (One' q pl Hq Mq)].
Qed.

(** X23. A pass of the service of user [uid] leaves alone every document
    that is not one of that user's exchange-linked positions: positions
    entered by hand, and positions of other users, are still stored,
    unchanged, after the pass, whatever the feed held. *)
Theorem pass_keeps_unlinked_documents :
  forall (db : Store) (uid : string) (feed : Feed) (now : Date) (d : ITrade),
    reachable db -> In d (docs db) ->
    (forall pid, byExchangePosition uid pid d = false) ->
    In d (docs (snd (runSync (mkService uid false) feed now db))).
Proof.
  intros db uid feed now d R Hd Hu. unfold runSync. simpl.
  destruct feed as [positions|]; [|exact Hd].
  unfold syncPositions.
  destruct (syncLoop_effect uid now positions (mkCounters 0 0 0) db
              (reachable_storeOk db R))
    as (c' & db' & -> & _ & _ & _ & Keep & _).
  simpl. apply Keep; assumption.
Qed.

Lemma pass_keeps_unlinked_documents_witness :
  In (firstDoc demoLedger)
     (docs (snd (runSync (mkService "u1" false) (Fetched [demoPosition]) 5%Z
                   demoLedger))).
Proof.
  apply (pass_keeps_unlinked_documents demoLedger "u1" (Fetched [demoPosition]) 5%Z).
  - apply reach_exec, reach_empty.
  - vm_compute. left. reflexivity.
  - intro pid. vm_compute. reflexivity.
Defined.

(** ** The summary *)

Lemma summaryLoop_sums (trades : list ITrade) (acc : SummaryTotals) :
  accPnlUsd (fold_left summaryStep trades acc)
    == accPnlUsd acc
       + sumQ (map (fun t => realizedPnlUsd (computeTradeAggregates t)) trades)
  /\ accInvestedUsd (fold_left summaryStep trades acc)
     == accInvestedUsd acc
        + sumQ (map (fun t => totalInitialMarginUsd (computeTradeAggregates t)) trades)
  /\ (winningTrades acc <= winningTrades (fold_left summaryStep trades acc)
      <= winningTrades acc + List.length trades)%nat.
Proof.
  revert acc. induction trades as [|t ts IH]; intro acc.
  - simpl. repeat split; try ring; lia.
  - cbn [fold_left map sumQ fold_right List.length].
    destruct (IH (summaryStep acc t)) as (P & I & W). rewrite P, I.
    fold (sumQ (map (fun t => realizedPnlUsd (computeTradeAggregates t)) ts)).
    fold (sumQ (map (fun t => totalInitialMarginUsd (computeTradeAggregates t)) ts)).
    assert (winningTrades acc <= winningTrades (summaryStep acc t)
            <= S (winningTrades acc))%nat as W1.
    { unfold summaryStep. cbn [winningTrades].
      destruct (_ >? 0); lia. }
    split; [unfold summaryStep; cbn [accPnlUsd]; ring|].
    split; [unfold summaryStep; cbn [accInvestedUsd]; ring|].
    lia.
Qed.

Lemma ofNat_le (n m : nat) : (n <= m)%nat -> ofNat n <= ofNat m.
Proof.
  intro H. unfold ofNat. rewrite <- Zle_Qle. lia.
Qed.

Lemma ofNat_pos (n : nat) : (0 < n)%nat -> 0 < ofNat n.
Proof.
  intro H. unfold ofNat. change 0 with (inject_Z 0). rewrite <- Zlt_Qlt. lia.
Qed.

(** X24. The summary counts the trades it is given; without trades the
    totals are zero and both percentages are undefined; with at least one
    trade the win rate is defined and lies between 0 and 100. *)
Theorem summary_win_rate_is_a_percentage :
  forall trades : list ITrade,
    totalTrades (summarize trades) = List.length trades
    /\ (trades = [] ->
        summarize trades = mkSummary 0 None 0 0 None)
    /\ (trades <> [] ->
        exists w : Q,
          winRate (summarize trades) = Some w /\ 0 <= w /\ w <= 100).
Proof.
  intro trades. split; [reflexivity|]. split.
  - intros ->. reflexivity.
  - intro Hne. unfold summarize. cbn [winRate].
    assert (0 < List.length trades)%nat as Hn
      by (destruct trades; [congruence | simpl; lia]).
    pose proof Hn as Hb. apply Nat.ltb_lt in Hb. rewrite Hb.
    eexists. split; [reflexivity|].
    destruct (summaryLoop_sums trades (mkSummaryTotals 0 0 0)) as (_ & _ & W).
    simpl in W. fold (summaryLoop trades) in W.
    pose proof (ofNat_pos _ Hn) as Pn.
    pose proof (ofNat_le _ _ (proj2 W)) as Le.
    pose proof (ofNat_le 0 _ (proj1 W)) as Ge. change (ofNat 0) with 0 in Ge.
    set (wn := ofNat (winningTrades (summaryLoop trades))) in *.
    set (n := ofNat (List.length trades)) in *.
    assert (0 <= wn / n) by (apply Qle_shift_div_l; lra).
    assert (wn / n <= 1) by (apply Qle_shift_div_r; lra).
    split; lra.
Qed.

Lemma summary_win_rate_is_a_percentage_witness :
  docs demoAllSold <> []
  /\ totalTrades (summarize (docs demoAllSold)) = 1%nat
  /\ exists w : Q,
       winRate (summarize (docs demoAllSold)) = Some w /\ 0 <= w /\ w <= 100.
Proof.
  assert (docs demoAllSold <> []) as Hne by (vm_compute; discriminate).
  destruct (summary_win_rate_is_a_percentage (docs demoAllSold)) as (A & _ & C).
  split; [exact Hne|]. split; [exact A|]. exact (C Hne).
Defined.

(** ** The summary and the routes *)

Lemma filter_replaced (p : ITrade -> bool) (l1 l2 : list ITrade) (t t' : ITrade) :
  p t = false -> p t' = false ->
  filter p (l1 ++ t' :: l2) = filter p (l1 ++ t :: l2).
Proof.
  intros A B. rewrite !filter_app. simpl. rewrite A, B. reflexivity.
Qed.

Lemma filter_removeFirst (p q : ITrade -> bool) (ds : list ITrade) :
  (forall d, q d = true -> p d = false) ->
  filter p (fst (removeFirst q ds)) = filter p ds.
Proof.
  intro H. induction ds as [|a ds IH]; simpl; [reflexivity|].
  destruct (q a) eqn:Q.
  - simpl. rewrite (H a Q). reflexivity.
  - destruct (removeFirst q ds) as [r n]. simpl in *. rewrite IH. reflexivity.
Qed.

(** The closed positions of [v] after a route on [/trades/:id] whose body
    leaves a document that is not a closed position of [v], started on a
    document that was not one either. *)
Lemma onTrade_closedOf (v : string) (uid : option string) (id : nat)
    (now : Date) (body : Route unit) (db : Store) :
  storeOk db ->
  (forall t, In t (docs db) -> legsOk t ->
     byIdAndUser id (uid ?? "") t = true ->
     triple (fun doc => doc = t) body
       (fun _ doc' => frame t doc' /\ closedOf v t = false
                      /\ closedOf v doc' = false)) ->
  filter (closedOf v) (docs (snd (onTrade uid id now body db)))
  = filter (closedOf v) (docs db).
Proof.
  intros Hok Hbody. unfold onTrade.
  destruct uid as [u|]; [|reflexivity].
  destruct (findOne (byIdAndUser id u) db) as [t|] eqn:F; [|reflexivity].
  apply find_some in F. destruct F as [Ht Hp].
  assert (legsOk t) as Lt.
  { destruct Hok as (_ & _ & T & _). rewrite Forall_forall in T.
    apply (T t Ht). }
  specialize (Hbody t Ht Lt Hp t eq_refl).
  destruct (body t) as [[] t'|r]; [|reflexivity].
  destruct Hbody as ((Fi & _) & A & B).
  unfold save. destruct (validate t'); [|reflexivity].
  simpl. destruct Hok as (N & _).
  destruct (replaceDoc_split (docs db) t (touch now t') N Ht Fi)
    as (l1 & l2 & D & R).
  rewrite R, D. apply filter_replaced; [exact A | exact B].
Qed.

Lemma closedOf_other (u v : string) (t : ITrade) :
  userId t = u -> u <> v -> closedOf v t = false.
Proof.
  intros E Ne. unfold closedOf. rewrite E.
  destruct (String.eqb_spec u v); [contradiction | reflexivity].
Qed.

Lemma closedOf_active (v : string) (t : ITrade) :
  status t = active -> closedOf v t = false.
Proof. intro E. unfold closedOf. rewrite E. apply andb_false_r. Qed.

(** X25. A user's summary depends on that user's positions only: after a
    route call made for another user the summary is the same. *)
Theorem summary_ignores_other_users_calls :
  forall (db : Store) (op : Op) (u v : string),
    reachable db -> actor op = Some u -> u <> v ->
    getSummary (Some v) (exec op db) = getSummary (Some v) db.
Proof.
  intros db op u v R A Ne.
  pose proof (reachable_storeOk db R) as Hok.
  unfold getSummary. f_equal. f_equal.
  destruct op; simpl in A; try discriminate; subst uid; unfold exec.
  - unfold createActive. destruct (negb _); [reflexivity|].
    destruct (create _ now db) as [[t db']|] eqn:C; [|reflexivity].
    simpl. rewrite (create_docs _ _ _ _ _ C), filter_app. simpl.
    rewrite (closedOf_other u v); [apply app_nil_r | reflexivity | exact Ne].
  - unfold createClosed. destruct (negb _); [reflexivity|].
    destruct (create _ now db) as [[t db']|] eqn:C; [|reflexivity].
    simpl. rewrite (create_docs _ _ _ _ _ C), filter_app. simpl.
    rewrite (closedOf_other u v); [apply app_nil_r | reflexivity | exact Ne].
  - unfold editTrade. destruct (negb (editTradeSchema b)) eqn:Hb; [reflexivity|].
    apply negb_false_iff in Hb.
    apply (onTrade_closedOf v (Some u)); [exact Hok|]. intros t _ Lt Hp.
    unfold byIdAndUser in Hp. apply andb_prop in Hp. destruct Hp as [_ Hp].
    apply String.eqb_eq in Hp. simpl in Hp.
    eapply triple_weaken; [apply (editBody_triple b t Hb Lt) | auto |].
    simpl. intros _ doc (Fr & _ & _). split; [exact Fr|].
    destruct Fr as (_ & Fu & _).
    split; apply (closedOf_other u v); congruence.
  - unfold addSize. destruct (negb (addSizeSchema b)) eqn:Hb; [reflexivity|].
    apply negb_false_iff in Hb.
    apply (onTrade_closedOf v (Some u)); [exact Hok|]. intros t _ Lt Hp.
    unfold byIdAndUser in Hp. apply andb_prop in Hp. destruct Hp as [_ Hp].
    apply String.eqb_eq in Hp. simpl in Hp.
    eapply triple_weaken; [apply (addSizeBody_triple b now t Lt Hb) | auto |].
    simpl. intros _ doc (_ & _ & Fr & _). split; [exact Fr|].
    destruct Fr as (_ & Fu & _).
    split; apply (closedOf_other u v); congruence.
  - unfold sell. destruct (negb (sellSchema b)) eqn:Hb; [reflexivity|].
    apply negb_false_iff in Hb.
    apply (onTrade_closedOf v (Some u)); [exact Hok|]. intros t _ Lt Hp.
    unfold byIdAndUser in Hp. apply andb_prop in Hp. destruct Hp as [_ Hp].
    apply String.eqb_eq in Hp. simpl in Hp.
    eapply triple_weaken; [apply (sellBody_triple b now t Lt Hb) | auto |].
    simpl. intros _ doc (_ & Fr & _). split; [exact Fr|].
    destruct Fr as (_ & Fu & _).
    split; apply (closedOf_other u v); congruence.
  - unfold deleteTrade, deleteOne.
    pose proof (filter_removeFirst (closedOf v) (byIdAndUser id u) (docs db)) as K.
    destruct (removeFirst (byIdAndUser id u) (docs db)) as [ds n].
    simpl in K. destruct (n =? 0)%nat; simpl; apply K;
      intros d Hd; unfold byIdAndUser in Hd; apply andb_prop in Hd;
      destruct Hd as [_ Hd]; apply String.eqb_eq in Hd;
      apply (closedOf_other u v); auto.
Qed.

Lemma summary_ignores_other_users_calls_witness :
  reachable demoAllSold
  /\ getSummary (Some "u1")
       (exec (OpCreateClosed (Some "u2") (ClosedBody.mk demoActive 120 None) 9%Z)
          demoAllSold)
     = getSummary (Some "u1") demoAllSold.
Proof.
  assert (reachable demoAllSold) as R
    by (apply reach_exec, reach_exec, reach_exec, reach_empty).
  split; [exact R|].
  apply (summary_ignores_other_users_calls demoAllSold
           (OpCreateClosed (Some "u2") (ClosedBody.mk demoActive 120 None) 9%Z)
           "u2" "u1" R).
  - reflexivity.
  - discriminate.
Defined.

(** X26. Opening a position and adding size to one never change anybody's
    summary: only closed positions count. *)
Theorem summary_ignores_active_positions :
  forall (db : Store) (v : string),
    reachable db ->
    (forall uid b now,
        getSummary (Some v) (exec (OpCreateActive uid b now) db)
        = getSummary (Some v) db)
    /\ (forall uid id b now,
          getSummary (Some v) (exec (OpAddSize uid id b now) db)
          = getSummary (Some v) db).
Proof.
  intros db v R. pose proof (reachable_storeOk db R) as Hok.
  split.
  - intros uid b now. unfold getSummary. f_equal. f_equal. unfold exec.
    unfold createActive. destruct uid; [|reflexivity].
    destruct (negb _); [reflexivity|].
    destruct (create _ now db) as [[t db']|] eqn:C; [|reflexivity].
    simpl. rewrite (create_docs _ _ _ _ _ C), filter_app. simpl.
    rewrite closedOf_active; [apply app_nil_r | reflexivity].
  - intros uid id b now. unfold getSummary. f_equal. f_equal. unfold exec.
    unfold addSize. destruct uid as [u|]; [|reflexivity].
    destruct (negb (addSizeSchema b)) eqn:Hb; [reflexivity|].
    apply negb_false_iff in Hb.
    apply (onTrade_closedOf v (Some u)); [exact Hok|]. intros t _ Lt _.
    eapply triple_weaken; [apply (addSizeBody_triple b now t Lt Hb) | auto |].
    simpl. intros _ doc (Sa & Sd & Fr & _). split; [exact Fr|].
    split; apply closedOf_active; assumption.
Qed.

Lemma summary_ignores_active_positions_witness :
  reachable demoAllSold
  /\ getSummary (Some "u1")
       (exec (OpCreateActive (Some "u1") demoActive 7%Z) demoAllSold)
     = getSummary (Some "u1") demoAllSold
  /\ getSummary (Some "u1")
       (exec (OpAddSize (Some "u1") 0 (AddSizeBody.mk 90 100 None None) 8%Z)
          demoAllSold)
     = getSummary (Some "u1") demoAllSold.
Proof.
  assert (reachable demoAllSold) as R
    by (apply reach_exec, reach_exec, reach_exec, reach_empty).
  destruct (summary_ignores_active_positions demoAllSold "u1" R) as [A B].
  split; [exact R|]. split; [apply A | apply B].
Defined.

Lemma summaryLoop_wins (trades : list ITrade) (acc : SummaryTotals) :
  winningTrades (fold_left summaryStep trades acc)
  = (winningTrades acc
     + List.length
         (filter (fun t => realizedPnlUsd (computeTradeAggregates t) >? 0)
            trades))%nat.
Proof.
  revert acc. induction trades as [|t ts IH]; intro acc; simpl.
  - lia.
  - rewrite IH. unfold summaryStep. cbn [winningTrades].
    destruct (_ >? 0); simpl; lia.
Qed.

(** X27. The number of trades and the win rate of the summary do not
    depend on the order in which the closed positions are read: each
    position is judged a win on its own aggregates, and the two figures
    are those of any rearrangement of the same positions.  (The two
    totals are running sums in reading order.) *)
Theorem summary_ignores_document_order :
  forall l l' : list ITrade,
    Permutation l l' ->
    totalTrades (summarize l) = totalTrades (summarize l')
    /\ winRate (summarize l) = winRate (summarize l').
Proof.
  intros l l' P.
  assert (List.length l = List.length l') as Hlen
    by (apply Permutation_length; exact P).
  assert (winningTrades (summaryLoop l) = winningTrades (summaryLoop l')) as Hw.
  { unfold summaryLoop. rewrite !summaryLoop_wins. f_equal.
    apply Permutation_length. clear Hlen.
    induction P; simpl.
    - constructor.
    - destruct (_ >? 0); [constructor|]; exact IHP.
    - destruct (_ >? 0), (_ >? 0); try apply perm_swap; try reflexivity.
    - etransitivity; eassumption. }
  unfold summarize. cbn [totalTrades winRate].
  rewrite Hw, Hlen. split; reflexivity.
Qed.

Lemma summary_ignores_document_order_witness :
  Permutation (docs demoAllSold ++ docs demoSoldOut)%list
              (docs demoSoldOut ++ docs demoAllSold)%list
  /\ winRate (summarize (docs demoAllSold ++ docs demoSoldOut)%list)
     = winRate (summarize (docs demoSoldOut ++ docs demoAllSold)%list).
Proof.
  assert (Permutation (docs demoAllSold ++ docs demoSoldOut)%list
                      (docs demoSoldOut ++ docs demoAllSold)%list) as P
    by apply Permutation_app_comm.
  split; [exact P|].
  exact (proj2 (summary_ignores_document_order _ _ P)).
Defined.

(** ** The exchange client *)

Lemma nonces_above (readings : list Z) (c : AsterDexClient.t) :
  Forall (fun n => (AsterDexClient.lastNonce c ?? 0 < n)%Z)
    (AsterDexClient.nonces readings c)
  /\ StronglySorted Z.lt (AsterDexClient.nonces readings c).
Proof.
  revert c. induction readings as [|h rest IH]; intro c; simpl.
  - split; constructor.
  - set (last := (AsterDexClient.lastNonce c ?? 0)%Z).
    set (base := (AsterDexClient.nonceOriginMicros c
                  + (h - AsterDexClient.nonceOriginHrTime c) ÷ 1000)%Z).
    set (next := if (base <=? last)%Z then (last + 1)%Z else base).
    assert (last < next)%Z as Hn.
    { unfold next. destruct (Z.leb_spec base last); lia. }
    match goal with
    | |- context [AsterDexClient.nonces rest ?c1] =>
        destruct (IH c1) as [A S]
    end.
    cbn [AsterDexClient.lastNonce nullish] in A.
    split.
    + constructor; [exact Hn|].
      eapply Forall_impl; [|exact A]. cbv beta. intros a Ha.
      fold next in Ha. lia.
    + constructor; [exact S | exact A].
Qed.

(** X28. Nonces never repeat: over any sequence of calls, whatever the
    clock reads (also when it stands still or runs backwards), the
    nonces handed out are strictly increasing, and all of them are above
    the last nonce handed out before (above zero for a fresh client). *)
Theorem generateNonce_strictly_increases :
  forall (readings : list Z) (c : AsterDexClient.t),
    StronglySorted Z.lt (AsterDexClient.nonces readings c)
    /\ NoDup (AsterDexClient.nonces readings c)
    /\ Forall (fun n => (AsterDexClient.lastNonce c ?? 0 < n)%Z)
         (AsterDexClient.nonces readings c).
Proof.
  intros readings c. destruct (nonces_above readings c) as [A S].
  split; [exact S|]. split; [|exact A].
  clear A. induction S as [|a l S IH F]; constructor; [|exact IH].
  intro Hin. rewrite Forall_forall in F. specialize (F a Hin). lia.
Qed.

(** X29. A nonce is never behind the clock: it is at least the
    microsecond time derived from the reading, and equal to it whenever
    that time is past the last nonce. *)
Theorem generateNonce_follows_the_clock :
  forall (hrtime : Z) (c : AsterDexClient.t),
    let base := (AsterDexClient.nonceOriginMicros c
                 + (hrtime - AsterDexClient.nonceOriginHrTime c) ÷ 1000)%Z in
    let n := fst (AsterDexClient.generateNonce hrtime c) in
    (base <= n)%Z
    /\ ((AsterDexClient.lastNonce c ?? 0 < base)%Z -> n = base)
    /\ AsterDexClient.lastNonce (snd (AsterDexClient.generateNonce hrtime c))
       = Some n.
Proof.
  intros hrtime c base n. subst n. unfold AsterDexClient.generateNonce.
  cbn [fst snd AsterDexClient.lastNonce]. fold base.
  destruct (Z.leb_spec base (AsterDexClient.lastNonce c ?? 0)%Z);
    repeat split; try lia.
Qed.

Lemma generateNonce_follows_the_clock_witness :
  (AsterDexClient.lastNonce (AsterDexClient.new None 1700000000000 500) ?? 0
   < 1700000000000 * 1000 + (2500 - 500) ÷ 1000)%Z
  /\ fst (AsterDexClient.generateNonce 2500
            (AsterDexClient.new None 1700000000000 500))
     = 1700000000000002%Z.
Proof.
  assert (AsterDexClient.lastNonce (AsterDexClient.new None 1700000000000 500) ?? 0
          < 1700000000000 * 1000 + (2500 - 500) ÷ 1000)%Z as H
    by (vm_compute; reflexivity).
  split; [exact H|].
  destruct (generateNonce_follows_the_clock 2500
              (AsterDexClient.new None 1700000000000 500)) as (_ & E & _).
  rewrite (E H). reflexivity.
Defined.

(** X30. The request window the client signs with is always between
    1 ms and 60 s; a configured value inside that range is kept, and
    without one it is 5 s. *)
Theorem recvWindow_is_clamped :
  forall (recvWindowMs : option Q) (dateNow hrtime : Z),
    let w := AsterDexClient.recvWindow
               (AsterDexClient.new recvWindowMs dateNow hrtime) in
    1 <= w /\ w <= 60000
    /\ (forall x, recvWindowMs = Some x -> 1 <= x -> x <= 60000 -> w == x)
    /\ (recvWindowMs = None -> w == 5000).
Proof.
  intros r dateNow hrtime w. subst w. cbn [AsterDexClient.new AsterDexClient.recvWindow].
  set (x := r ?? AsterDexClient.DEFAULT_RECV_WINDOW_MS).
  assert (1 <= Qmax x 1) as M by apply Q.le_max_r.
  split; [apply Q.min_glb; [exact M | discriminate]|].
  split; [apply Q.le_min_r|].
  split.
  - intros y -> L U. subst x. cbn [nullish].
    rewrite Q.max_l by exact L. apply Q.min_l. exact U.
  - intros ->. reflexivity.
Qed.

Lemma recvWindow_is_clamped_witness :
  1 <= 3000 /\ 3000 <= 60000
  /\ AsterDexClient.recvWindow (AsterDexClient.new (Some 3000) 0 0) == 3000.
Proof.
  destruct (recvWindow_is_clamped (Some 3000) 0 0) as (_ & _ & K & _).
  assert (1 <= 3000) as L by (vm_compute; discriminate).
  assert (3000 <= 60000) as U by (vm_compute; discriminate).
  split; [exact L|]. split; [exact U|].
  exact (K 3000 eq_refl L U).
Defined.

(* ------------------------------------------------------------------ *)
(** * The ledger in double precision *)

Section Doubles.

Local Open Scope float_scope.

(** ** Order of doubles, from the specification of binary64 *)

Lemma f64_compare_antisym (x y : spec_float) :
  SFcompare y x = option_map CompOpp (SFcompare x y).
Proof.
  destruct x as [sx|sx| |sx mx ex], y as [sy|sy| |sy my ey]; simpl;
    try reflexivity;
    try (destruct sx; reflexivity); try (destruct sy; reflexivity);
    try (destruct sx, sy; reflexivity).
  pose proof (Pos.compare_cont_antisym mx my Eq) as H. simpl in H.
  destruct sx, sy; simpl; try reflexivity;
    rewrite (Z.compare_antisym ex ey);
    destruct (ex ?= ey)%Z; simpl; try reflexivity;
    rewrite <- H; destruct (Pos.compare_cont Eq mx my); reflexivity.
Qed.

Lemma f64_ltb_leb_false (a b : float) : (a <? b) = true -> (b <=? a) = false.
Proof.
  rewrite FloatAxioms.ltb_spec, FloatAxioms.leb_spec. unfold SFltb, SFleb.
  rewrite (f64_compare_antisym (Prim2SF a) (Prim2SF b)).
  destruct (SFcompare (Prim2SF a) (Prim2SF b)) as [[| |]|]; simpl; congruence.
Qed.

Lemma f64_ltb_irrefl (a : float) : (a <? a) = false.
Proof.
  rewrite FloatAxioms.ltb_spec. unfold SFltb.
  pose proof (f64_compare_antisym (Prim2SF a) (Prim2SF a)) as H.
  destruct (SFcompare (Prim2SF a) (Prim2SF a)) as [[| |]|];
    simpl in H; congruence.
Qed.

(** Two numbers, neither of them NaN, are comparable. *)
Lemma f64_leb_total (a b : float) :
  (a =? a) = true -> (b =? b) = true ->
  (a <? b) = false -> (b <=? a) = true.
Proof.
  rewrite FloatAxioms.ltb_spec, FloatAxioms.leb_spec, !FloatAxioms.eqb_spec.
  unfold SFltb, SFleb, SFeqb.
  rewrite (f64_compare_antisym (Prim2SF a) (Prim2SF b)).
  destruct (Prim2SF a) as [sx|sx| |sx mx ex], (Prim2SF b) as [sy|sy| |sy my ey];
    simpl; try congruence;
    try (destruct sx; simpl; congruence); try (destruct sy; simpl; congruence);
    try (destruct sx, sy; simpl; congruence).
  intros _ _.
  destruct sx, sy; simpl; try congruence;
    destruct (ex ?= ey)%Z; simpl; try congruence;
    destruct (Pos.compare_cont Eq mx my); simpl; congruence.
Qed.

Lemma f64_leb_refl (a : float) : (a =? a) = true -> (a <=? a) = true.
Proof.
  intro H. apply f64_leb_total; [exact H | exact H | apply f64_ltb_irrefl].
Qed.

(** A positive double is a number. *)
Lemma f64_pos_is_number (a : float) : (0 <? a) = true -> (a =? a) = true.
Proof.
  rewrite FloatAxioms.ltb_spec, FloatAxioms.eqb_spec. unfold SFltb, SFeqb.
  change (Prim2SF 0) with (S754_zero false).
  destruct (Prim2SF a) as [s|s| |s m e]; simpl; try congruence.
  - destruct s; reflexivity.
  - destruct s; intros _; rewrite Z.compare_refl, Pos.compare_cont_refl;
      reflexivity.
Qed.

Lemma f64_pos_lt_trans (a b : float) :
  (0 <? a) = true -> (a <? b) = true -> (0 <? b) = true.
Proof.
  rewrite !FloatAxioms.ltb_spec. unfold SFltb.
  change (Prim2SF 0) with (S754_zero false).
  destruct (Prim2SF a) as [sx|sx| |sx mx ex], (Prim2SF b) as [sy|sy| |sy my ey];
    simpl; try congruence;
    try (destruct sx; simpl; congruence); try (destruct sy; simpl; congruence);
    try (destruct sx, sy; simpl; congruence).
Qed.

(** A positive double below another one is finite, and a finite double
    minus itself is zero. *)
Lemma f64_sub_diag_below (a b : float) :
  (0 <? a) = true -> (a <? b) = true -> a - a = 0.
Proof.
  intros Ha Hb. apply Prim2SF_inj. rewrite FloatAxioms.sub_spec.
  change (Prim2SF 0) with (S754_zero false).
  revert Ha Hb. rewrite !FloatAxioms.ltb_spec. unfold SFltb.
  change (Prim2SF 0) with (S754_zero false).
  destruct (Prim2SF a) as [sx|sx| |sx mx ex], (Prim2SF b) as [sy|sy| |sy my ey];
    simpl; try congruence;
    try (destruct sx; simpl; congruence); try (destruct sy; simpl; congruence);
    try (destruct sx, sy; simpl; congruence);
    intros _ _; unfold SF64sub, SFsub; rewrite Z.sub_diag; reflexivity.
Qed.

Lemma f64_SFadd_comm (x y : spec_float) : SF64add x y = SF64add y x.
Proof.
  unfold SF64add.
  destruct x as [sx|sx| |sx mx ex], y as [sy|sy| |sy my ey]; simpl;
    try reflexivity; try (destruct sx, sy; reflexivity).
  rewrite (Z.min_comm ex ey), Z.add_comm. reflexivity.
Qed.

(** The first two terms added to a zero accumulator may be exchanged. *)
Lemma f64_add_from_zero_swap (a b : float) : 0 + a + b = 0 + b + a.
Proof.
  apply Prim2SF_inj. rewrite !FloatAxioms.add_spec.
  change (Prim2SF 0) with (S754_zero false).
  destruct (Prim2SF a) as [sx|sx| |sx mx ex], (Prim2SF b) as [sy|sy| |sy my ey];
    try reflexivity; try (destruct sx, sy; reflexivity);
    try (destruct sx; reflexivity); try (destruct sy; reflexivity).
  change (SF64add (S754_zero false) (S754_finite sx mx ex))
    with (S754_finite sx mx ex).
  change (SF64add (S754_zero false) (S754_finite sy my ey))
    with (S754_finite sy my ey).
  apply f64_SFadd_comm.
Qed.

(** ** Total entry coin *)

Lemma f64_entryLoop_coin_from (es : list F64.ITradeEntry)
    (acc : F64.EntryTotals) :
  F64.accEntryCoin (fold_left F64.entryStep es acc)
  = fold_left
      (fun s e => s + F64.amountInvestedUsd e * (F64.leverage e ?? 1)
                      / F64.entryPrice e)
      es (F64.accEntryCoin acc).
Proof.
  revert acc. induction es as [|e es IH]; intro acc; simpl; [reflexivity|].
  rewrite IH. reflexivity.
Qed.

(** C8. The [totalEntryCoin] that the aggregation computes is the sum of
    the terms (amountInvestedUsd × leverage) / entryPrice, leverage
    defaulting to 1, added to 0 in the order of the list, each product,
    quotient and partial sum rounded to a double.  Exchanging the first
    two entries does not change it (so one or two entries may come in
    any order); beyond that the order matters, see
    [totalEntryCoin_depends_on_entry_order]. *)
Theorem totalEntryCoin_is_sum_in_list_order :
  (forall t : F64.ITrade,
      F64.totalEntryCoin (F64.computeTradeAggregates t)
      = F64.sumEntryCoin (F64.entries t))
  /\ (forall (e1 e2 : F64.ITradeEntry) (rest : list F64.ITradeEntry),
        F64.sumEntryCoin (e1 :: e2 :: rest)
        = F64.sumEntryCoin (e2 :: e1 :: rest)).
Proof.
  split.
  - intro t. unfold F64.computeTradeAggregates, F64.sumEntryCoin, F64.entryLoop.
    cbn [F64.totalEntryCoin]. apply f64_entryLoop_coin_from.
  - intros e1 e2 rest. unfold F64.sumEntryCoin. simpl.
    rewrite f64_add_from_zero_swap. reflexivity.
Qed.

(** Three entries at price 1 with margins 0.1, 0.2 and 0.3: in this order
    the total entry coin is 0.6000000000000001, in the reverse order it
    is 0.6. *)
Lemma totalEntryCoin_depends_on_entry_order :
  let e1 := F64.mkEntry 1 0.1 None 0%Z in
  let e2 := F64.mkEntry 1 0.2 None 0%Z in
  let e3 := F64.mkEntry 1 0.3 None 0%Z in
  Permutation [e1; e2; e3] [e3; e2; e1]
  /\ F64.totalEntryCoin (F64.computeTradeAggregates (F64.withEntries [e1; e2; e3]))
     = 0.6000000000000001
  /\ F64.totalEntryCoin (F64.computeTradeAggregates (F64.withEntries [e3; e2; e1]))
     = 0.6
  /\ F64.totalEntryCoin (F64.computeTradeAggregates (F64.withEntries [e1; e2; e3]))
     <> F64.totalEntryCoin (F64.computeTradeAggregates (F64.withEntries [e3; e2; e1])).
Proof.
  intros e1 e2 e3. split; [|split; [|split]].
  - apply perm_trans with [e2; e1; e3]; [apply perm_swap|].
    apply perm_trans with [e2; e3; e1]; [apply perm_skip, perm_swap|].
    apply perm_swap.
  - vm_compute. reflexivity.
  - vm_compute. reflexivity.
  - intro H. apply (f_equal (fun x => x =? 0.6)) in H.
    vm_compute in H. discriminate.
Qed.

(** ** The sell route *)

Lemma f64_truthy_avg_entry (t : F64.ITrade) :
  F64.truthy (F64.avgEntryPrice (F64.computeTradeAggregates t)) = true ->
  (F64.totalEntryCoin (F64.computeTradeAggregates t) <=? 0) = false.
Proof.
  unfold F64.computeTradeAggregates. cbn [F64.avgEntryPrice F64.totalEntryCoin].
  destruct (0 <? F64.accEntryCoin (F64.entryLoop (F64.entries t))) eqn:E.
  - intros _. apply f64_ltb_leb_false. exact E.
  - simpl. discriminate.
Qed.

(** Once the guards of the route have passed, the sell appends
    [F64.sellClose] and decides the status on the rounded remainder. *)
Lemma f64_sell_runs (b : F64.SellBody.t) (now : Date) (t : F64.ITrade) :
  F64.status t = active ->
  F64.sellSchema b = true ->
  F64.truthy (F64.avgEntryPrice (F64.computeTradeAggregates t)) = true ->
  (0 <? F64.openCoin (F64.computeTradeAggregates t)) = true ->
  (0 <? F64.requestedCoin b (F64.openCoin (F64.computeTradeAggregates t))) = true ->
  F64.sell b now t
  = F64.Saved
      {| F64.side := F64.side t;
         F64.status :=
           if F64.openCoin (F64.computeTradeAggregates t) - F64.soldCoin b t
              <=? F64.eps
           then closed else active;
         F64.entries := F64.entries t;
         F64.closes := (F64.closes t ++ [F64.sellClose b now t])%list |}.
Proof.
  intros Hs Hb Ha Ho Hr. unfold F64.sell.
  rewrite Hb, Hs, Ha, (f64_truthy_avg_entry t Ha), (f64_ltb_leb_false _ _ Ho), Hr.
  reflexivity.
Qed.

(** What an accepted sell has checked and what it leaves. *)
Lemma f64_sell_accepted (b : F64.SellBody.t) (now : Date) (t t' : F64.ITrade) :
  F64.sell b now t = F64.Saved t' ->
  (0 <? F64.requestedCoin b (F64.openCoin (F64.computeTradeAggregates t))) = true
  /\ t' = {| F64.side := F64.side t;
             F64.status :=
               if F64.openCoin (F64.computeTradeAggregates t) - F64.soldCoin b t
                  <=? F64.eps
               then closed else F64.status t;
             F64.entries := F64.entries t;
             F64.closes := (F64.closes t ++ [F64.sellClose b now t])%list |}.
Proof.
  unfold F64.sell.
  destruct (negb (F64.sellSchema b)); [discriminate|].
  destruct (negb (TradeStatus_eqb (F64.status t) active)); [discriminate|].
  destruct (_ || _); [discriminate|].
  destruct (0 <? F64.requestedCoin b (F64.openCoin (F64.computeTradeAggregates t)));
    [|discriminate].
  simpl negb. cbv iota. intro H. injection H as <-. split; reflexivity.
Qed.

(** C1. The closes of a position can exceed its entries by more than the
    tolerance.  Open a long position at price 1e-05 with 4914 of margin,
    sell 30 percent of it, then sell 100 percent: each request is
    accepted and the position ends closed.  The total entry coin is
    491399999.99999994; the two stored closes are 147419999.99999997 and
    343980000, which the close loop adds up to 491400000.  The closes
    exceed the entries by more than 1e-8, both as the code adds them and
    as exact numbers. *)
Theorem closes_exceed_entries_after_two_sells :
  exists t0 t1 t2 : F64.ITrade,
    F64.createActive (F64.ActiveBody.mk long 1e-5 4914 None None None None) 1%Z
    = F64.Saved t0
    /\ F64.sell (F64.sellPercent 30 1) 2%Z t0 = F64.Saved t1
    /\ F64.sell (F64.sellPercent 100 1) 3%Z t1 = F64.Saved t2
    /\ F64.status t2 = closed
    /\ map F64.closeCoinAmount (F64.closes t2) = [147419999.99999997; 343980000]
    /\ F64.totalEntryCoin (F64.computeTradeAggregates t2) = 491399999.99999994
    /\ F64.totalClosedCoin t2 = 491400000
    /\ (F64.totalEntryCoin (F64.computeTradeAggregates t2) + F64.eps
        <? F64.totalClosedCoin t2) = true
    /\ match F64.toQ (F64.totalEntryCoin (F64.computeTradeAggregates t2)),
             map F64.toQ (map F64.closeCoinAmount (F64.closes t2)) with
       | Some total, [Some c1; Some c2] => (total + 1e-8 < c1 + c2)%Q
       | _, _ => False
       end.
Proof.
  do 3 eexists.
  split; [vm_compute; reflexivity|].
  split; [vm_compute; reflexivity|].
  split; [vm_compute; reflexivity|].
  repeat split; vm_compute; reflexivity.
Qed.

(** C2. On an active position that the route takes as open (its average
    entry price is defined and not zero, its open coin is positive), a
    valid sell request whose coin amount, as the route computes it from
    the coin amount, the USD amount or the percentage, exceeds the open
    coin is accepted: the route appends one close whose coin amount is
    exactly the open coin, at the price of the request, and leaves the
    entries alone.  (Validation caps a percentage at 100: a request for
    150 percent is rejected, [sell_percentage_above_100_is_rejected].) *)
Theorem sell_beyond_open_is_clamped :
  forall (b : F64.SellBody.t) (now : Date) (t : F64.ITrade),
    let a := F64.computeTradeAggregates t in
    F64.status t = active ->
    F64.sellSchema b = true ->
    F64.truthy (F64.avgEntryPrice a) = true ->
    (0 <? F64.openCoin a) = true ->
    (F64.openCoin a <? F64.requestedCoin b (F64.openCoin a)) = true ->
    exists (t' : F64.ITrade) (c : F64.ITradeClose),
      F64.sell b now t = F64.Saved t'
      /\ F64.entries t' = F64.entries t
      /\ F64.closes t' = (F64.closes t ++ [c])%list
      /\ F64.closeCoinAmount c = F64.openCoin a
      /\ F64.closePrice c = F64.SellBody.closePrice b
      /\ F64.closeUsdAmount c = F64.openCoin a * F64.SellBody.closePrice b.
Proof.
  intros b now t a Hs Hb Ha Ho Hr.
  eexists. exists (F64.sellClose b now t).
  split; [apply f64_sell_runs; try assumption;
          apply (f64_pos_lt_trans _ _ Ho Hr)|].
  cbn [F64.entries F64.closes F64.sellClose F64.closeCoinAmount F64.closePrice
       F64.closeUsdAmount].
  unfold F64.soldCoin. fold a. rewrite Hr. repeat split.
Qed.

Lemma sell_beyond_open_is_clamped_witness :
  exists (t' : F64.ITrade) (c : F64.ITradeClose),
    F64.sell (F64.sellCoins 1e12 1) 2%Z (F64.opened long 1e-5 4914 None)
    = F64.Saved t'
    /\ F64.closes t' = [c]
    /\ F64.closeCoinAmount c = 491399999.99999994.
Proof.
  destruct (sell_beyond_open_is_clamped
              (F64.sellCoins 1e12 1) 2%Z (F64.opened long 1e-5 4914 None))
    as (t' & c & R & _ & Cl & Cc & _); try (vm_compute; reflexivity).
  exists t', c. split; [exact R|]. split; [exact Cl|].
  rewrite Cc. vm_compute. reflexivity.
Defined.

(** C4. On an active position with positive open coin, a sell that the
    route accepts appends one close, whose coin amount is the requested
    amount clamped to the open coin, and decides the status on the
    remainder as the route computes it, the open coin minus the coin
    amount of that close, rounded: when it is at most 1e-8 the saved
    document is closed, and when it is above 1e-8 the saved document is
    still active.  The route accepts every valid request for a positive
    coin amount on such a position when it has an average entry
    price. *)
Theorem sell_closes_exactly_when_exhausted :
  forall (b : F64.SellBody.t) (now : Date) (t : F64.ITrade),
    let a := F64.computeTradeAggregates t in
    F64.status t = active ->
    (0 <? F64.openCoin a) = true ->
    (forall t' : F64.ITrade,
        F64.sell b now t = F64.Saved t' ->
        exists c : F64.ITradeClose,
          F64.closes t' = (F64.closes t ++ [c])%list
          /\ F64.closeCoinAmount c = F64.soldCoin b t
          /\ ((F64.openCoin a - F64.closeCoinAmount c <=? F64.eps) = true ->
              F64.status t' = closed)
          /\ ((F64.eps <? F64.openCoin a - F64.closeCoinAmount c) = true ->
              F64.status t' = active))
    /\ (F64.sellSchema b = true ->
        F64.truthy (F64.avgEntryPrice a) = true ->
        (0 <? F64.requestedCoin b (F64.openCoin a)) = true ->
        exists t' : F64.ITrade, F64.sell b now t = F64.Saved t').
Proof.
  intros b now t a Hs Ho. split.
  - intros t' H. destruct (f64_sell_accepted b now t t' H) as [_ ->].
    exists (F64.sellClose b now t).
    split; [reflexivity|]. split; [reflexivity|].
    cbn [F64.status F64.closeCoinAmount F64.sellClose]. fold a. rewrite Hs.
    split.
    + intros ->. reflexivity.
    + intro H1. rewrite (f64_ltb_leb_false _ _ H1). reflexivity.
  - intros Hb Ha Hr. eexists. apply f64_sell_runs; assumption.
Qed.

(** One coin open and 0.99999999 sold: the rounded remainder is above
    1e-8 and the position stays active.  With 1.0000000000000002e-08
    open and 1.24e-24 sold, the remainder rounds to 1e-8 and the position
    is closed. *)
Lemma sell_closes_exactly_when_exhausted_witness :
  (exists (t' : F64.ITrade) (c : F64.ITradeClose),
      F64.sell (F64.sellCoins 0.99999999 1) 2%Z (F64.opened long 1 1 None)
      = F64.Saved t'
      /\ F64.closes t' = [c]
      /\ F64.closeCoinAmount c = 0.99999999
      /\ F64.status t' = active)
  /\ (exists (t' : F64.ITrade) (c : F64.ITradeClose),
        F64.sell (F64.sellCoins 1.24e-24 1) 2%Z
          (F64.opened long 1 1.0000000000000002e-08 None)
        = F64.Saved t'
        /\ F64.closes t' = [c]
        /\ F64.closeCoinAmount c = 1.24e-24
        /\ F64.status t' = closed).
Proof.
  split.
  - destruct (sell_closes_exactly_when_exhausted
                (F64.sellCoins 0.99999999 1) 2%Z (F64.opened long 1 1 None)
                eq_refl eq_refl) as [Law Runs].
    destruct (Runs eq_refl eq_refl eq_refl) as [t' R].
    destruct (Law t' R) as (c & Cl & Cc & _ & A).
    exists t', c. split; [exact R|]. split; [exact Cl|].
    split; [rewrite Cc; vm_compute; reflexivity|].
    apply A. rewrite Cc. vm_compute. reflexivity.
  - destruct (sell_closes_exactly_when_exhausted
                (F64.sellCoins 1.24e-24 1) 2%Z
                (F64.opened long 1 1.0000000000000002e-08 None)
                eq_refl eq_refl) as [Law Runs].
    destruct (Runs eq_refl eq_refl eq_refl) as [t' R].
    destruct (Law t' R) as (c & Cl & Cc & A & _).
    exists t', c. split; [exact R|]. split; [exact Cl|].
    split; [rewrite Cc; vm_compute; reflexivity|].
    apply A. rewrite Cc. vm_compute. reflexivity.
Defined.

(** X8. A sell that is accepted on a position with positive open coin
    appends exactly one close and touches neither the entries nor the
    side.  The close is at the request's price, its USD amount is its
    coin amount times that price, and its coin amount is positive and at
    most the open coin the route computed. *)
Theorem sell_appends_one_clamped_close :
  forall (b : F64.SellBody.t) (now : Date) (t t' : F64.ITrade),
    let a := F64.computeTradeAggregates t in
    (0 <? F64.openCoin a) = true ->
    F64.sell b now t = F64.Saved t' ->
    exists c : F64.ITradeClose,
      F64.closes t' = (F64.closes t ++ [c])%list
      /\ F64.entries t' = F64.entries t
      /\ F64.side t' = F64.side t
      /\ F64.closePrice c = F64.SellBody.closePrice b
      /\ F64.closeUsdAmount c = F64.closeCoinAmount c * F64.closePrice c
      /\ (0 <? F64.closeCoinAmount c) = true
      /\ (F64.closeCoinAmount c <=? F64.openCoin a) = true.
Proof.
  intros b now t t' a Ho H.
  destruct (f64_sell_accepted b now t t' H) as [Hr ->]. fold a in Hr.
  exists (F64.sellClose b now t).
  cbn [F64.closes F64.entries F64.side F64.sellClose F64.closePrice
       F64.closeUsdAmount F64.closeCoinAmount].
  repeat (split; [reflexivity|]).
  unfold F64.soldCoin. fold a.
  destruct (F64.openCoin a <? F64.requestedCoin b (F64.openCoin a)) eqn:Hc.
  - split; [exact Ho|]. apply f64_leb_refl, f64_pos_is_number, Ho.
  - split; [exact Hr|].
    apply f64_leb_total;
      [apply f64_pos_is_number, Ho | apply f64_pos_is_number, Hr | exact Hc].
Qed.

Lemma sell_appends_one_clamped_close_witness :
  exists (t' : F64.ITrade) (c : F64.ITradeClose),
    F64.sell (F64.sellPercent 30 1) 2%Z (F64.opened long 1e-5 4914 None)
    = F64.Saved t'
    /\ F64.closes t' = [c]
    /\ (F64.closeCoinAmount c <=? 491399999.99999994) = true.
Proof.
  destruct (F64.sell (F64.sellPercent 30 1) 2%Z (F64.opened long 1e-5 4914 None))
    as [t'|code msg] eqn:R; [|vm_compute in R; discriminate].
  assert ((0 <? F64.openCoin (F64.computeTradeAggregates
                                (F64.opened long 1e-5 4914 None))) = true) as Ho
    by (vm_compute; reflexivity).
  destruct (sell_appends_one_clamped_close (F64.sellPercent 30 1) 2%Z
              (F64.opened long 1e-5 4914 None) t' Ho R)
    as (c & Cl & _ & _ & _ & _ & _ & Le).
  exists t', c. split; [reflexivity|]. split; [exact Cl|]. exact Le.
Defined.

(** X9. A sell request for more than the open coin closes the position:
    the remainder the route computes is the open coin minus itself,
    which is zero. *)
Theorem sell_everything_closes :
  forall (b : F64.SellBody.t) (now : Date) (t : F64.ITrade),
    let a := F64.computeTradeAggregates t in
    F64.status t = active ->
    F64.sellSchema b = true ->
    F64.truthy (F64.avgEntryPrice a) = true ->
    (0 <? F64.openCoin a) = true ->
    (F64.openCoin a <? F64.requestedCoin b (F64.openCoin a)) = true ->
    exists t' : F64.ITrade,
      F64.sell b now t = F64.Saved t' /\ F64.status t' = closed.
Proof.
  intros b now t a Hs Hb Ha Ho Hr.
  eexists.
  split; [apply f64_sell_runs; try assumption;
          apply (f64_pos_lt_trans _ _ Ho Hr)|].
  cbn [F64.status]. unfold F64.soldCoin. fold a. rewrite Hr.
  rewrite (f64_sub_diag_below _ _ Ho Hr). reflexivity.
Qed.

Lemma sell_everything_closes_witness :
  exists t' : F64.ITrade,
    F64.sell (F64.sellUsd 1e9 2) 2%Z (F64.opened short 3 10 (Some 3))
    = F64.Saved t'
    /\ F64.status t' = closed.
Proof.
  apply (sell_everything_closes
           (F64.sellUsd 1e9 2) 2%Z (F64.opened short 3 10 (Some 3)));
    vm_compute; reflexivity.
Defined.

(** ** Adding size *)

Lemma f64_entryLoop_last (es : list F64.ITradeEntry) (e : F64.ITradeEntry) :
  F64.entryLoop (es ++ [e])%list = F64.entryStep (F64.entryLoop es) e.
Proof. unfold F64.entryLoop. rewrite fold_left_app. reflexivity. Qed.

(** X10. Adding size to an active position with a valid body appends one
    entry with the request's price, margin and leverage and leaves the
    closes and the status alone.  The totals of the aggregation move by
    one addition each: the total margin is the old total plus the new
    margin, and the total entry coin is the old total plus the coin
    amount of the new entry, rounded. *)
Theorem addSize_grows_the_position :
  forall (b : F64.AddSizeBody.t) (now : Date) (t : F64.ITrade),
    F64.status t = active ->
    F64.addSizeSchema b = true ->
    exists (t' : F64.ITrade) (e : F64.ITradeEntry),
      F64.addSize b now t = F64.Saved t'
      /\ F64.entries t' = (F64.entries t ++ [e])%list
      /\ F64.closes t' = F64.closes t
      /\ F64.status t' = active
      /\ F64.entryPrice e = F64.AddSizeBody.entryPrice b
      /\ F64.amountInvestedUsd e = F64.AddSizeBody.amountInvestedUsd b
      /\ F64.leverage e = F64.AddSizeBody.leverage b
      /\ F64.totalInitialMarginUsd (F64.computeTradeAggregates t')
         = F64.totalInitialMarginUsd (F64.computeTradeAggregates t)
           + F64.AddSizeBody.amountInvestedUsd b
      /\ F64.totalEntryCoin (F64.computeTradeAggregates t')
         = F64.totalEntryCoin (F64.computeTradeAggregates t)
           + F64.AddSizeBody.amountInvestedUsd b
             * (F64.AddSizeBody.leverage b ?? 1)
             / F64.AddSizeBody.entryPrice b.
Proof.
  intros b now t Hs Hb. unfold F64.addSize. rewrite Hb, Hs. simpl negb. cbv iota.
  eexists. eexists. split; [reflexivity|].
  cbn [F64.entries F64.closes F64.status F64.entryPrice F64.amountInvestedUsd
       F64.leverage].
  repeat (split; [reflexivity|]).
  unfold F64.computeTradeAggregates.
  cbn [F64.entries F64.totalInitialMarginUsd F64.totalEntryCoin].
  rewrite f64_entryLoop_last. split; reflexivity.
Qed.

Lemma addSize_grows_the_position_witness :
  exists t' : F64.ITrade,
    F64.addSize (F64.AddSizeBody.mk 3 33.3 (Some 3) None) 2%Z
      (F64.opened long 49 1 None) = F64.Saved t'
    /\ F64.totalEntryCoin (F64.computeTradeAggregates t')
       = 1 / 49 + 33.3 * 3 / 3.
Proof.
  destruct (addSize_grows_the_position
              (F64.AddSizeBody.mk 3 33.3 (Some 3) None) 2%Z
              (F64.opened long 49 1 None) eq_refl eq_refl)
    as (t' & e & R & _ & _ & _ & _ & _ & _ & _ & C).
  exists t'. split; [exact R|]. rewrite C. vm_compute. reflexivity.
Defined.

End Doubles.

(* ------------------------------------------------------------------ *)
(** * A pass over a store that can fail *)

Lemma served_syncStep (uid : string) (now : Date)
    (position : AsterDexPosition.t) (c : Counters) (db : Store) :
  Unreliable.syncStep true uid now position c db
  = syncStep uid now position c db.
Proof. reflexivity. Qed.

(** While the store serves every call, the pass is the pass of
    [syncLoop]. *)
Lemma served_syncLoop (up : nat -> bool) (uid : string) (now : Date)
    (positions : list AsterDexPosition.t) :
  forall (i : nat) (c : Counters) (db : Store),
    (forall j, (j < List.length positions)%nat -> up (i + j)%nat = true) ->
    Unreliable.syncLoop up i uid now positions c db
    = syncLoop uid now positions c db.
Proof.
  induction positions as [|p ps IH]; intros i c db Hup; simpl; [reflexivity|].
  rewrite <- (Nat.add_0_r i) at 1. rewrite (Hup 0%nat) by (simpl; lia).
  rewrite served_syncStep.
  destruct (syncStep uid now p c db) as [[c' db']|]; [|reflexivity].
  apply IH. intros j Hj.
  replace (S i + j)%nat with (i + S j)%nat by lia. apply Hup. simpl. lia.
Qed.

Lemma served_runSync (up : nat -> bool) (svc : Service)
    (positions : list AsterDexPosition.t) (now : Date) (db : Store) :
  (forall j, (j < List.length positions)%nat -> up j = true) ->
  Unreliable.runSync up svc (Fetched positions) now db
  = runSync svc (Fetched positions) now db.
Proof.
  intro Hup. unfold Unreliable.runSync, runSync, Unreliable.syncPositions,
    syncPositions.
  rewrite served_syncLoop by exact Hup. reflexivity.
Qed.

(** The first upsert that the store rejects ends the loop, on the store
    that the positions before it left. *)
Lemma rejected_syncLoop (up : nat -> bool) (uid : string) (now : Date)
    (position : AsterDexPosition.t) (payload : PositionTradePayload.t) :
  mapPosition position now = Some payload ->
  forall (i : nat) (positions : list AsterDexPosition.t) (k : nat)
         (c : Counters) (db : Store),
    nth_error positions i = Some position ->
    up (k + i)%nat = false ->
    (forall j, (j < i)%nat -> up (k + j)%nat = true) ->
    Unreliable.syncLoop up k uid now positions c db
    = (None, snd (syncLoop uid now (firstn i positions) c db)).
Proof.
  intro M. induction i as [|i IH]; intros positions k c db Hn Hd Hup.
  - destruct positions as [|p ps]; [discriminate|].
    simpl in Hn. injection Hn as ->. simpl.
    rewrite Nat.add_0_r in Hd. rewrite Hd.
    unfold Unreliable.syncStep. rewrite M. reflexivity.
  - destruct positions as [|p ps]; [discriminate|].
    simpl in Hn. simpl.
    rewrite <- (Nat.add_0_r k) at 1. rewrite (Hup 0%nat) by lia.
    rewrite served_syncStep.
    destruct (syncStep uid now p c db) as [[c' db']|]; [|reflexivity].
    apply IH; [exact Hn | |].
    + replace (S k + i)%nat with (k + S i)%nat by lia. exact Hd.
    + intros j Hj. replace (S k + j)%nat with (k + S j)%nat by lia.
      apply Hup. lia.
Qed.

(** C5. In a pass over a feed, a position that [mapPosition] rejects adds
    one to [skipped] and the loop goes on with the next position on the
    same store, whether the store is up or not.  When the fetch succeeds
    and the store serves every call, every position of the feed is
    counted once, as skipped when the mapping rejects it and as created
    or updated otherwise.  When the fetch fails the pass reports the
    zeroed statistics and the store is the one it started from: no
    upsert was applied.  When the store rejects the upsert of a position,
    the pass ends there: it reports the zeroed statistics, the positions
    after it are not looked at, and the store is the one that the
    upserts of the positions before it left. *)
Theorem skips_continue_and_a_rejected_upsert_ends_the_pass :
  (forall (up : nat -> bool) (i : nat) (uid : string) (now : Date)
          (position : AsterDexPosition.t) (rest : list AsterDexPosition.t)
          (c : Counters) (db : Store),
      mapPosition position now = None ->
      Unreliable.syncLoop up i uid now (position :: rest) c db
      = Unreliable.syncLoop up (S i) uid now rest
          (mkCounters (nCreated c) (nUpdated c) (S (nSkipped c))) db)
  /\ (forall (up : nat -> bool) (svc : Service)
             (positions : list AsterDexPosition.t) (now : Date) (db : Store),
        syncing svc = false -> reachable db ->
        (forall j, (j < List.length positions)%nat -> up j = true) ->
        let stats :=
          fst (fst (Unreliable.runSync up svc (Fetched positions) now db)) in
        totalPositions stats = List.length positions
        /\ skipped stats = dropped now positions
        /\ (created stats + updated stats)%nat = mapped now positions
        /\ concurrent stats = false)
  /\ (forall (up : nat -> bool) (svc : Service) (now : Date) (db : Store),
        syncing svc = false ->
        Unreliable.runSync up svc FetchFailed now db
        = (failedStats, mkService (userObjectId svc) false, db))
  /\ (forall (up : nat -> bool) (svc : Service)
             (positions : list AsterDexPosition.t) (now : Date) (db : Store)
             (i : nat) (position : AsterDexPosition.t)
             (payload : PositionTradePayload.t),
        syncing svc = false ->
        nth_error positions i = Some position ->
        mapPosition position now = Some payload ->
        up i = false ->
        (forall j, (j < i)%nat -> up j = true) ->
        Unreliable.runSync up svc (Fetched positions) now db
        = (failedStats, mkService (userObjectId svc) false,
           snd (runSync svc (Fetched (firstn i positions)) now db))).
Proof.
  split; [|split; [|split]].
  - intros up i uid now position rest c db M. simpl.
    unfold Unreliable.syncStep. rewrite M. reflexivity.
  - intros up svc positions now db Hs R Hup.
    rewrite served_runSync by exact Hup.
    unfold runSync, syncPositions. rewrite Hs.
    destruct (syncLoop_counts (userObjectId svc) now positions
                (mkCounters 0 0 0) db (reachable_storeOk db R))
      as (c' & db' & -> & _ & S & CU).
    simpl in *. repeat split; auto.
  - intros up svc now db Hs. unfold Unreliable.runSync. rewrite Hs. reflexivity.
  - intros up svc positions now db i position payload Hs Hn M Hd Hup.
    unfold Unreliable.runSync, Unreliable.syncPositions. rewrite Hs.
    rewrite (rejected_syncLoop up (userObjectId svc) now position payload M
               i positions 0%nat (mkCounters 0 0 0) db Hn Hd Hup).
    unfold runSync, syncPositions. rewrite Hs.
    destruct (syncLoop (userObjectId svc) now (firstn i positions)
                (mkCounters 0 0 0) db) as [[c'|] db']; reflexivity.
Qed.

Lemma skips_continue_and_a_rejected_upsert_ends_the_pass_witness :
  (let stats :=
     fst (fst (Unreliable.runSync (fun _ => true) (mkService "u1" false)
                 (Fetched [flatPosition; demoPosition]) 5%Z emptyStore)) in
   totalPositions stats = 2%nat
   /\ skipped stats = 1%nat
   /\ (created stats + updated stats)%nat = 1%nat
   /\ concurrent stats = false)
  /\ Unreliable.runSync downForSecond (mkService "u1" false)
       (Fetched [demoPosition; secondPosition; thirdPosition]) 5%Z emptyStore
     = (failedStats, mkService "u1" false, demoSynced).
Proof.
  destruct skips_continue_and_a_rejected_upsert_ends_the_pass
    as (_ & B & _ & D).
  split.
  - apply (B (fun _ => true) (mkService "u1" false)
             [flatPosition; demoPosition] 5%Z emptyStore).
    + reflexivity.
    + apply reach_empty.
    + reflexivity.
  - destruct (mapPosition secondPosition 5%Z) as [payload|] eqn:M;
      [|vm_compute in M; discriminate].
    rewrite (D downForSecond (mkService "u1" false)
               [demoPosition; secondPosition; thirdPosition] 5%Z emptyStore
               1%nat secondPosition payload eq_refl eq_refl M eq_refl).
    + reflexivity.
    + intros j Hj. assert (j = 0%nat) as -> by lia. reflexivity.
Defined.

(** Not only a failed fetch ends a pass, and a pass can end after an
    upsert.  On a feed of three positions that the mapping accepts, when
    the store rejects the upsert of the second: the fetch has succeeded,
    the first position has been written, the third, which the store
    would have served, is never looked at, and the pass reports the
    zeroed statistics of a failed run. *)
Lemma rejected_upsert_ends_the_pass_after_an_upsert :
  let feed := [demoPosition; secondPosition; thirdPosition] in
  let run := Unreliable.runSync downForSecond (mkService "u1" false)
               (Fetched feed) 5%Z emptyStore in
  mapped 5%Z feed = 3%nat
  /\ downForSecond 2 = true
  /\ fst (fst run) = failedStats
  /\ linkedCount "u1" "BTCUSDT:BOTH" (snd run) = 1%nat
  /\ linkedCount "u1" "ETHUSDT:BOTH" (snd run) = 0%nat
  /\ linkedCount "u1" "SOLUSDT:BOTH" (snd run) = 0%nat
  /\ snd run <> emptyStore.
Proof.
  cbv zeta. repeat split; try (vm_compute; reflexivity).
  vm_compute. discriminate.
Qed.

(** ** A pass that the store serves throughout *)

(** X22. After a pass over a fetched feed during which the store served
    every call, every position of the feed that the mapping accepts has
    exactly one document under its key, and the store has grown by
    exactly the number of positions the pass reports as created: a pass
    never removes a document. *)
Theorem pass_links_every_mapped_position :
  forall (up : nat -> bool) (db : Store) (uid : string)
         (positions : list AsterDexPosition.t) (now : Date),
    reachable db ->
    (forall j, (j < List.length positions)%nat -> up j = true) ->
    let run :=
      Unreliable.runSync up (mkService uid false) (Fetched positions) now db in
    (forall p payload, In p positions -> mapPosition p now = Some payload ->
        linkedCount uid (AsterDexPosition.id p) (snd run) = 1%nat)
    /\ List.length (docs (snd run))
       = (List.length (docs db) + created (fst (fst run)))%nat.
Proof.
  intros up db uid positions now R Hup. cbv zeta.
  rewrite served_runSync by exact Hup.
  unfold runSync, syncPositions. simpl.
  destruct (syncLoop_effect uid now positions (mkCounters 0 0 0) db
              (reachable_storeOk db R))
    as (c' & db' & -> & _ & _ & Len & _ & One).
  simpl in *. split; [exact One | lia].
Qed.

Lemma pass_links_every_mapped_position_witness :
  let run := Unreliable.runSync (fun _ => true) (mkService "u1" false)
               (Fetched [flatPosition; demoPosition]) 5%Z demoLedger in
  linkedCount "u1" "BTCUSDT:BOTH" (snd run) = 1%nat
  /\ List.length (docs (snd run))
     = (List.length (docs demoLedger) + created (fst (fst run)))%nat.
Proof.
  destruct (pass_links_every_mapped_position (fun _ => true) demoLedger "u1"
              [flatPosition; demoPosition] 5%Z) as [One Len].
  - apply reach_exec, reach_empty.
  - reflexivity.
  - split; [|exact Len].
    destruct (mapPosition demoPosition 5%Z) as [payload|] eqn:M;
      [|vm_compute in M; discriminate].
    apply (One demoPosition payload); [right; left; reflexivity | exact M].
Defined.
